(** * Quantum Blackjack: a shallow embedding of [QuantumBlackJack-withGUI.ipynb]

    The notebook defines one class, [QuantumCardGameGUI].  Its session state
    (the attributes assigned in [__init__]) becomes the record [game]; every
    method that reads or writes game state becomes a function on [game].
    Randomness (card draws, rotation angles, the coin toss, the simulator's
    single shot) is passed in explicitly.  Each button handler is run to
    completion before the next one starts; the [asyncio.sleep] pauses are
    dropped.  Image widgets, card boxes, score labels and the details
    label are presentation only and are left out; the message labels and
    the placement of the action box are kept.  The text of the revealed
    hands is still built, since reading a hand or a score that is missing
    raises [KeyError].

    The circuit [self.qc] is a list of instructions.  Its meaning is the
    state-vector semantics of the gates the notebook uses (H, RY, CX,
    measure), over the real numbers: all three gates have real matrices, so
    every amplitude reached from |0...0> is real.  Floating-point rounding is
    not modelled. *)

From Stdlib Require Import ZArith NArith List String Ascii Bool Lia.
From Stdlib Require Import Reals Lra Permutation FunctionalExtensionality.
From Stdlib Require DecimalString.
Import ListNotations.

Local Open Scope string_scope.
Local Open Scope Z_scope.

(* ------------------------------------------------------------------ *)
(** ** Exceptions and results *)

Inductive exn : Type := ValueError | IndexError | KeyError.

(** A handler either completes, raises, or exhausts the step budget of the
    dealer's [while] loop. *)
Inductive result (A : Type) : Type :=
| Done (a : A)
| Raise (e : exn)
| OutOfFuel.

Arguments Done {A} a.
Arguments Raise {A} e.
Arguments OutOfFuel {A}.

Definition bind {A B : Type} (r : result A) (k : A -> result B) : result B :=
  match r with
  | Done a => k a
  | Raise e => Raise e
  | OutOfFuel => OutOfFuel
  end.

Notation "x <- r ;; k" := (bind r (fun x => k))
  (at level 61, r at next level, right associativity).

(* ------------------------------------------------------------------ *)
(** ** The Python built-ins the notebook relies on *)

Module Py.

(** [s.split(sep)] for a one-character separator. *)
Fixpoint split (sep : ascii) (s : string) : list string :=
  match s with
  | EmptyString => [EmptyString]
  | String c s' =>
      if Ascii.eqb c sep then EmptyString :: split sep s'
      else match split sep s' with
           | h :: t => String c h :: t
           | [] => [String c EmptyString]
           end
  end.

(** [s[a:b]] for [0 <= a <= b]; short strings give what is there. *)
Definition slice (a b : nat) (s : string) : string :=
  substring a (b - a) s.

(** [l[a:b]] on a list. *)
Definition lslice {A : Type} (a b : nat) (l : list A) : list A :=
  firstn (b - a) (skipn a l).

(** [s[::-1]]. *)
Definition reversed (s : string) : string :=
  string_of_list_ascii (rev (list_ascii_of_string s)).

(** The digits of [int(s, 2)], most significant first, accumulated. *)
Fixpoint int2_acc (acc : Z) (s : string) : result Z :=
  match s with
  | EmptyString => Done acc
  | String c s' =>
      if Ascii.eqb c "0" then int2_acc (2 * acc) s'
      else if Ascii.eqb c "1" then int2_acc (2 * acc + 1) s'
      else Raise ValueError
  end.

(** [int(s, 2)] on a string of binary digits; the empty string and any
    other character raise [ValueError].  (Signs, blanks, underscores and
    the [0b] prefix, which Python also accepts, never occur in a
    simulator bit string and are rejected here.) *)
Definition int2 (s : string) : result Z :=
  match s with
  | EmptyString => Raise ValueError
  | _ => int2_acc 0 s
  end.

(** [str(n)] for an integer. *)
Definition str (n : Z) : string :=
  DecimalString.NilZero.string_of_int (Z.to_int n).

(** [sum(l)]. *)
Definition sum (l : list Z) : Z := fold_left Z.add l 0.

(** [l[i]] for [i >= 0]. *)
Definition index {A : Type} (l : list A) (i : nat) : result A :=
  match nth_error l i with
  | Some a => Done a
  | None => Raise IndexError
  end.

(** [needle in hay] on strings. *)
Fixpoint contains (needle hay : string) : bool :=
  prefix needle hay ||
  match hay with
  | EmptyString => false
  | String _ hay' => contains needle hay'
  end.

(** A [dict] keeps its keys in insertion order. *)
Definition dict (A : Type) : Type := list (string * A).

Fixpoint get {A : Type} (d : dict A) (k : string) : result A :=
  match d with
  | [] => Raise KeyError
  | (k', v) :: d' => if String.eqb k' k then Done v else get d' k
  end.

(** [d[k] = v]: an existing key keeps its place, a new one goes last. *)
Fixpoint set {A : Type} (d : dict A) (k : string) (v : A) : dict A :=
  match d with
  | [] => [(k, v)]
  | (k', v') :: d' =>
      if String.eqb k' k then (k', v) :: d' else (k', v') :: set d' k v
  end.

Definition keys {A : Type} (d : dict A) : list string := map fst d.
Definition values {A : Type} (d : dict A) : list A := map snd d.

(** [max(l)] on a non-empty list of integers. *)
Definition max (l : list Z) : result Z :=
  match l with
  | [] => Raise ValueError
  | x :: l' => Done (fold_left Z.max l' x)
  end.

(** [numpy.random.randint(low, high)]: an integer in [[low, high)],
    obtained from one raw random word. *)
Definition randint (low high : Z) (raw : Z) : Z :=
  low + raw mod (high - low).

End Py.

(* ------------------------------------------------------------------ *)
(** ** Game constants *)

Definition TARGET_SCORE : Z := 17.
Definition DEALER_STANDS_THRESHOLD : Z := 14.
Definition MIN_CARD_VALUE : Z := 1.
Definition MAX_CARD_VALUE : Z := 8.
Definition NUM_QUANTUM_CARDS_PER_PLAYER : nat := 2.

(* ------------------------------------------------------------------ *)
(** ** The circuit [self.qc]

    Qubits and classical bits carry their global index in the circuit
    [QuantumCircuit(dealer_q, player1_q, player2_q, dealer_c, player1_c,
    player2_c)]: the dealer's register is 0..5, Player 1's 6..11 and
    Player 2's 12..17, on both the quantum and the classical side. *)

Inductive instr : Type :=
| IBarrier
| IH (q : N)
| IRy (theta : R) (q : N)
| ICx (c t : N)
| IMeasure (q : N) (c : N).

Definition circuit : Type := list instr.

(** A register of [n] bits whose first bit has global index [base]. *)
Definition register (base : N) (n : nat) : list N :=
  map (fun i => (base + N.of_nat i)%N) (seq 0 n).

Definition num_qubits : nat := NUM_QUANTUM_CARDS_PER_PLAYER * 3.

Definition dealer_q : list N := register 0 num_qubits.
Definition player1_q : list N := register 6 num_qubits.
Definition player2_q : list N := register 12 num_qubits.
Definition dealer_c : list N := register 0 num_qubits.
Definition player1_c : list N := register 6 num_qubits.
Definition player2_c : list N := register 12 num_qubits.

(** [qc.barrier()], [qc.h(qubits)], [qc.ry(angle, qubit)], [qc.cx(c, t)] and
    [qc.measure(qubits, clbits)] append to the circuit. *)
Definition qc_barrier (c : circuit) : circuit :=
  (c ++ [IBarrier])%list.
Definition qc_h (qubits : list N) (c : circuit) : circuit :=
  (c ++ map IH qubits)%list.
Definition qc_ry (angle : R) (qubit : N) (c : circuit) : circuit :=
  (c ++ [IRy angle qubit])%list.
Definition qc_cx (ctl tgt : N) (c : circuit) : circuit :=
  (c ++ [ICx ctl tgt])%list.
Definition qc_measure (qubits clbits : list N) (c : circuit) : circuit :=
  (c ++ map (fun qc => IMeasure (fst qc) (snd qc)) (combine qubits clbits))%list.

(** [q[i]] on a register; the notebook only uses indices 0..5. *)
Definition reg_at (r : list N) (i : nat) : N := nth i r 0%N.

(* ------------------------------------------------------------------ *)
(** ** Session state *)

Record game : Type := mkGame {
  qc : circuit;
  player_scores : Py.dict Z;
  initial_cards : Py.dict Z;
  player_hands : Py.dict (list Z);
  player_turn_order : list Z;
  current_player_index : nat;
  game_over : bool;
  current_round : Z;
  measure_level : Z;
  (* presentation state that the handlers read or that gates user input *)
  message_label : string;
  round_label : string;
  player1_box_has_actions : bool;
  player2_box_has_actions : bool
}.

Definition set_qc (v : circuit) (s : game) : game :=
  mkGame v (player_scores s) (initial_cards s) (player_hands s)
    (player_turn_order s) (current_player_index s) (game_over s)
    (current_round s) (measure_level s) (message_label s) (round_label s)
    (player1_box_has_actions s) (player2_box_has_actions s).

Definition set_player_scores (v : Py.dict Z) (s : game) : game :=
  mkGame (qc s) v (initial_cards s) (player_hands s)
    (player_turn_order s) (current_player_index s) (game_over s)
    (current_round s) (measure_level s) (message_label s) (round_label s)
    (player1_box_has_actions s) (player2_box_has_actions s).

Definition set_initial_cards (v : Py.dict Z) (s : game) : game :=
  mkGame (qc s) (player_scores s) v (player_hands s)
    (player_turn_order s) (current_player_index s) (game_over s)
    (current_round s) (measure_level s) (message_label s) (round_label s)
    (player1_box_has_actions s) (player2_box_has_actions s).

Definition set_player_hands (v : Py.dict (list Z)) (s : game) : game :=
  mkGame (qc s) (player_scores s) (initial_cards s) v
    (player_turn_order s) (current_player_index s) (game_over s)
    (current_round s) (measure_level s) (message_label s) (round_label s)
    (player1_box_has_actions s) (player2_box_has_actions s).

Definition set_player_turn_order (v : list Z) (s : game) : game :=
  mkGame (qc s) (player_scores s) (initial_cards s) (player_hands s)
    v (current_player_index s) (game_over s)
    (current_round s) (measure_level s) (message_label s) (round_label s)
    (player1_box_has_actions s) (player2_box_has_actions s).

Definition set_current_player_index (v : nat) (s : game) : game :=
  mkGame (qc s) (player_scores s) (initial_cards s) (player_hands s)
    (player_turn_order s) v (game_over s)
    (current_round s) (measure_level s) (message_label s) (round_label s)
    (player1_box_has_actions s) (player2_box_has_actions s).

Definition set_game_over (v : bool) (s : game) : game :=
  mkGame (qc s) (player_scores s) (initial_cards s) (player_hands s)
    (player_turn_order s) (current_player_index s) v
    (current_round s) (measure_level s) (message_label s) (round_label s)
    (player1_box_has_actions s) (player2_box_has_actions s).

Definition set_current_round (v : Z) (s : game) : game :=
  mkGame (qc s) (player_scores s) (initial_cards s) (player_hands s)
    (player_turn_order s) (current_player_index s) (game_over s)
    v (measure_level s) (message_label s) (round_label s)
    (player1_box_has_actions s) (player2_box_has_actions s).

Definition set_measure_level (v : Z) (s : game) : game :=
  mkGame (qc s) (player_scores s) (initial_cards s) (player_hands s)
    (player_turn_order s) (current_player_index s) (game_over s)
    (current_round s) v (message_label s) (round_label s)
    (player1_box_has_actions s) (player2_box_has_actions s).

Definition set_message_label (v : string) (s : game) : game :=
  mkGame (qc s) (player_scores s) (initial_cards s) (player_hands s)
    (player_turn_order s) (current_player_index s) (game_over s)
    (current_round s) (measure_level s) v (round_label s)
    (player1_box_has_actions s) (player2_box_has_actions s).

Definition set_round_label (v : string) (s : game) : game :=
  mkGame (qc s) (player_scores s) (initial_cards s) (player_hands s)
    (player_turn_order s) (current_player_index s) (game_over s)
    (current_round s) (measure_level s) (message_label s) v
    (player1_box_has_actions s) (player2_box_has_actions s).

Definition set_action_boxes (p1 p2 : bool) (s : game) : game :=
  mkGame (qc s) (player_scores s) (initial_cards s) (player_hands s)
    (player_turn_order s) (current_player_index s) (game_over s)
    (current_round s) (measure_level s) (message_label s) (round_label s)
    p1 p2.

(** [__init__]: the attribute values before the first [start_game]. *)
Definition init : game :=
  mkGame [] [] [] [] [] 0%nat false 1 3
    "<p style='color:black;'>Welcome! Press 'Start Game' to begin.</p>"
    "" false false.

(** What one handler invocation may consume from the outside world: the
    outcome of a coin toss, the memory string of the single simulator shot,
    the raw random words behind successive [_generate_random_card] calls,
    and a step budget for the dealer's loop. *)
Record env : Type := mkEnv {
  coin : string;
  memory : string;
  draws : nat -> Z;
  fuel : nat
}.

(* ------------------------------------------------------------------ *)
(** ** Methods *)

Definition _set_message (msg color : string) (s : game) : game :=
  set_message_label ("<p style='color:" ++ color ++ ";'>" ++ msg ++ "</p>") s.

Definition _set_round_message (msg color : string) (s : game) : game :=
  set_round_label
    ("<p style='color:" ++ color ++ "; font-style:italic;'>" ++ msg ++ "</p>") s.

Definition _generate_random_card (raw : Z) : Z :=
  Py.randint MIN_CARD_VALUE (MAX_CARD_VALUE + 1) raw.

Definition _get_card_value_from_binary (binary_string : string) : result Z :=
  n <- Py.int2 binary_string ;; Done (n + 1).

(** The loop [for qubit in qubits: angle = uniform(0, 2*pi); qc.ry(angle,
    qubit)], reading the angles from position [k] on. *)
Fixpoint ry_each (qubits : list N) (angles : nat -> R) (k : nat)
    (c : circuit) : circuit :=
  match qubits with
  | [] => c
  | q :: qs => ry_each qs angles (S k) (qc_ry (angles k) q c)
  end.

(** The gates [_prepare_player_card_with_rotations] adds to the main
    circuit.  (The probabilities it returns are only displayed.) *)
Definition _prepare_player_card_with_rotations (qubits : list N)
    (angles : nat -> R) (k : nat) (c : circuit) : circuit :=
  ry_each qubits angles k (qc_h qubits c).

Definition _prepare_quantum_circuit (angles : nat -> R) (s : game) : game :=
  let c := qc_barrier [] in
  (* 1. dealer *)
  let c := qc_barrier (qc_h dealer_q c) in
  (* 2. player cards: card 1 on qubits 3,4,5, card 2 on qubits 0,1,2 *)
  let c := qc_barrier
             (_prepare_player_card_with_rotations
                (Py.lslice 3 6 player1_q) angles 0 c) in
  let c := qc_barrier
             (_prepare_player_card_with_rotations
                (Py.lslice 0 3 player1_q) angles 3 c) in
  (* 3. first entangled pair *)
  let c := qc_cx (reg_at player1_q 3) (reg_at player2_q 5) c in
  let c := qc_cx (reg_at player1_q 4) (reg_at player2_q 4) c in
  let c := qc_cx (reg_at player1_q 5) (reg_at player2_q 3) c in
  let c := qc_barrier c in
  (* 4. second entangled pair *)
  let c := qc_cx (reg_at player1_q 0) (reg_at player2_q 2) c in
  let c := qc_cx (reg_at player1_q 1) (reg_at player2_q 1) c in
  let c := qc_cx (reg_at player1_q 2) (reg_at player2_q 0) c in
  let c := qc_barrier c in
  set_qc c s.

Definition _determine_turn_order (coin_result : string) (s : game)
    : game * list Z :=
  let s := _set_message "Flipping a quantum coin to determine turn order..."
             "black" s in
  if String.eqb coin_result "0" then
    (_set_message "Coin shows |0>. Player 1 will play first this round."
       "black" s, [1; 2])
  else
    (_set_message "Coin shows |1>. Player 2 will play first this round."
       "black" s, [2; 1]).

Definition _add_measurements_to_circuit (s : game) : game :=
  let s := _set_round_message
             "Locking in final results... Collapsing quantum states..."
             "black" s in
  if measure_level s =? 2 then
    let s := _set_message "Measuring first quantum cards only..." "black" s in
    let c := qc_measure (Py.lslice 3 6 dealer_q) (Py.lslice 3 6 dealer_c)
               (qc s) in
    let c := qc_measure (Py.lslice 3 6 player1_q) (Py.lslice 3 6 player1_c)
               c in
    let c := qc_measure (Py.lslice 3 6 player2_q) (Py.lslice 3 6 player2_c)
               c in
    set_qc c s
  else
    let s := _set_message "Measuring all quantum cards..." "black" s in
    let c := qc_measure dealer_q dealer_c (qc s) in
    let c := qc_measure player1_q player1_c c in
    let c := qc_measure player2_q player2_c c in
    set_qc c s.

Definition _update_turn_highlight (s : game) : result game :=
  let s := set_action_boxes false false s in
  if game_over s then Done s
  else
    player_num <- Py.index (player_turn_order s) (current_player_index s) ;;
    let s := _set_message ("It's Player " ++ Py.str player_num ++ "'s turn.")
               "black" s in
    if player_num =? 1 then Done (set_action_boxes true false s)
    else Done (set_action_boxes false true s).

(** [self.player_hands[k].append(v)]. *)
Definition hand_append (hands : Py.dict (list Z)) (k : string) (v : Z)
    : result (Py.dict (list Z)) :=
  h <- Py.get hands k ;; Done (Py.set hands k (h ++ [v])%list).

(** [for p in self.player_hands: self.player_scores[p] = sum(...)]. *)
Definition rescore (hands : Py.dict (list Z)) (scores : Py.dict Z)
    : Py.dict Z :=
  fold_left (fun sc ph => Py.set sc (fst ph) (Py.sum (snd ph))) hands scores.

Definition _process_quantum_results (result_str : string) (s : game)
    : result game :=
  match Py.split " " result_str with
  | [p2_res; p1_res; dealer_res] =>
      i1 <- Py.get (initial_cards s) "Player 1" ;;
      i2 <- Py.get (initial_cards s) "Player 2" ;;
      id <- Py.get (initial_cards s) "Dealer" ;;
      let hands := [("Player 1", [i1]); ("Player 2", [i2]); ("Dealer", [id])] in
      p1_q1 <- _get_card_value_from_binary
                 (Py.reversed (Py.slice 0 3 p1_res)) ;;
      hands <- hand_append hands "Player 1" p1_q1 ;;
      p2_q1 <- _get_card_value_from_binary
                 (Py.reversed (Py.slice 0 3 p2_res)) ;;
      hands <- hand_append hands "Player 2" p2_q1 ;;
      d_q1 <- _get_card_value_from_binary
                (Py.reversed (Py.slice 0 3 dealer_res)) ;;
      hands <- hand_append hands "Dealer" d_q1 ;;
      hands <-
        (if measure_level s =? 3 then
           p1_q2 <- _get_card_value_from_binary
                      (Py.reversed (Py.slice 3 6 p1_res)) ;;
           hands <- hand_append hands "Player 1" p1_q2 ;;
           p2_q2 <- _get_card_value_from_binary
                      (Py.reversed (Py.slice 3 6 p2_res)) ;;
           hands <- hand_append hands "Player 2" p2_q2 ;;
           dealer_hand <- Py.get hands "Dealer" ;;
           let dealer_score_before_q2 := Py.sum dealer_hand in
           if dealer_score_before_q2 <? DEALER_STANDS_THRESHOLD then
             d_q2 <- _get_card_value_from_binary
                       (Py.reversed (Py.slice 3 6 dealer_res)) ;;
             hand_append hands "Dealer" d_q2
           else Done hands
         else Done hands) ;;
      Done (set_player_scores (rescore hands (player_scores s))
              (set_player_hands hands s))
  | _ => Raise ValueError
  end.

(** The body of [while dealer_total < DEALER_STANDS_THRESHOLD], with
    [dealer_total] as loop variable and [k] the number of cards drawn so
    far in this call. *)
Fixpoint dealer_loop (fuel : nat) (draws : nat -> Z) (k : nat)
    (dealer_total : Z) (s : game) : result game :=
  if dealer_total <? DEALER_STANDS_THRESHOLD then
    match fuel with
    | O => OutOfFuel
    | S fuel' =>
        let new_card_val := _generate_random_card (draws k) in
        let s := _set_message
                   ("Dealer total is " ++ Py.str dealer_total ++ " (<"
                    ++ Py.str DEALER_STANDS_THRESHOLD
                    ++ "). Dealer MUST draw...") "black" s in
        let dealer_total := dealer_total + new_card_val in
        hands <- hand_append (player_hands s) "Dealer" new_card_val ;;
        let s := set_player_hands hands s in
        let s := set_player_scores
                   (Py.set (player_scores s) "Dealer" dealer_total) s in
        let s := _set_message
                   ("Dealer draws a " ++ Py.str new_card_val
                    ++ ". New total: " ++ Py.str dealer_total) "black" s in
        dealer_loop fuel' draws (S k) dealer_total s
    end
  else Done s.

Definition _dealer_final_turn (e : env) (s : game) : result game :=
  dealer_total <- Py.get (player_scores s) "Dealer" ;;
  dealer_loop (fuel e) (draws e) 0 dealer_total s.

(** The first loop of [_generate_final_summary]: the bust announcements
    and the dictionary [valid_scores]. *)
Fixpoint bust_scan (items : list (string * Z)) (winner_message : string)
    (valid_scores : Py.dict Z) : string * Py.dict Z :=
  match items with
  | [] => (winner_message, valid_scores)
  | (player, score) :: items' =>
      if score >? TARGET_SCORE then
        bust_scan items'
          (winner_message ++ player ++ " BUSTED with " ++ Py.str score ++ "! ")
          valid_scores
      else bust_scan items' winner_message (Py.set valid_scores player score)
  end.

(** [[p for p, s in valid_scores.items() if s == max_score]]. *)
Definition winners_of (valid_scores : Py.dict Z) (max_score : Z)
    : list string :=
  map fst (filter (fun ps => snd ps =? max_score) valid_scores).

(** The verdict appended after the bust announcements. *)
Definition verdict (valid_scores : Py.dict Z) : result string :=
  match valid_scores with
  | [] => Done "Everyone busted! The house wins."
  | _ =>
      max_score <- Py.max (Py.values valid_scores) ;;
      let winners := winners_of valid_scores max_score in
      if (1 <? List.length winners)%nat then
        Done ("It's a TIE between " ++ String.concat ", " winners
              ++ " with " ++ Py.str max_score ++ "!")
      else
        w <- Py.index winners 0 ;;
        Done ("CONGRATULATIONS! " ++ w ++ " wins with a score of "
              ++ Py.str max_score ++ "!")
  end.

(** The text [winner_message] that [_generate_final_summary] displays. *)
Definition winner_message_of (scores : Py.dict Z) : result string :=
  let '(winner_message, valid_scores) := bust_scan scores "" [] in
  v <- verdict valid_scores ;;
  Done (winner_message ++ v).

(** The loop [for player in ["Player 1", "Player 2", "Dealer"]] that
    builds the text of the revealed hands: each line reads the
    participant's hand and score, and a missing one raises [KeyError]. *)
Fixpoint revealed_hands (players : list string) (hands : Py.dict (list Z))
    (scores : Py.dict Z) (hand_html : string) : result string :=
  match players with
  | [] => Done hand_html
  | player :: players' =>
      hand <- Py.get hands player ;;
      let cards_str := String.concat " + " (map Py.str hand) in
      score <- Py.get scores player ;;
      revealed_hands players' hands scores
        (hand_html ++ "<p style='color:black;'><b>" ++ player ++ ":</b> "
         ++ cards_str ++ " = " ++ Py.str score ++ "</p>")
  end.

(** The details label that receives [hand_html] is presentation only and
    is not part of [game]; the reads that build its text are kept, since
    they can raise. *)
Definition _generate_final_summary (s : game) : result game :=
  let s := _set_round_message "--- GAME OUTCOME ---" "darkblue" s in
  winner_message <- winner_message_of (player_scores s) ;;
  let s := _set_message winner_message
             (if Py.contains "CONGRATULATIONS" winner_message
              then "green" else "red") s in
  hand_html <- revealed_hands ["Player 1"; "Player 2"; "Dealer"]
                 (player_hands s) (player_scores s)
                 "<h4 style='color:black; margin-top:15px;'>--- Revealed Hands ---</h4>" ;;
  Done s.

Definition _end_game (e : env) (s : game) : result game :=
  let s := set_game_over true s in
  s <- _update_turn_highlight s ;;
  let s := _add_measurements_to_circuit s in
  let result_str := memory e in
  s <- _process_quantum_results result_str s ;;
  s <- _dealer_final_turn e s ;;
  _generate_final_summary s.

Definition _next_turn (e : env) (s : game) : result game :=
  let s := set_current_player_index (current_player_index s + 1)%nat s in
  if (current_player_index s <? List.length (player_turn_order s))%nat then
    _update_turn_highlight s
  else
    let s := set_current_round (current_round s + 1) s in
    if current_round s >? 2 then
      let s := _set_round_message "All players passed the final round."
                 "black" s in
      let s := set_measure_level 3 s in
      _end_game e s
    else
      let s := _set_round_message
                 "--- Round 2: Final Decision on 3-Card Hand ---" "black" s in
      let s := set_current_player_index 0%nat s in
      let '(s, order) := _determine_turn_order (coin e) s in
      let s := set_player_turn_order order s in
      _update_turn_highlight s.

(** The qubits a Re-Shuffle click acts on: [player_q[3:6]] for card choice
    ['1'], [player_q[0:3]] otherwise, in the clicking player's register. *)
Definition qubits_to_affect (player_num : Z) (card_choice : string) : list N :=
  let player_q := if player_num =? 1 then player1_q else player2_q in
  if String.eqb card_choice "1" then Py.lslice 3 6 player_q
  else Py.lslice 0 3 player_q.

(** The click handler; [description] is [b.description] of the clicked
    button and [card_choice] the value of the radio buttons. *)
Definition _on_action_button_clicked (description card_choice : string)
    (e : env) (s : game) : result game :=
  player_num <- Py.index (player_turn_order s) (current_player_index s) ;;
  if String.eqb description "Measure" then
    let s := set_measure_level (current_round s + 1) s in
    let s := _set_message
               ("Player " ++ Py.str player_num
                ++ " measures! Ending game with "
                ++ Py.str (measure_level s) ++ "-card hands.") "black" s in
    _end_game e s
  else if String.eqb description "Pass" then
    let s := _set_message ("Player " ++ Py.str player_num ++ " passes.")
               "black" s in
    _next_turn e s
  else if String.eqb description "Re-Shuffle" then
    let qubits := qubits_to_affect player_num card_choice in
    let s := _set_message
               ("Player " ++ Py.str player_num
                ++ " re-shuffled quantum card " ++ card_choice ++ ".")
               "black" s in
    let s := set_qc (qc_barrier (qc_h qubits (qc s))) s in
    _next_turn e s
  else Done s.

(** [start_game]: the three initial cards use the first three raw draws. *)
Definition start_game (angles : nat -> R) (e : env) (s : game) : result game :=
  let s := set_game_over false s in
  let s := set_current_round 1 s in
  let s := set_current_player_index 0%nat s in
  let s := set_player_hands [] s in
  let s := set_initial_cards
             (Py.set (initial_cards s) "Dealer"
                (_generate_random_card (draws e 0%nat))) s in
  let s := set_initial_cards
             (Py.set (initial_cards s) "Player 1"
                (_generate_random_card (draws e 1%nat))) s in
  let s := set_initial_cards
             (Py.set (initial_cards s) "Player 2"
                (_generate_random_card (draws e 2%nat))) s in
  let s := _prepare_quantum_circuit angles s in
  let s := _set_round_message "--- Round 1: Play for 2 or 3 Cards? ---"
             "black" s in
  let '(s, order) := _determine_turn_order (coin e) s in
  let s := set_player_turn_order order s in
  _update_turn_highlight s.

(* ------------------------------------------------------------------ *)
(** ** Playing a session

    A click is a button description, the radio-button value at that moment
    and what the handler draws from the outside world.  Clicks are handled
    one after the other; once [game_over] is set the action box is gone, so
    the remaining clicks cannot happen and the play stops. *)

Record click : Type := mkClick {
  button : string;
  choice : string;
  world : env
}.

(** [play] also logs, for every handled click, the round it was made in and
    the button that was clicked. *)
Fixpoint play (clicks : list click) (s : game) (log : list (Z * string))
    : result (game * list (Z * string)) :=
  match clicks with
  | [] => Done (s, log)
  | c :: clicks' =>
      if game_over s then Done (s, log)
      else
        s' <- _on_action_button_clicked (button c) (choice c) (world c) s ;;
        play clicks' s' (log ++ [(current_round s, button c)])%list
  end.

(** The circuit after a Re-Shuffle by [player_num] on [card_choice]. *)
Definition reshuffle (player_num : Z) (card_choice : string) (c : circuit)
    : circuit :=
  qc_barrier (qc_h (qubits_to_affect player_num card_choice) c).

(** The circuit after a list of Re-Shuffles, oldest first. *)
Definition reshuffles (history : list (Z * string)) (c : circuit) : circuit :=
  fold_left (fun c pc => reshuffle (fst pc) (snd pc) c) history c.

(** The circuit [_prepare_quantum_circuit] builds. *)
Definition prepared (angles : nat -> R) : circuit :=
  qc (_prepare_quantum_circuit angles init).

(** The measurements [_add_measurements_to_circuit] appends at a level. *)
Definition measured (level : Z) (c : circuit) : circuit :=
  qc (_add_measurements_to_circuit (set_qc c (set_measure_level level init))).

(* ------------------------------------------------------------------ *)
(** ** State-vector semantics of the circuit

    A basis state of the 18 qubits is the number whose bit [q] is the value
    of qubit [q]; a state vector gives each basis state its amplitude. *)

Local Open Scope R_scope.

Definition statevec : Type := N -> R.

Definition upd (x q : N) (b : bool) : N :=
  if b then N.setbit x q else N.clearbit x q.

Definition ket0 : statevec := fun x => if (x =? 0)%N then 1 else 0.

(** H = 1/sqrt 2 * [[1, 1], [1, -1]] on qubit [q]. *)
Definition apply_h (q : N) (psi : statevec) : statevec :=
  fun x =>
    / sqrt 2 * (psi (upd x q false)
                + (if N.testbit x q then -1 else 1) * psi (upd x q true)).

(** RY(theta) = [[cos(theta/2), -sin(theta/2)], [sin(theta/2), cos(theta/2)]]
    on qubit [q]. *)
Definition apply_ry (theta : R) (q : N) (psi : statevec) : statevec :=
  fun x =>
    if N.testbit x q then
      sin (theta / 2) * psi (upd x q false) + cos (theta / 2) * psi (upd x q true)
    else
      cos (theta / 2) * psi (upd x q false) - sin (theta / 2) * psi (upd x q true).

(** CX flips the target where the control is 1. *)
Definition apply_cx (c t : N) (psi : statevec) : statevec :=
  fun x => psi (if N.testbit x c then upd x t (negb (N.testbit x t)) else x).

(** Measuring qubit [q] with outcome [b] keeps the amplitudes that agree
    with [b] (not renormalised: the squared norm of what is left is the
    probability of the outcomes seen so far). *)
Definition collapse (q : N) (b : bool) (psi : statevec) : statevec :=
  fun x => if Bool.eqb (N.testbit x q) b then psi x else 0.

(** One instruction, on the branch of the shot whose classical memory ends
    up being [m]. *)
Definition apply_instr (m : N) (i : instr) (psi : statevec) : statevec :=
  match i with
  | IBarrier => psi
  | IH q => apply_h q psi
  | IRy theta q => apply_ry theta q psi
  | ICx c t => apply_cx c t psi
  | IMeasure q c => collapse q (N.testbit m c) psi
  end.

Definition run (m : N) (c : circuit) (psi : statevec) : statevec :=
  fold_left (fun psi i => apply_instr m i psi) c psi.

(** The classical bits a circuit writes. *)
Fixpoint clbits_written (c : circuit) : list N :=
  match c with
  | [] => []
  | IMeasure _ cb :: c' => cb :: clbits_written c'
  | _ :: c' => clbits_written c'
  end.

(** A shot of [c] can end with classical memory [m]: bits that are never
    written stay 0, and the branch has a non-zero amplitude left.  (Every
    circuit the game runs writes each classical bit at most once.) *)
Definition possible (c : circuit) (m : N) : Prop :=
  (forall k, N.testbit m k = true -> In k (clbits_written c)) /\
  exists x, run m c ket0 x <> 0.

(** The string [get_memory()] returns for memory [m]: the registers in
    reverse order of declaration, separated by blanks, each with its highest
    bit first. *)
Definition bit_char (b : bool) : ascii := if b then "1"%char else "0"%char.

Definition bits (l : list bool) : string :=
  string_of_list_ascii (map bit_char l).

Definition creg_string (m : N) (creg : list N) : string :=
  bits (map (fun c => N.testbit m c) (rev creg)).

Definition memory_string (m : N) : string :=
  (creg_string m player2_c ++ " " ++ creg_string m player1_c ++ " "
   ++ creg_string m dealer_c)%string.

(** Sum of [f] over all values of the qubits [qs], the other bits being
    those of [x]. *)
Fixpoint sum_over (qs : list N) (f : N -> R) (x : N) : R :=
  match qs with
  | [] => f x
  | q :: qs' => sum_over qs' f (upd x q false) + sum_over qs' f (upd x q true)
  end.

Definition all_qubits : list N := (dealer_q ++ player1_q ++ player2_q)%list.

(** The card [_process_quantum_results] derives for [player]'s quantum card
    number [k] (1 or 2) when every qubit is measured and the outcome is the
    basis state [x].  The initial cards do not enter a player's quantum
    cards; they are set to 0 here. *)
Definition probe : game :=
  set_initial_cards [("Player 1"%string, 0%Z); ("Player 2"%string, 0%Z);
                     ("Dealer"%string, 0%Z)]
    (set_measure_level 3%Z init).

Definition slot_card (player : string) (k : nat) (x : N) : result Z :=
  s <- _process_quantum_results (memory_string x) probe ;;
  h <- Py.get (player_hands s) player ;;
  Py.index h k.

(** The probability that a full measurement of the state [c] prepares gives
    [player]'s quantum card [k] the value [v] (Born rule). *)
Definition slot_prob (c : circuit) (player : string) (k : nat) (v : Z) : R :=
  sum_over all_qubits
    (fun x =>
       match slot_card player k x with
       | Done v' => if (v' =? v)%Z then run 0 c ket0 x * run 0 c ket0 x else 0
       | _ => 0
       end) 0%N.

(** Reversal of the three bits of [n] (0..7). *)
Definition bitrev3 (n : Z) : Z :=
  (4 * (n mod 2) + 2 * ((n / 2) mod 2) + (n / 4) mod 2)%Z.

(* ------------------------------------------------------------------ *)
(** ** Vocabulary of the specifications *)

Local Open Scope Z_scope.

(** The card a three-character group stands for, the characters taken in
    the order they have in the register string. *)
Definition card3 (b0 b1 b2 : bool) : Z :=
  1 + Z.b2z b0 + 2 * Z.b2z b1 + 4 * Z.b2z b2.

(** The cards behind the raw draws number [k], [k+1], ..., [k+n-1]. *)
Definition cards (draws : nat -> Z) (k n : nat) : list Z :=
  map (fun i => _generate_random_card (draws i)) (seq k n).

(** What holds between two clicks of a running session. *)
Definition running (s : game) : Prop :=
  game_over s = false /\
  (current_round s = 1 \/ current_round s = 2) /\
  (current_player_index s < 2)%nat /\
  (player_turn_order s = [1; 2] \/ player_turn_order s = [2; 1]).


(** The fields no step of the end-of-game sequence touches. *)
Definition control_of (s : game) : Py.dict Z * list Z * nat * Z * Z :=
  (initial_cards s, player_turn_order s, current_player_index s,
   current_round s, measure_level s).

(** Every card is a card value. *)
Definition card_values (l : list Z) : Prop :=
  Forall (fun c => MIN_CARD_VALUE <= c <= MAX_CARD_VALUE) l.

(** The state [s'] in which the end-of-game sequence, started from [s],
    leaves the session: the dealer holds the initial card, the first
    quantum card and the cards [extra] added afterwards, each of them added
    while the total was below the threshold. *)
Definition ended_from (s s' : game) : Prop :=
  game_over s' = true /\
  initial_cards s' = initial_cards s /\
  player1_box_has_actions s' = false /\
  player2_box_has_actions s' = false /\
  exists (id qd : Z) (extra : list Z),
    Py.get (initial_cards s) "Dealer" = Done id /\
    Py.get (player_hands s') "Dealer" = Done (id :: qd :: extra) /\
    Py.get (player_scores s') "Dealer" = Done (id + qd + Py.sum extra) /\
    card_values (qd :: extra) /\
    (forall j, (j < List.length extra)%nat ->
       id + qd + Py.sum (firstn j extra) < DEALER_STANDS_THRESHOLD) /\
    DEALER_STANDS_THRESHOLD <= id + qd + Py.sum extra.

(** The turn order a coin result stands for. *)
Definition order_of_coin (coin_result : string) : list Z :=
  if String.eqb coin_result "0" then [1; 2] else [2; 1].


(** The announcements for the participants whose score exceeds the target,
    in the order of the score dictionary. *)
Definition bust_text (scores : Py.dict Z) : string :=
  String.concat ""
    (map (fun ps => fst ps ++ " BUSTED with " ++ Py.str (snd ps) ++ "! ")
       (filter (fun ps => snd ps >? TARGET_SCORE) scores)).

(** The participants that did not bust. *)
Definition not_busted (scores : Py.dict Z) : Py.dict Z :=
  filter (fun ps => snd ps <=? TARGET_SCORE) scores.


(* ------------------------------------------------------------------ *)
(** ** A worked session

    Initial cards 5, 5, 5; rotation angles 0; the coin shows 0 at the start
    and 1 before round 2.  Both players pass in round 1; in round 2
    Player 2 measures.  The shot returns all zeros for the players and
    001001 for the dealer's register. *)

Definition demo_angles : nat -> R := fun _ => 0%R.

Definition demo_env : env :=
  mkEnv "0" "000000 000000 001001" (fun _ => 4) 14.

Definition demo_env2 : env :=
  mkEnv "1" "000000 000000 001001" (fun _ => 4) 14.

Definition demo_start : game :=
  match start_game demo_angles demo_env init with
  | Done s => s
  | _ => init
  end.

Definition demo_clicks : list click :=
  [mkClick "Pass" "1" demo_env; mkClick "Pass" "1" demo_env2;
   mkClick "Measure" "1" demo_env].

Definition demo_play : game * list (Z * string) :=
  match play demo_clicks demo_start [] with
  | Done r => r
  | _ => (init, [])
  end.

Definition demo_final : game := fst demo_play.
Definition demo_log : list (Z * string) := snd demo_play.

(** The same session ended at once by Player 1's Measure in round 1. *)
Definition demo_ended : game :=
  match _on_action_button_clicked "Measure" "1" demo_env demo_start with
  | Done s => s
  | _ => init
  end.

(** A session state at the start of the dealer's final turn: the dealer
    holds 5 and 4. *)
Definition demo_dealer : game :=
  set_player_scores [("Dealer", 9)] (set_player_hands [("Dealer", [5; 4])] init).

(** A session about to derive its hands at measure level 3. *)
Definition demo_level3 : game :=
  set_measure_level 3
    (set_initial_cards [("Dealer", 6); ("Player 1", 5); ("Player 2", 7)] init).

(** Final scores with a tie between the players and a busted dealer. *)
Definition demo_scores : Py.dict Z :=
  [("Player 1", 16); ("Player 2", 16); ("Dealer", 18)].




(** Rotation angles of a quarter turn: RY(pi/2) H |0> = |1>, so each of
    Player 1's quantum cards is prepared as the value 8 with
    probability 1. *)
Definition quarter_angles : nat -> R := fun _ => (PI / 2)%R.

(** The hands of the worked session for the memory in which Player 1's
    first card qubit and its partner read 1. *)
Definition demo_linked_memory : N := (2 ^ 9 + 2 ^ 17)%N.

Definition demo_linked_done : game :=
  match _process_quantum_results (memory_string demo_linked_memory)
          demo_final with
  | Done s => s
  | _ => init
  end.

(** A session prepared with quarter-turn angles in which Player 1
    re-shuffles quantum card 1 in round 1 and again in round 2, Player 2
    passing in between. *)
Definition demo_quarter_start : game :=
  match start_game quarter_angles demo_env init with
  | Done s => s
  | _ => init
  end.

Definition demo_double_clicks : list click :=
  [mkClick "Re-Shuffle" "1" demo_env; mkClick "Pass" "1" demo_env;
   mkClick "Re-Shuffle" "1" demo_env].

Definition demo_double_state : game :=
  match play demo_double_clicks demo_quarter_start [] with
  | Done r => fst r
  | _ => init
  end.


(* ------------------------------------------------------------------ *)
(** ** Reasoning about state vectors *)

(** Every basis state with a non-zero amplitude satisfies [P]. *)
Definition supported (P : N -> Prop) (psi : statevec) : Prop :=
  forall x, psi x <> 0%R -> P x.

(** [P] does not look at qubit [q]. *)
Definition ignores (q : N) (P : N -> Prop) : Prop :=
  forall x b, P (upd x q b) <-> P x.

(** The qubit an instruction changes, if any. *)
Definition touches (i : instr) (q : N) : bool :=
  match i with
  | IH q' => (q' =? q)%N
  | IRy _ q' => (q' =? q)%N
  | ICx _ t => (t =? q)%N
  | _ => false
  end.

(** No instruction of [c] changes a qubit of [qs]. *)
Definition untouched (qs : list N) (c : circuit) : bool :=
  forallb (fun i => forallb (fun q => negb (touches i q)) qs) c.

(** What is known of a control/target pair [(a, t)] along a circuit:
    the target is still |0>, or CX has copied the control into it and
    neither has been changed since, or nothing. *)
Inductive link : Type := Fresh | Linked | Broken.

Definition track1 (a t : N) (st : link) (i : instr) : link :=
  match st with
  | Fresh =>
      match i with
      | ICx c t' =>
          if (t' =? t)%N then (if (c =? a)%N then Linked else Broken)
          else Fresh
      | _ => if touches i t then Broken else Fresh
      end
  | Linked => if touches i a || touches i t then Broken else Linked
  | Broken => Broken
  end.

Definition track (a t : N) (c : circuit) (st : link) : link :=
  fold_left (track1 a t) c st.

Definition link_holds (a t : N) (st : link) (psi : statevec) : Prop :=
  match st with
  | Fresh => supported (fun x => N.testbit x t = false) psi
  | Linked => supported (fun x => N.testbit x a = N.testbit x t) psi
  | Broken => True
  end.

(** The circuit consists of gates only, acting inside [qs]. *)
Definition gate_on (qs : list N) (i : instr) : bool :=
  match i with
  | IBarrier => true
  | IH q => existsb (N.eqb q) qs
  | IRy _ q => existsb (N.eqb q) qs
  | ICx c t => existsb (N.eqb t) qs && negb (c =? t)%N
  | IMeasure _ _ => false
  end.

Definition gates_on (qs : list N) (c : circuit) : bool :=
  forallb (gate_on qs) c.

(** The squared norm of a state of the 18 qubits. *)
Definition norm2 (psi : statevec) : R :=
  sum_over all_qubits (fun x => psi x * psi x)%R 0%N.

(** The name of player [player_num] and the number of the quantum card a
    radio-button value selects. *)
Definition player_name (player_num : Z) : string :=
  if player_num =? 1 then "Player 1" else "Player 2".

Definition card_number (card_choice : string) : nat :=
  if String.eqb card_choice "1" then 1%nat else 2%nat.

(** The measurements appended at a measure level. *)
Definition measurements (level : Z) : circuit := measured level [].

(** The gates one Re-Shuffle appends. *)
Definition reshuffle_gates (player_num : Z) (card_choice : string) : circuit :=
  reshuffle player_num card_choice [].

Definition only_measures (c : circuit) : bool :=
  forallb (fun i => match i with IMeasure _ _ => true | _ => false end) c.

(** The state a circuit prepares from |0...0>, the circuit given last
    instruction first. *)
Fixpoint back (m : N) (rc : circuit) : statevec :=
  match rc with
  | [] => ket0
  | i :: rest => apply_instr m i (back m rest)
  end.

(** Hadamard on each qubit of a list, first qubit first. *)
Definition h_each (qs : list N) (psi : statevec) : statevec :=
  fold_left (fun psi q => apply_h q psi) qs psi.

(** The amplitude does not depend on the value of qubit [q]. *)
Definition balanced (q : N) (psi : statevec) : Prop :=
  forall x, psi (upd x q true) = psi (upd x q false).

(** An instruction that neither changes qubit [q] nor is controlled by
    it. *)
Definition avoids (i : instr) (q : N) : bool :=
  match i with
  | ICx c t => negb (c =? q)%N && negb (t =? q)%N
  | IMeasure q' _ => negb (q' =? q)%N
  | _ => negb (touches i q)
  end.

(** The squared amplitude. *)
Definition sq (psi : statevec) : N -> R := fun x => (psi x * psi x)%R.


(** The radio-button value of the other quantum card. *)
Definition other_card (card_choice : string) : string :=
  if String.eqb card_choice "1" then "2" else "1".

(** Bit [i] of [v - 1], the binary code of card value [v]. *)
Definition code_bit (v : Z) (i : Z) : bool := Z.testbit (v - 1) i.

(* ------------------------------------------------------------------ *)
(** ** Vocabulary of the session properties *)

(** The descriptions of the three buttons [display_app] connects to the
    click handler. *)
Definition action_buttons : list string :=
  ["Measure"; "Pass"; "Re-Shuffle"]%list.

(** The turn is shown: the player on turn is the one whose panel holds the
    action box and whom the message names. *)
Definition turn_shown (s : game) : Prop :=
  exists p : Z,
    Py.index (player_turn_order s) (current_player_index s) = Done p /\
    (p = 1 \/ p = 2) /\
    player1_box_has_actions s = (p =? 1) /\
    player2_box_has_actions s = (p =? 2) /\
    message_label s
    = ("<p style='color:black;'>It's Player " ++ Py.str p
       ++ "'s turn.</p>")%string.

(** The turns a running session has left: two per round, two rounds. *)
Definition turns_left (s : game) : nat :=
  (2 * Z.to_nat (2 - current_round s) + (2 - current_player_index s))%nat.

(** What a handler can draw from the outside world: the memory string of a
    shot is that of some classical memory, and the step budget covers the
    twelve cards the dealer can draw at most. *)
Definition well_formed (e : env) : Prop :=
  (exists m : N, memory e = memory_string m) /\ (12 <= fuel e)%nat.

(** The three initial cards are dealt. *)
Definition dealt (s : game) : Prop :=
  exists i1 i2 id : Z,
    Py.get (initial_cards s) "Player 1" = Done i1 /\
    Py.get (initial_cards s) "Player 2" = Done i2 /\
    Py.get (initial_cards s) "Dealer" = Done id /\
    card_values [i1; i2; id]%list.

(** The worked session with both players passing in both rounds. *)
Definition demo_pass_clicks : list click :=
  [mkClick "Pass" "1" demo_env; mkClick "Pass" "1" demo_env2;
   mkClick "Pass" "1" demo_env; mkClick "Pass" "1" demo_env]%list.

Definition demo_passed : game * list (Z * string) :=
  match play demo_pass_clicks demo_start []%list with
  | Done r => r
  | _ => (init, []%list)
  end.

(** The qubits measured at a measure level: the qubits 3..5 of each
    register at level 2, every qubit otherwise. *)
Definition measured_qubits (level : Z) : list N :=
  if level =? 2 then
    (Py.lslice 3 6 dealer_q ++ Py.lslice 3 6 player1_q
     ++ Py.lslice 3 6 player2_q)%list
  else (dealer_q ++ player1_q ++ player2_q)%list.

(** A string of binary digits. *)
Definition binary (s : string) : bool :=
  forallb (fun c => Ascii.eqb c "0" || Ascii.eqb c "1")
    (list_ascii_of_string s).

(** The participants, as [_generate_final_summary] lists them. *)
Definition participants : list string :=
  ["Player 1"; "Player 2"; "Dealer"]%list.

(** The character [c] does not occur in [s]. *)
Definition free_of (c : ascii) (s : string) : bool :=
  forallb (fun a => negb (Ascii.eqb a c)) (list_ascii_of_string s).

(** One participant that has not busted is strictly ahead of every other
    participant that has not busted. *)
Definition sole_leader (scores : Py.dict Z) : Prop :=
  exists (p : string) (sc : Z),
    In (p, sc) scores /\ sc <= TARGET_SCORE /\
    forall (p' : string) (sc' : Z),
      In (p', sc') scores -> sc' <= TARGET_SCORE -> p' <> p -> sc' < sc.

(** The summary of the worked session, built once more from its final
    state (hands 5 + 1 + 1 for both players, 5 + 5 + 5 for the dealer). *)
Definition demo_summary : game :=
  match _generate_final_summary demo_final with
  | Done s => s
  | _ => init
  end.

(** The score dictionary of a new object, or of one that has finished a
    game: empty, or the three participants in the order in which
    [_process_quantum_results] scores them. *)
Definition scores_known (s : game) : Prop :=
  player_scores s = []%list \/
  exists a b c : Z,
    player_scores s
    = [("Player 1", a); ("Player 2", b); ("Dealer", c)]%list.

(* ------------------------------------------------------------------ *)
(** ** Vocabulary of the card distributions *)

(** The expectation of [W] when every qubit of the state [psi] is
    measured. *)
Definition expect (W : N -> R) (psi : statevec) : R :=
  sum_over all_qubits (fun x => (W x * sq psi x)%R) 0%N.

(** [W] does not depend on qubit [q]. *)
Definition blind (q : N) (W : N -> R) : Prop :=
  forall (x : N) (b : bool), W (upd x q b) = W x.

(** 1 on the outcomes that give [player]'s quantum card [k] the value [v],
    0 on the others. *)
Definition slot_is (player : string) (k : nat) (v : Z) (x : N) : R :=
  match slot_card player k x with
  | Done v' => if (v' =? v)%Z then 1%R else 0%R
  | _ => 0%R
  end.

(** Some instruction of [c] changes qubit [q]. *)
Definition touched (c : circuit) (q : N) : bool :=
  existsb (fun i => touches i q) c.

(** The qubits behind a participant's quantum card [k]: the qubits 3..5 of
    the participant's register for card 1, the qubits 0..2 for card 2. *)
Definition slot_qubits (player : string) (k : nat) : list N :=
  let reg := if String.eqb player "Player 1" then player1_q
             else if String.eqb player "Player 2" then player2_q
             else dealer_q in
  if (k =? 1)%nat then Py.lslice 3 6 reg else Py.lslice 0 3 reg.

(** The probability that a qubit prepared as RY(theta) H |0> reads [b]. *)
Definition bit_prob (theta : R) (b : bool) : R :=
  if b then ((1 + sin theta) / 2)%R else ((1 - sin theta) / 2)%R.

(** [Statevector.from_instruction(c).probabilities()] for a circuit [c] of
    [n] qubits: the probabilities of the basis states 0 .. 2^n - 1, qubit 0
    being the lowest bit of the index. *)
Definition probabilities (n : nat) (c : circuit) : list R :=
  map (fun i => sq (run 0%N c ket0) (N.of_nat i)) (seq 0 (2 ^ n)).

(** The temporary circuit of [_prepare_player_card_with_rotations]: H on
    its three qubits, then on qubit [i] the rotation by the [i]-th angle
    drawn for the card; and the probabilities the method returns. *)
Definition temp_qc (angles : nat -> R) (k : nat) : circuit :=
  ry_each [0; 1; 2]%N angles k (qc_h [0; 1; 2]%N []%list).

Definition card_probabilities (angles : nat -> R) (k : nat) : list R :=
  probabilities 3 (temp_qc angles k).

(** The probability [_prepare_quantum_circuit] lists as "Value v" under
    "Quantum Card 1" or "Quantum Card 2": the entries of [probs_card1] and
    [probs_card2] are shown in order, entry [i] as value [i + 1]. *)
Definition displayed_prob (angles : nat -> R) (card : nat) (v : Z) : R :=
  nth (Z.to_nat (v - 1))
    (card_probabilities angles (if (card =? 1)%nat then 0%nat else 3%nat))
    0%R.

(** The coin of [_determine_turn_order]: a circuit of one qubit and one
    classical bit, H and a measurement. *)
Definition coin_qc : circuit :=
  qc_measure [0]%N [0]%N (qc_h [0]%N []%list).

(** The probability that a shot of [c] ends with the classical memory [m],
    for a memory [m] whose bits outside those the circuit writes are 0. *)
Definition shot_prob (c : circuit) (m : N) : R := norm2 (run m c ket0).

(** The Re-Shuffles that a sequence of clicks makes, oldest first, each with
    the player who clicked (the player on turn) and the card chosen. *)
Fixpoint reshuffle_history (clicks : list click) (s : game)
    : list (Z * string) :=
  match clicks with
  | []%list => []%list
  | (c :: clicks')%list =>
      if game_over s then []%list
      else
        match _on_action_button_clicked (button c) (choice c) (world c) s
        with
        | Done s' =>
            ((if String.eqb (button c) "Re-Shuffle" then
                match Py.index (player_turn_order s) (current_player_index s)
                with
                | Done player_num => [(player_num, choice c)]%list
                | _ => []%list
                end
              else []%list)
             ++ reshuffle_history clicks' s')%list
        | _ => []%list
        end
  end.

(** The number of Re-Shuffles of a history that [player] made on the
    player's own quantum card [k]. *)
Definition own_reshuffles (history : list (Z * string)) (player : string)
    (k : nat) : nat :=
  List.length
    (filter (fun pc => String.eqb (player_name (fst pc)) player
                       && (card_number (snd pc) =? k)%nat) history).

(** [n] rounds of Hadamards on the qubits [qs], up to the parity of [n]:
    two rounds cancel. *)
Definition h_power (n : nat) (qs : list N) (psi : statevec) : statevec :=
  if Nat.even n then psi else h_each qs psi.

(** A session prepared with the angles 0 in which Player 1 re-shuffles
    quantum card 1 in round 1 and again in round 2, Player 2 passing, so
    that the game ends at level 3 after the fourth click. *)
Definition demo_even_clicks : list click :=
  [mkClick "Re-Shuffle" "1" demo_env; mkClick "Pass" "1" demo_env;
   mkClick "Re-Shuffle" "1" demo_env; mkClick "Pass" "1" demo_env]%list.

Definition demo_even_play : game * list (Z * string) :=
  match play demo_even_clicks demo_start []%list with
  | Done r => r
  | _ => (init, []%list)
  end.

(* ------------------------------------------------------------------ *)
(** ** Vocabulary of the draws and of the turns *)

(** The number of the raw random words 0, 1, ..., [n] - 1 from which
    [_generate_random_card] makes the card [v]. *)
Definition draws_giving (v : Z) (n : nat) : nat :=
  List.length
    (filter (fun raw => _generate_random_card raw =? v)
       (map Z.of_nat (seq 0 n))).

(** The clicks made before the first click on Measure. *)
Fixpoint before_measure (clicks : list click) : list click :=
  match clicks with
  | []%list => []%list
  | (c :: clicks')%list =>
      if String.eqb (button c) "Measure" then []%list
      else (c :: before_measure clicks')%list
  end.

(** The round in which turn number [i] of a session is played, the turns
    counted from 0: two turns a round. *)
Definition round_of_turn (i : nat) : Z := 1 + Z.of_nat (i / 2).

(** Two more worked sessions with rotation angles 0, initial cards 5 for
    the dealer and 8 for both players, and four passes.  In the first the
    shot gives Player 1 the quantum cards 2 and 5, Player 2 the cards 5
    and 2 and the dealer 1 and 8: the players tie with 15 against the
    dealer's 14.  In the second every qubit reads 1: every quantum card is
    an 8 and everybody busts. *)
Definition demo_high_draws (k : nat) : Z :=
  match k with O => 4 | _ => 7 end.

Definition demo_tie_env : env :=
  mkEnv "0" "001100 100001 000111" demo_high_draws 14.

Definition demo_bust_env : env :=
  mkEnv "0" "111111 111111 111111" demo_high_draws 14.

Definition demo_four_passes (e : env) : game :=
  match start_game demo_angles e init with
  | Done s0 =>
      match play [mkClick "Pass" "1" e; mkClick "Pass" "1" e;
                  mkClick "Pass" "1" e; mkClick "Pass" "1" e]%list
              s0 []%list with
      | Done r => fst r
      | _ => init
      end
  | _ => init
  end.

Definition demo_tie : game := demo_four_passes demo_tie_env.
Definition demo_bust : game := demo_four_passes demo_bust_env.

(* ================================================================== *)
(** * Proofs *)

Local Open Scope list_scope.

(* ------------------------------------------------------------------ *)
(** ** Results and dictionaries *)

Lemma get_set_same {A : Type} (d : Py.dict A) (k : string) (v : A) :
  Py.get (Py.set d k v) k = Done v.
Proof.
  induction d as [|[k' v'] d IH]; simpl.
  - rewrite String.eqb_refl. reflexivity.
  - destruct (String.eqb k' k) eqn:E; simpl; rewrite E; auto.
Qed.

Lemma get_set_other {A : Type} (d : Py.dict A) (k k' : string) (v : A) :
  k <> k' -> Py.get (Py.set d k v) k' = Py.get d k'.
Proof.
  intros Hne. induction d as [|[k0 v0] d IH]; simpl.
  - destruct (String.eqb k k') eqn:E; [|reflexivity].
    apply String.eqb_eq in E. contradiction.
  - destruct (String.eqb k0 k) eqn:E; simpl.
    + apply String.eqb_eq in E. subst k0.
      destruct (String.eqb k k') eqn:E'; [|reflexivity].
      apply String.eqb_eq in E'. contradiction.
    + destruct (String.eqb k0 k'); [reflexivity | exact IH].
Qed.

Lemma sum_acc (l : list Z) (a : Z) : fold_left Z.add l a = a + Py.sum l.
Proof.
  unfold Py.sum. revert a. induction l as [|x l IH]; intros a; simpl.
  - lia.
  - rewrite IH, (IH x). lia.
Qed.

Lemma sum_app (l l' : list Z) : Py.sum (l ++ l') = Py.sum l + Py.sum l'.
Proof.
  unfold Py.sum at 1. rewrite fold_left_app. rewrite sum_acc.
  fold (Py.sum l). reflexivity.
Qed.

Lemma sum_cons (x : Z) (l : list Z) : Py.sum (x :: l) = x + Py.sum l.
Proof. unfold Py.sum at 1. simpl. apply sum_acc. Qed.

(* ------------------------------------------------------------------ *)
(** ** Bit strings *)

Lemma bit_char_not_blank (b : bool) : Ascii.eqb (bit_char b) " " = false.
Proof. destruct b; reflexivity. Qed.

Lemma split_bits (l : list bool) : Py.split " " (bits l) = [bits l].
Proof.
  induction l as [|b l IH]; [reflexivity|].
  unfold bits in *. simpl. rewrite bit_char_not_blank, IH. reflexivity.
Qed.

Lemma split_bits_blank (l : list bool) (rest : string) :
  Py.split " " (bits l ++ String " " rest)%string = bits l :: Py.split " " rest.
Proof.
  induction l as [|b l IH]; [reflexivity|].
  unfold bits in *. simpl. rewrite bit_char_not_blank, IH. reflexivity.
Qed.

Lemma split_memory (p2 p1 d : list bool) :
  Py.split " " (bits p2 ++ " " ++ bits p1 ++ " " ++ bits d)%string
  = [bits p2; bits p1; bits d].
Proof.
  change (" " ++ bits p1 ++ " " ++ bits d)%string
    with (String " " (bits p1 ++ String " " (bits d))%string).
  rewrite !split_bits_blank, split_bits. reflexivity.
Qed.

Lemma substring_0_0 (s : string) : substring 0 0 s = "".
Proof. destruct s; reflexivity. Qed.

Lemma slice_first (c0 c1 c2 : ascii) (s : string) :
  Py.slice 0 3 (String c0 (String c1 (String c2 s)))
  = String c0 (String c1 (String c2 "")).
Proof. unfold Py.slice. simpl. rewrite substring_0_0. reflexivity. Qed.

Lemma slice_second (a0 a1 a2 c0 c1 c2 : ascii) (s : string) :
  Py.slice 3 6 (String a0 (String a1 (String a2
                  (String c0 (String c1 (String c2 s))))))
  = String c0 (String c1 (String c2 "")).
Proof. unfold Py.slice. simpl. rewrite substring_0_0. reflexivity. Qed.

Lemma card_of_group (b0 b1 b2 : bool) :
  _get_card_value_from_binary (Py.reversed (bits [b0; b1; b2]))
  = Done (card3 b0 b1 b2).
Proof. destruct b0, b1, b2; reflexivity. Qed.

Lemma card_first (b0 b1 b2 : bool) (l : list bool) :
  _get_card_value_from_binary
    (Py.reversed (Py.slice 0 3 (bits (b0 :: b1 :: b2 :: l))))
  = Done (card3 b0 b1 b2).
Proof.
  unfold bits. simpl map. simpl string_of_list_ascii.
  rewrite slice_first. apply card_of_group.
Qed.

Lemma card_second (a0 a1 a2 b0 b1 b2 : bool) (l : list bool) :
  _get_card_value_from_binary
    (Py.reversed (Py.slice 3 6 (bits (a0 :: a1 :: a2 :: b0 :: b1 :: b2 :: l))))
  = Done (card3 b0 b1 b2).
Proof.
  unfold bits. simpl map. simpl string_of_list_ascii.
  rewrite slice_second. apply card_of_group.
Qed.

Lemma card3_range (b0 b1 b2 : bool) : 1 <= card3 b0 b1 b2 <= 8.
Proof. destruct b0, b1, b2; unfold card3; simpl; lia. Qed.


(* ------------------------------------------------------------------ *)
(** ** Deriving the hands from the memory string *)

(** The hands [_process_quantum_results] builds from three six-bit
    registers, in closed form. *)
Lemma process_hands (s : game) (i1 i2 id : Z)
    (a0 a1 a2 a3 a4 a5 b0 b1 b2 b3 b4 b5 c0 c1 c2 c3 c4 c5 : bool) :
  Py.get (initial_cards s) "Player 1" = Done i1 ->
  Py.get (initial_cards s) "Player 2" = Done i2 ->
  Py.get (initial_cards s) "Dealer" = Done id ->
  let hands :=
    [("Player 1",
      i1 :: card3 b0 b1 b2
         :: (if measure_level s =? 3 then [card3 b3 b4 b5] else []));
     ("Player 2",
      i2 :: card3 a0 a1 a2
         :: (if measure_level s =? 3 then [card3 a3 a4 a5] else []));
     ("Dealer",
      id :: card3 c0 c1 c2
         :: (if (measure_level s =? 3)
                && (id + card3 c0 c1 c2 <? DEALER_STANDS_THRESHOLD)
             then [card3 c3 c4 c5] else []))] in
  _process_quantum_results
    (bits [a0; a1; a2; a3; a4; a5] ++ " " ++ bits [b0; b1; b2; b3; b4; b5]
     ++ " " ++ bits [c0; c1; c2; c3; c4; c5])%string s
  = Done (set_player_scores (rescore hands (player_scores s))
            (set_player_hands hands s)).
Proof.
  intros H1 H2 Hd hands. subst hands.
  unfold _process_quantum_results.
  rewrite split_memory, H1, H2, Hd. cbn [bind].
  rewrite !card_first. cbn [bind].
  unfold hand_append at 1 2 3. cbn [Py.get Py.set String.eqb Ascii.eqb Bool.eqb bind app].
  destruct (measure_level s =? 3) eqn:L; cbn [bind andb].
  - rewrite !card_second. cbn [bind].
    unfold hand_append at 1 2.
    cbn [Py.get Py.set String.eqb Ascii.eqb Bool.eqb bind app].
    rewrite !sum_cons. replace (Py.sum []) with 0 by reflexivity.
    rewrite Z.add_0_r.
    destruct (id + card3 c0 c1 c2 <? DEALER_STANDS_THRESHOLD); cbn [bind].
    + unfold hand_append.
      cbn [Py.get Py.set String.eqb Ascii.eqb Bool.eqb bind app].
      reflexivity.
    + reflexivity.
  - reflexivity.
Qed.


(* ------------------------------------------------------------------ *)
(** ** The dealer's loop *)

Lemma random_card_range (raw : Z) :
  MIN_CARD_VALUE <= _generate_random_card raw <= MAX_CARD_VALUE.
Proof.
  unfold _generate_random_card, Py.randint, MIN_CARD_VALUE, MAX_CARD_VALUE.
  pose proof (Z.mod_pos_bound raw (8 + 1 - 1)). lia.
Qed.

Lemma cards_succ (draws : nat -> Z) (k n : nat) :
  cards draws k (S n) = _generate_random_card (draws k) :: cards draws (S k) n.
Proof. reflexivity. Qed.

Lemma cards_range (draws : nat -> Z) (k n : nat) (c : Z) :
  In c (cards draws k n) -> MIN_CARD_VALUE <= c <= MAX_CARD_VALUE.
Proof.
  unfold cards. intros H. apply in_map_iff in H.
  destruct H as [i [<- _]]. apply random_card_range.
Qed.

Lemma dealer_loop_unfold (fuel : nat) (draws : nat -> Z) (k : nat)
    (total : Z) (s : game) (h : list Z) :
  total < DEALER_STANDS_THRESHOLD ->
  Py.get (player_hands s) "Dealer" = Done h ->
  let c := _generate_random_card (draws k) in
  exists s1,
    dealer_loop (S fuel) draws k total s
      = dealer_loop fuel draws (S k) (total + c) s1 /\
    Py.get (player_hands s1) "Dealer" = Done (h ++ [c]) /\
    Py.get (player_scores s1) "Dealer" = Done (total + c) /\
    control_of s1 = control_of s /\ game_over s1 = game_over s /\
    qc s1 = qc s /\
    player1_box_has_actions s1 = player1_box_has_actions s /\
    player2_box_has_actions s1 = player2_box_has_actions s /\
    (forall p, p <> "Dealer" ->
       Py.get (player_hands s1) p = Py.get (player_hands s) p /\
       Py.get (player_scores s1) p = Py.get (player_scores s) p).
Proof.
  intros Hlt Hh c. cbn [dealer_loop].
  apply Z.ltb_lt in Hlt. rewrite Hlt. fold c.
  unfold hand_append. cbn [player_hands _set_message set_message_label].
  rewrite Hh. cbn [bind].
  eexists. split; [reflexivity|]. cbn.
  split; [apply get_set_same|]. split; [apply get_set_same|].
  repeat split; apply get_set_other; congruence.
Qed.

(** What a completed run of the loop has done: it drew the next [n] cards
    and stopped at the first total that is not below the threshold. *)
Lemma dealer_loop_spec (fuel : nat) :
  forall (draws : nat -> Z) (k : nat) (total : Z) (s s' : game) (h : list Z),
    Py.get (player_hands s) "Dealer" = Done h ->
    Py.get (player_scores s) "Dealer" = Done total ->
    dealer_loop fuel draws k total s = Done s' ->
    exists n : nat,
      (n <= Z.to_nat (DEALER_STANDS_THRESHOLD - total))%nat /\
      Py.get (player_hands s') "Dealer" = Done (h ++ cards draws k n) /\
      Py.get (player_scores s') "Dealer"
        = Done (total + Py.sum (cards draws k n)) /\
      DEALER_STANDS_THRESHOLD <= total + Py.sum (cards draws k n) /\
      total + Py.sum (cards draws k n) <= Z.max total 21 /\
      (forall j, (j < n)%nat ->
         total + Py.sum (cards draws k j) < DEALER_STANDS_THRESHOLD) /\
      (DEALER_STANDS_THRESHOLD <= total -> n = 0%nat /\ s' = s) /\
      control_of s' = control_of s /\ game_over s' = game_over s /\
      qc s' = qc s /\
      player1_box_has_actions s' = player1_box_has_actions s /\
      player2_box_has_actions s' = player2_box_has_actions s /\
      (forall p, p <> "Dealer" ->
         Py.get (player_hands s') p = Py.get (player_hands s) p /\
         Py.get (player_scores s') p = Py.get (player_scores s) p).
Proof.
  assert (Hstop : forall fuel draws k total s s' h,
    Py.get (player_hands s) "Dealer" = Done h ->
    Py.get (player_scores s) "Dealer" = Done total ->
    DEALER_STANDS_THRESHOLD <= total ->
    dealer_loop fuel draws k total s = Done s' ->
    s' = s /\ Py.get (player_hands s') "Dealer" = Done (h ++ cards draws k 0) /\
    Py.get (player_scores s') "Dealer"
      = Done (total + Py.sum (cards draws k 0))).
  { intros f draws k total s s' h Hh Hs Hge Hrun.
    assert (E : (total <? DEALER_STANDS_THRESHOLD) = false)
      by (apply Z.ltb_ge; exact Hge).
    destruct f; cbn [dealer_loop] in Hrun; rewrite E in Hrun;
      injection Hrun as <-; unfold cards; simpl; rewrite app_nil_r;
      replace (Py.sum []) with 0 by reflexivity; rewrite Z.add_0_r; auto. }
  induction fuel as [|fuel IH]; intros draws k total s s' h Hh Hs Hrun.
  - destruct (Z.lt_ge_cases total DEALER_STANDS_THRESHOLD) as [Hlt|Hge].
    + cbn [dealer_loop] in Hrun. apply Z.ltb_lt in Hlt. rewrite Hlt in Hrun.
      discriminate.
    + destruct (Hstop _ _ _ _ _ _ _ Hh Hs Hge Hrun) as (-> & H1 & H2).
      exists 0%nat. replace (Py.sum (cards draws k 0)) with 0 in * by reflexivity.
      repeat split; auto; lia.
  - destruct (Z.lt_ge_cases total DEALER_STANDS_THRESHOLD) as [Hlt|Hge].
    + pose proof (random_card_range (draws k)) as Hc.
      destruct (dealer_loop_unfold fuel draws k total s h Hlt Hh)
        as (s1 & Heq & Hh1 & Hs1 & Hctl1 & Hgo1 & Hqc1 & Hp1 & Hp2 & Hoth1).
      rewrite Heq in Hrun. set (c := _generate_random_card (draws k)) in *.
      destruct (IH draws (S k) (total + c) s1 s' (h ++ [c]) Hh1 Hs1 Hrun)
        as (n & Hn & Hhand & Hscore & Hge & Hle & Hlt' & _ & Hctl
            & Hgo & Hqc & Hb1 & Hb2 & Hoth).
      exists (S n). rewrite cards_succ. fold c.
      rewrite sum_cons, <- app_assoc in *. simpl app in Hhand.
      rewrite Z.add_assoc.
      split; [unfold DEALER_STANDS_THRESHOLD, MIN_CARD_VALUE in *; lia|].
      split; [exact Hhand|]. split; [exact Hscore|].
      split; [exact Hge|].
      split; [unfold DEALER_STANDS_THRESHOLD, MAX_CARD_VALUE in *; lia|].
      split.
      { intros [|j] Hj.
        - unfold cards; simpl. replace (Py.sum []) with 0 by reflexivity. lia.
        - rewrite cards_succ. fold c. rewrite sum_cons, Z.add_assoc.
          apply Hlt'. lia. }
      split; [lia|].
      split; [rewrite Hctl; exact Hctl1|].
      split; [rewrite Hgo; exact Hgo1|].
      split; [rewrite Hqc; exact Hqc1|].
      split; [rewrite Hb1; exact Hp1|].
      split; [rewrite Hb2; exact Hp2|].
      intros p Hp. destruct (Hoth p Hp) as [Ho1 Ho2].
      destruct (Hoth1 p Hp) as [Ho3 Ho4].
      rewrite Ho1, Ho2. split; assumption.
    + destruct (Hstop _ _ _ _ _ _ _ Hh Hs Hge Hrun) as (-> & H1 & H2).
      exists 0%nat. replace (Py.sum (cards draws k 0)) with 0 in * by reflexivity.
      repeat split; auto; lia.
Qed.

(** The loop finishes within [DEALER_STANDS_THRESHOLD - total] draws,
    whatever the cards are. *)
Lemma dealer_loop_terminates (fuel : nat) :
  forall (draws : nat -> Z) (k : nat) (total : Z) (s : game) (h : list Z),
    Py.get (player_hands s) "Dealer" = Done h ->
    (Z.to_nat (DEALER_STANDS_THRESHOLD - total) <= fuel)%nat ->
    exists s', dealer_loop fuel draws k total s = Done s'.
Proof.
  induction fuel as [|fuel IH]; intros draws k total s h Hh Hf.
  - exists s. cbn [dealer_loop].
    destruct (total <? DEALER_STANDS_THRESHOLD) eqn:E; [|reflexivity].
    apply Z.ltb_lt in E. lia.
  - destruct (Z.lt_ge_cases total DEALER_STANDS_THRESHOLD) as [Hlt|Hge].
    + pose proof (random_card_range (draws k)) as Hc.
      destruct (dealer_loop_unfold fuel draws k total s h Hlt Hh)
        as (s1 & Heq & Hh1 & _).
      rewrite Heq. apply (IH _ _ _ _ _ Hh1).
      unfold DEALER_STANDS_THRESHOLD, MIN_CARD_VALUE in *. lia.
    + exists s. cbn [dealer_loop]. apply Z.ltb_ge in Hge. rewrite Hge.
      reflexivity.
Qed.

Lemma get_returns {A : Type} (d : Py.dict A) (k : string) :
  Py.get d k <> OutOfFuel.
Proof.
  induction d as [|[k' v] d IH]; simpl; [discriminate|].
  destruct (String.eqb k' k); [discriminate | exact IH].
Qed.

(** Without a hand for the dealer the first draw raises; the loop still
    returns. *)
Lemma dealer_loop_never_hangs (draws : nat -> Z) (k : nat) (total : Z)
    (s : game) (fuel : nat) :
  (Z.to_nat (DEALER_STANDS_THRESHOLD - total) <= fuel)%nat ->
  dealer_loop fuel draws k total s <> OutOfFuel.
Proof.
  intros Hf.
  destruct (Py.get (player_hands s) "Dealer") as [h|e|] eqn:Hh.
  - destruct (dealer_loop_terminates fuel draws k total s h Hh Hf) as [s' ->].
    discriminate.
  - destruct fuel; cbn [dealer_loop];
      destruct (total <? DEALER_STANDS_THRESHOLD) eqn:E; try discriminate.
    + apply Z.ltb_lt in E. lia.
    + unfold hand_append. cbn [player_hands _set_message set_message_label].
      rewrite Hh. cbn [bind]. discriminate.
  - exfalso. exact (get_returns _ _ Hh).
Qed.


(* ------------------------------------------------------------------ *)
(** ** Any derived card is between 1 and 8 *)

Lemma int2_acc_bound (s : string) :
  forall acc n, 0 <= acc -> Py.int2_acc acc s = Done n ->
    acc * 2 ^ Z.of_nat (String.length s) <= n
    < (acc + 1) * 2 ^ Z.of_nat (String.length s).
Proof.
  induction s as [|c s IH]; intros acc n Hacc H.
  - simpl in *. injection H as <-. lia.
  - cbn [Py.int2_acc] in H. cbn [String.length].
    rewrite Nat2Z.inj_succ, Z.pow_succ_r by lia.
    destruct (Ascii.eqb c "0").
    + apply IH in H; lia.
    + destruct (Ascii.eqb c "1"); [|discriminate].
      apply IH in H; lia.
Qed.

Lemma length_of_list_ascii (l : list ascii) :
  String.length (string_of_list_ascii l) = List.length l.
Proof. induction l; simpl; congruence. Qed.

Lemma length_list_of_string (s : string) :
  List.length (list_ascii_of_string s) = String.length s.
Proof. induction s; simpl; congruence. Qed.

Lemma length_reversed (s : string) :
  String.length (Py.reversed s) = String.length s.
Proof.
  unfold Py.reversed.
  rewrite length_of_list_ascii, length_rev. apply length_list_of_string.
Qed.

Lemma length_substring (s : string) :
  forall n m, (String.length (substring n m s) <= m)%nat.
Proof.
  induction s as [|c s IH]; intros [|n] [|m]; simpl; try lia.
  - specialize (IH 0%nat m). lia.
  - apply (IH n 0%nat).
  - apply (IH n (S m)).
Qed.

Lemma card_of_slice_range (a : nat) (str : string) (v : Z) :
  _get_card_value_from_binary (Py.reversed (Py.slice a (a + 3) str)) = Done v ->
  1 <= v <= 8.
Proof.
  unfold _get_card_value_from_binary, Py.int2. intros H.
  set (g := Py.reversed (Py.slice a (a + 3) str)) in *.
  assert (Hlen : (String.length g <= 3)%nat).
  { subst g. rewrite length_reversed. unfold Py.slice.
    replace (a + 3 - a)%nat with 3%nat by lia. apply length_substring. }
  destruct g as [|c g']; [discriminate|].
  destruct (Py.int2_acc 0 (String c g')) as [n| |] eqn:E; try discriminate.
  simpl in H. injection H as <-.
  apply int2_acc_bound in E; [|lia].
  assert (2 ^ Z.of_nat (String.length (String c g')) <= 2 ^ 3)
    by (apply Z.pow_le_mono_r; lia).
  lia.
Qed.


(* ------------------------------------------------------------------ *)
(** ** Shape of the state after [_process_quantum_results] *)

Lemma process_shape (str : string) (s s' : game) :
  _process_quantum_results str s = Done s' ->
  exists (i1 i2 id q1 q2 qd : Z) (t1 t2 td : list Z),
    Py.get (initial_cards s) "Player 1" = Done i1 /\
    Py.get (initial_cards s) "Player 2" = Done i2 /\
    Py.get (initial_cards s) "Dealer" = Done id /\
    (let hands := [("Player 1", i1 :: q1 :: t1); ("Player 2", i2 :: q2 :: t2);
                   ("Dealer", id :: qd :: td)] in
     s' = set_player_scores (rescore hands (player_scores s))
            (set_player_hands hands s)) /\
    1 <= qd <= 8 /\
    (td = [] \/
     exists d2, td = [d2] /\ 1 <= d2 <= 8 /\
                id + qd < DEALER_STANDS_THRESHOLD /\ measure_level s = 3) /\
    (measure_level s <> 3 -> t1 = [] /\ t2 = [] /\ td = []) /\
    (measure_level s = 3 -> (exists c1, t1 = [c1]) /\ (exists c2, t2 = [c2])).
Proof.
  unfold _process_quantum_results. intros H.
  destruct (Py.split " " str) as [|p2 [|p1 [|d [|]]]]; try discriminate.
  destruct (Py.get (initial_cards s) "Player 1") as [i1| |]; try discriminate.
  destruct (Py.get (initial_cards s) "Player 2") as [i2| |]; try discriminate.
  destruct (Py.get (initial_cards s) "Dealer") as [id| |]; try discriminate.
  cbn [bind] in H.
  destruct (_get_card_value_from_binary (Py.reversed (Py.slice 0 3 p1)))
    as [q1| |] eqn:E1; try discriminate.
  destruct (_get_card_value_from_binary (Py.reversed (Py.slice 0 3 p2)))
    as [q2| |] eqn:E2; try discriminate.
  destruct (_get_card_value_from_binary (Py.reversed (Py.slice 0 3 d)))
    as [qd| |] eqn:Ed; try discriminate.
  apply (card_of_slice_range 0) in Ed.
  unfold hand_append in H at 1 2 3.
  cbn [Py.get Py.set String.eqb Ascii.eqb Bool.eqb bind app] in H.
  exists i1, i2, id, q1, q2, qd.
  destruct (measure_level s =? 3) eqn:L.
  - apply Z.eqb_eq in L.
    destruct (_get_card_value_from_binary (Py.reversed (Py.slice 3 6 p1)))
      as [c1| |] eqn:F1; try discriminate.
    destruct (_get_card_value_from_binary (Py.reversed (Py.slice 3 6 p2)))
      as [c2| |] eqn:F2; try discriminate.
    unfold hand_append in H at 1 2.
    cbn [Py.get Py.set String.eqb Ascii.eqb Bool.eqb bind app] in H.
    rewrite !sum_cons in H. replace (Py.sum []) with 0 in H by reflexivity.
    rewrite Z.add_0_r in H.
    destruct (id + qd <? DEALER_STANDS_THRESHOLD) eqn:T.
    + apply Z.ltb_lt in T.
      destruct (_get_card_value_from_binary (Py.reversed (Py.slice 3 6 d)))
        as [d2| |] eqn:Fd; try discriminate.
      apply (card_of_slice_range 3) in Fd.
      unfold hand_append in H.
      cbn [Py.get Py.set String.eqb Ascii.eqb Bool.eqb bind app] in H.
      injection H as <-.
      exists [c1], [c2], [d2].
      repeat split; eauto; try lia; try (intros; contradiction).
      right. exists d2. repeat split; auto; lia.
    + cbn [bind] in H. injection H as <-.
      exists [c1], [c2], [].
      repeat split; eauto; try lia; try (intros; contradiction).
  - apply Z.eqb_neq in L. cbn [bind] in H. injection H as <-.
    exists [], [], [].
    repeat split; auto; try lia; intros; contradiction.
Qed.

Lemma control_of_eq (s s' : game) :
  control_of s' = control_of s ->
  initial_cards s' = initial_cards s /\
  player_turn_order s' = player_turn_order s /\
  current_player_index s' = current_player_index s /\
  current_round s' = current_round s /\
  measure_level s' = measure_level s.
Proof. unfold control_of. intros H. injection H as -> -> -> -> ->. auto. Qed.

Lemma update_turn_highlight_over (s : game) :
  game_over s = true ->
  _update_turn_highlight s = Done (set_action_boxes false false s).
Proof.
  intros H. unfold _update_turn_highlight.
  cbn [game_over set_action_boxes]. rewrite H. reflexivity.
Qed.

Lemma add_measurements_frame (s : game) :
  let s' := _add_measurements_to_circuit s in
  control_of s' = control_of s /\ game_over s' = game_over s /\
  player_hands s' = player_hands s /\ player_scores s' = player_scores s /\
  player1_box_has_actions s' = player1_box_has_actions s /\
  player2_box_has_actions s' = player2_box_has_actions s.
Proof.
  unfold _add_measurements_to_circuit.
  cbn [measure_level _set_round_message set_round_label].
  destruct (measure_level s =? 2); repeat split.
Qed.

(** A summary that completes has found the hand and the score of each of
    the three participants; what it leaves is the state with the outcome
    in the round label and the winner message in the message label. *)
Lemma final_summary_done (s s' : game) :
  _generate_final_summary s = Done s' ->
  exists winner_message hand_html : string,
    winner_message_of (player_scores s) = Done winner_message /\
    revealed_hands ["Player 1"; "Player 2"; "Dealer"]
      (player_hands s) (player_scores s)
      "<h4 style='color:black; margin-top:15px;'>--- Revealed Hands ---</h4>"
    = Done hand_html /\
    s' = _set_message winner_message
           (if Py.contains "CONGRATULATIONS" winner_message
            then "green" else "red")
           (_set_round_message "--- GAME OUTCOME ---" "darkblue" s).
Proof.
  unfold _generate_final_summary.
  cbn [player_scores player_hands _set_round_message set_round_label
       _set_message set_message_label].
  destruct (winner_message_of (player_scores s)) as [msg| |];
    try discriminate.
  cbn [bind].
  destruct (revealed_hands _ (player_hands s) (player_scores s) _)
    as [html| |] eqn:E; try discriminate.
  cbn [bind]. intros H; injection H as <-.
  exists msg, html. repeat split.
Qed.

Lemma final_summary_frame (s s' : game) :
  _generate_final_summary s = Done s' ->
  control_of s' = control_of s /\ game_over s' = game_over s /\
  qc s' = qc s /\ player_hands s' = player_hands s /\
  player_scores s' = player_scores s /\
  player1_box_has_actions s' = player1_box_has_actions s /\
  player2_box_has_actions s' = player2_box_has_actions s.
Proof.
  intros H. destruct (final_summary_done _ _ H) as (msg & html & _ & _ & ->).
  repeat split.
Qed.


(* ------------------------------------------------------------------ *)
(** ** The end-of-game sequence *)

Lemma rescore_dealer (hp1 hp2 hd : list Z) (scores : Py.dict Z) :
  Py.get (rescore [("Player 1", hp1); ("Player 2", hp2); ("Dealer", hd)] scores)
    "Dealer" = Done (Py.sum hd).
Proof. unfold rescore. cbn [fold_left fst snd]. apply get_set_same. Qed.

Lemma add_measurements_qc (s : game) :
  qc (_add_measurements_to_circuit s) = measured (measure_level s) (qc s).
Proof.
  unfold measured, _add_measurements_to_circuit.
  cbn [measure_level _set_round_message set_round_label set_qc
       set_measure_level].
  destruct (measure_level s =? 2); reflexivity.
Qed.

Lemma firstn_cards (draws : nat -> Z) (j : nat) :
  forall k n, (j <= n)%nat -> firstn j (cards draws k n) = cards draws k j.
Proof.
  induction j as [|j IH]; intros k n H; [reflexivity|].
  destruct n as [|n]; [lia|].
  rewrite !cards_succ. simpl. rewrite IH by lia. reflexivity.
Qed.

Lemma length_cards (draws : nat -> Z) (k n : nat) :
  List.length (cards draws k n) = n.
Proof. unfold cards. rewrite length_map, length_seq. reflexivity. Qed.

Lemma cards_card_values (draws : nat -> Z) (k n : nat) :
  card_values (cards draws k n).
Proof. apply Forall_forall. intros c. apply cards_range. Qed.

Lemma end_game_spec (e : env) (s s' : game) :
  _end_game e s = Done s' ->
  game_over s' = true /\ control_of s' = control_of s /\
  player1_box_has_actions s' = false /\ player2_box_has_actions s' = false /\
  qc s' = measured (measure_level s) (qc s) /\
  exists (id qd : Z) (extra : list Z),
    Py.get (initial_cards s) "Dealer" = Done id /\
    Py.get (player_hands s') "Dealer" = Done (id :: qd :: extra) /\
    Py.get (player_scores s') "Dealer" = Done (id + qd + Py.sum extra) /\
    card_values (qd :: extra) /\
    (forall j, (j < List.length extra)%nat ->
       id + qd + Py.sum (firstn j extra) < DEALER_STANDS_THRESHOLD) /\
    DEALER_STANDS_THRESHOLD <= id + qd + Py.sum extra.
Proof.
  unfold _end_game. intros H.
  rewrite update_turn_highlight_over in H by reflexivity. cbn [bind] in H.
  set (s1 := set_action_boxes false false (set_game_over true s)) in H.
  pose proof (add_measurements_frame s1) as Hm. cbv zeta in Hm.
  pose proof (add_measurements_qc s1) as Hq.
  set (s2 := _add_measurements_to_circuit s1) in *.
  destruct Hm as (Hc2 & Hg2 & _ & _ & Hb21 & Hb22).
  destruct (_process_quantum_results (memory e) s2) as [s3| |] eqn:E3;
    try discriminate.
  cbn [bind] in H.
  destruct (process_shape _ _ _ E3)
    as (i1 & i2 & id & q1 & q2 & qd & t1 & t2 & td & _ & _ & Hid & Hs3
        & Hqd & Htd & _).
  cbv zeta in Hs3.
  assert (Hh3 : Py.get (player_hands s3) "Dealer" = Done (id :: qd :: td))
    by (rewrite Hs3; reflexivity).
  assert (Hsc3 : Py.get (player_scores s3) "Dealer"
                 = Done (Py.sum (id :: qd :: td)))
    by (rewrite Hs3; apply rescore_dealer).
  unfold _dealer_final_turn in H. rewrite Hsc3 in H. cbn [bind] in H.
  destruct (dealer_loop (fuel e) (draws e) 0 (Py.sum (id :: qd :: td)) s3)
    as [s4| |] eqn:E4; try discriminate.
  cbn [bind] in H.
  destruct (dealer_loop_spec _ _ _ _ _ _ _ Hh3 Hsc3 E4)
    as (n & _ & Hh4 & Hsc4 & Hge & _ & Hlt & _ & Hc4 & Hg4 & Hq4 & Hb41 & Hb42
        & _).
  destruct (final_summary_frame _ _ H)
    as (Hc5 & Hg5 & Hq5 & Hh5 & Hsc5 & Hb51 & Hb52).
  assert (Hc3 : control_of s3 = control_of s2) by (rewrite Hs3; reflexivity).
  assert (Hg3 : game_over s3 = game_over s2) by (rewrite Hs3; reflexivity).
  assert (Hq3 : qc s3 = qc s2) by (rewrite Hs3; reflexivity).
  assert (Hb31 : player1_box_has_actions s3 = player1_box_has_actions s2)
    by (rewrite Hs3; reflexivity).
  assert (Hb32 : player2_box_has_actions s3 = player2_box_has_actions s2)
    by (rewrite Hs3; reflexivity).
  split; [rewrite Hg5, Hg4, Hg3, Hg2; reflexivity|].
  split; [rewrite Hc5, Hc4, Hc3, Hc2; reflexivity|].
  split; [rewrite Hb51, Hb41, Hb31, Hb21; reflexivity|].
  split; [rewrite Hb52, Hb42, Hb32, Hb22; reflexivity|].
  split; [rewrite Hq5, Hq4, Hq3, Hq; reflexivity|].
  exists id, qd, (td ++ cards (draws e) 0 n).
  assert (Hid' : Py.get (initial_cards s) "Dealer" = Done id).
  { apply control_of_eq in Hc2. destruct Hc2 as (Hic & _).
    rewrite Hic in Hid. exact Hid. }
  rewrite !sum_cons in Hsc4, Hge, Hlt.
  split; [exact Hid'|].
  split; [rewrite Hh5; exact Hh4|].
  split; [rewrite Hsc5, Hsc4, sum_app; f_equal; lia|].
  split.
  { unfold card_values. constructor; [exact Hqd|].
    apply Forall_app. split; [|apply cards_card_values].
    destruct Htd as [->|(d2 & -> & Hd2 & _)]; constructor; [exact Hd2|].
    constructor. }
  split; [|rewrite sum_app; lia].
  intros j Hj.
  destruct Htd as [->|(d2 & -> & Hd2 & Hlt2 & _)].
  - simpl app in *. rewrite length_cards in Hj.
    rewrite firstn_cards by lia.
    replace (Py.sum []) with 0 in Hlt by reflexivity.
    specialize (Hlt j Hj). lia.
  - simpl app in *. simpl List.length in Hj. rewrite length_cards in Hj.
    rewrite sum_cons in Hlt. replace (Py.sum []) with 0 in Hlt by reflexivity.
    destruct j as [|j].
    + simpl. replace (Py.sum []) with 0 by reflexivity. lia.
    + simpl firstn. rewrite sum_cons, firstn_cards by lia.
      assert (Hj' : (j < n)%nat) by lia. specialize (Hlt j Hj'). lia.
Qed.

(** A hand built that way totals at most 21. *)
Lemma ended_total_le_21 (id qd : Z) (extra : list Z) :
  MIN_CARD_VALUE <= id <= MAX_CARD_VALUE ->
  card_values (qd :: extra) ->
  (forall j, (j < List.length extra)%nat ->
     id + qd + Py.sum (firstn j extra) < DEALER_STANDS_THRESHOLD) ->
  id + qd + Py.sum extra <= 21.
Proof.
  unfold card_values, MIN_CARD_VALUE, MAX_CARD_VALUE, DEALER_STANDS_THRESHOLD.
  intros Hid Hcv Hlt. inversion Hcv as [|? ? Hqd Hex]; subst.
  cbv beta in Hqd.
  destruct extra as [|x extra'] using rev_ind.
  - replace (Py.sum []) with 0 by reflexivity. lia.
  - clear IHextra'. apply Forall_app in Hex. destruct Hex as [_ Hx].
    inversion Hx as [|? ? Hx' _]; subst. cbv beta in Hx'.
    specialize (Hlt (List.length extra')).
    rewrite length_app in Hlt. simpl in Hlt.
    rewrite firstn_app, firstn_all, Nat.sub_diag in Hlt. simpl in Hlt.
    rewrite app_nil_r in Hlt. rewrite sum_app, sum_cons.
    replace (Py.sum []) with 0 by reflexivity.
    assert (id + qd + Py.sum extra' < 14) by (apply Hlt; lia). lia.
Qed.


(* ------------------------------------------------------------------ *)
(** ** One click in a running session *)

Lemma end_game_ended (e : env) (s s' : game) :
  _end_game e s = Done s' ->
  ended_from s s' /\ measure_level s' = measure_level s /\
  qc s' = measured (measure_level s) (qc s).
Proof.
  intros H. destruct (end_game_spec _ _ _ H)
    as (Hg & Hc & Hb1 & Hb2 & Hq & Hdealer).
  apply control_of_eq in Hc. destruct Hc as (Hic & _ & _ & _ & Hml).
  split; [|split; [exact Hml | exact Hq]].
  unfold ended_from. split; [exact Hg|]. split; [exact Hic|].
  split; [exact Hb1|]. split; [exact Hb2 | exact Hdealer].
Qed.

Lemma determine_turn_order_spec (c : string) (s : game) :
  snd (_determine_turn_order c s) = order_of_coin c /\
  let s' := fst (_determine_turn_order c s) in
  qc s' = qc s /\ initial_cards s' = initial_cards s /\
  player_hands s' = player_hands s /\ player_scores s' = player_scores s /\
  measure_level s' = measure_level s /\ game_over s' = game_over s /\
  current_round s' = current_round s /\
  current_player_index s' = current_player_index s.
Proof.
  unfold _determine_turn_order, order_of_coin.
  destruct (String.eqb c "0"); repeat split.
Qed.

Lemma order_of_coin_cases (c : string) :
  order_of_coin c = [1; 2] \/ order_of_coin c = [2; 1].
Proof. unfold order_of_coin. destruct (String.eqb c "0"); auto. Qed.

Lemma highlight_running (s : game) :
  game_over s = false ->
  (current_player_index s < 2)%nat ->
  (player_turn_order s = [1; 2] \/ player_turn_order s = [2; 1]) ->
  exists s', _update_turn_highlight s = Done s' /\
    control_of s' = control_of s /\ game_over s' = false /\
    qc s' = qc s /\ player_hands s' = player_hands s /\
    player_scores s' = player_scores s.
Proof.
  intros Hg Hi Ho.
  assert (exists p, Py.index (player_turn_order s) (current_player_index s)
                    = Done p) as [p Hp].
  { destruct (current_player_index s) as [|[|i]]; [| |lia];
      destruct Ho as [-> | ->]; eexists; reflexivity. }
  unfold _update_turn_highlight.
  cbn [game_over set_action_boxes player_turn_order current_player_index].
  rewrite Hg, Hp. cbn [bind].
  destruct (p =? 1); eexists; (split; [reflexivity|]); repeat split; exact Hg.
Qed.

(** [_next_turn] in a running session: the turn passes to the second
    player, or round 1 turns into round 2, or round 2 is over and the
    end-of-game sequence runs at level 3. *)
Lemma next_turn_cases (e : env) (s : game) :
  running s ->
  (exists s', _next_turn e s = Done s' /\
     running s' /\ qc s' = qc s /\ initial_cards s' = initial_cards s /\
     player_hands s' = player_hands s /\ player_scores s' = player_scores s /\
     measure_level s' = measure_level s /\
     ((current_player_index s = 0%nat /\ current_player_index s' = 1%nat /\
       current_round s' = current_round s /\
       player_turn_order s' = player_turn_order s) \/
      (current_player_index s = 1%nat /\ current_round s = 1 /\
       current_round s' = 2 /\ current_player_index s' = 0%nat /\
       player_turn_order s' = order_of_coin (coin e)))) \/
  (current_player_index s = 1%nat /\ current_round s = 2 /\
   _next_turn e s
   = _end_game e
       (set_measure_level 3
          (_set_round_message "All players passed the final round." "black"
             (set_current_round (current_round s + 1)
                (set_current_player_index (current_player_index s + 1) s))))).
Proof.
  intros (Hg & Hr & Hi & Ho). unfold _next_turn.
  cbn [current_player_index set_current_player_index player_turn_order].
  assert (Hlen : List.length (player_turn_order s) = 2%nat)
    by (destruct Ho as [-> | ->]; reflexivity).
  rewrite Hlen.
  destruct (current_player_index s) as [|[|i]] eqn:Ei; [| |lia].
  - (* first player of the round *)
    cbn [Nat.add Nat.ltb Nat.leb].
    set (s1 := set_current_player_index 1 s).
    destruct (highlight_running s1) as (s2 & Hs2 & Hc & Hg2 & Hq & Hh & Hs);
      [exact Hg | cbn; lia | exact Ho |].
    left. exists s2. split; [exact Hs2|]. apply control_of_eq in Hc.
    destruct Hc as (Hc1 & Hc2 & Hc3 & Hc4 & Hc5). cbn in Hc1, Hc2, Hc3, Hc4, Hc5.
    split; [|split; [|split; [|split; [|split; [|split]]]]]; auto.
    unfold running. rewrite Hg2, Hc2, Hc3, Hc4. repeat split; auto.
  - (* second player of the round *)
    cbn [Nat.add Nat.ltb Nat.leb].
    cbn [current_round set_current_round set_current_player_index].
    destruct Hr as [Hr|Hr]; rewrite Hr; cbn [Z.add Z.gtb Z.compare
      Pos.add Pos.succ Pos.compare Pos.compare_cont].
    + (* round 1 is complete *)
      match goal with |- context [_determine_turn_order ?c ?s0] =>
        destruct (determine_turn_order_spec c s0)
          as (Hord & Hq & Hic & Hh & Hsc & Hml & Hgo & Hcr & Hci);
        destruct (_determine_turn_order c s0) as [s1 order] eqn:Ed
      end.
      cbn [fst snd] in *. subst order.
      set (s2 := set_player_turn_order (order_of_coin (coin e)) s1).
      destruct (highlight_running s2) as (s3 & Hs3 & Hc & Hg3 & Hq3 & Hh3 & Hs3');
        [ cbn; rewrite Hgo; exact Hg
        | cbn; rewrite Hci; cbn; lia
        | cbn; apply order_of_coin_cases |].
      left. exists s3. split; [exact Hs3|].
      apply control_of_eq in Hc.
      destruct Hc as (Hc1 & Hc2 & Hc3 & Hc4 & Hc5).
      cbn in Hc1, Hc2, Hc3, Hc4, Hc5, Hq, Hic, Hh, Hsc, Hml, Hgo, Hcr, Hci.
      split; [|split; [|split; [|split; [|split; [|split]]]]].
      * unfold running. rewrite Hg3, Hc2, Hc3, Hc4, Hcr, Hci.
        repeat split; auto. apply order_of_coin_cases.
      * rewrite Hq3. cbn. exact Hq.
      * rewrite Hc1. exact Hic.
      * rewrite Hh3. cbn. exact Hh.
      * rewrite Hs3'. cbn. exact Hsc.
      * rewrite Hc5. exact Hml.
      * right. rewrite Hc2, Hc3, Hc4, Hcr, Hci. repeat split; auto.
    + (* round 2 is complete *)
      right. split; [reflexivity|]. split; [reflexivity|]. reflexivity.
Qed.

Lemma next_turn_running (e : env) (s s' : game) :
  running s ->
  _next_turn e s = Done s' ->
  (running s' /\ qc s' = qc s /\ initial_cards s' = initial_cards s /\
   player_hands s' = player_hands s /\ player_scores s' = player_scores s /\
   measure_level s' = measure_level s /\
   ((current_player_index s = 0%nat /\ current_player_index s' = 1%nat /\
     current_round s' = current_round s /\
     player_turn_order s' = player_turn_order s) \/
    (current_player_index s = 1%nat /\ current_round s = 1 /\
     current_round s' = 2 /\ current_player_index s' = 0%nat /\
     player_turn_order s' = order_of_coin (coin e)))) \/
  (current_player_index s = 1%nat /\ current_round s = 2 /\
   ended_from s s' /\ measure_level s' = 3 /\ qc s' = measured 3 (qc s)).
Proof.
  intros Hrun H.
  destruct (next_turn_cases e s Hrun) as [(s1 & Hs1 & Hrest) | (Hi & Hr & Heq)].
  - rewrite Hs1 in H. injection H as <-. left. exact Hrest.
  - rewrite Heq in H. apply end_game_ended in H.
    destruct H as (Hend & Hml & Hq).
    right. split; [exact Hi|]. split; [exact Hr|].
    split; [exact Hend|]. split; [exact Hml | exact Hq].
Qed.


Lemma running_index (s : game) :
  running s ->
  exists p, Py.index (player_turn_order s) (current_player_index s) = Done p
            /\ (p = 1 \/ p = 2).
Proof.
  intros (_ & _ & Hi & Ho).
  destruct (current_player_index s) as [|[|i]]; [| |lia];
    destruct Ho as [-> | ->]; eexists; (split; [reflexivity|]); auto.
Qed.

(** A click in a running session either leaves it running or ends it; it
    ends at level [round + 1] when the click is Measure, and otherwise only
    in round 2, at level 3. *)
Lemma click_step (b ch : string) (e : env) (s s' : game) :
  running s ->
  _on_action_button_clicked b ch e s = Done s' ->
  (running s' /\ initial_cards s' = initial_cards s) \/
  (ended_from s s' /\
   ((b = "Measure"%string /\ measure_level s' = current_round s + 1) \/
    (b <> "Measure"%string /\ current_round s = 2 /\ measure_level s' = 3))).
Proof.
  intros Hrun H. unfold _on_action_button_clicked in H.
  destruct (running_index s Hrun) as (p & Hp & _). rewrite Hp in H.
  cbn [bind] in H.
  destruct (String.eqb b "Measure") eqn:Eb.
  - apply String.eqb_eq in Eb. apply end_game_ended in H.
    destruct H as (Hend & Hml & _). right. split; [exact Hend|].
    left. split; [exact Eb | exact Hml].
  - apply String.eqb_neq in Eb.
    destruct (String.eqb b "Pass");
      [|destruct (String.eqb b "Re-Shuffle")].
    + apply next_turn_running in H; [|exact Hrun].
      destruct H as [(Hr' & _ & Hic & _) | (_ & Hr2 & Hend & Hml & _)].
      * left. split; [exact Hr' | exact Hic].
      * right. split; [exact Hend|]. right. auto.
    + apply next_turn_running in H; [|exact Hrun].
      destruct H as [(Hr' & _ & Hic & _) | (_ & Hr2 & Hend & Hml & _)].
      * left. split; [exact Hr' | exact Hic].
      * right. split; [exact Hend|]. right. auto.
    + injection H as <-. left. split; [exact Hrun | reflexivity].
Qed.

Lemma play_over (clicks : list click) (s : game) (log : list (Z * string)) :
  game_over s = true -> play clicks s log = Done (s, log).
Proof. intros H. destruct clicks; simpl; [|rewrite H]; reflexivity. Qed.

(** A play that ends was ended by its last logged click. *)
Lemma play_spec (clicks : list click) :
  forall (s s' : game) (log log' : list (Z * string)),
    running s ->
    play clicks s log = Done (s', log') ->
    game_over s' = true ->
    exists (log0 : list (Z * string)) (r : Z) (b : string) (s1 : game),
      log' = log ++ log0 ++ [(r, b)] /\
      running s1 /\ current_round s1 = r /\
      initial_cards s1 = initial_cards s /\
      ended_from s1 s' /\
      ((b = "Measure"%string /\ measure_level s' = r + 1) \/
       (b <> "Measure"%string /\ r = 2 /\ measure_level s' = 3)).
Proof.
  induction clicks as [|c clicks IH]; intros s s' log log' Hrun Hplay Hover.
  - simpl in Hplay. injection Hplay as <- <-.
    destruct Hrun as (Hg & _). congruence.
  - cbn [play] in Hplay. pose proof Hrun as (Hg & _). rewrite Hg in Hplay.
    destruct (_on_action_button_clicked (button c) (choice c) (world c) s)
      as [s1| |] eqn:Ec; try discriminate.
    cbn [bind] in Hplay.
    destruct (click_step _ _ _ _ _ Hrun Ec) as [(Hr1 & Hic) | (Hend & Hlev)].
    + destruct (IH _ _ _ _ Hr1 Hplay Hover)
        as (log0 & r & b & s2 & Hlog & Hr2 & Hcr & Hic2 & Hend & Hlev).
      exists ((current_round s, button c) :: log0), r, b, s2.
      rewrite <- app_assoc in Hlog. simpl in Hlog.
      split; [exact Hlog|]. split; [exact Hr2|]. split; [exact Hcr|].
      split; [congruence|]. split; [exact Hend | exact Hlev].
    + assert (Hg1 : game_over s1 = true) by apply Hend.
      rewrite play_over in Hplay by exact Hg1.
      injection Hplay as <- <-.
      exists [], (current_round s), (button c), s.
      split; [reflexivity|]. split; [exact Hrun|]. split; [reflexivity|].
      split; [reflexivity|]. split; [exact Hend | exact Hlev].
Qed.

Lemma start_game_spec (angles : nat -> R) (e : env) (s s0 : game) :
  start_game angles e s = Done s0 ->
  running s0 /\ qc s0 = prepared angles /\
  measure_level s0 = measure_level s /\
  exists id, Py.get (initial_cards s0) "Dealer" = Done id /\
             MIN_CARD_VALUE <= id <= MAX_CARD_VALUE.
Proof.
  unfold start_game.
  match goal with |- context [_determine_turn_order ?c ?s1] =>
    destruct (determine_turn_order_spec c s1)
      as (Hord & Hq & Hic & Hh & Hsc & Hml & Hgo & Hcr & Hci);
    destruct (_determine_turn_order c s1) as [s2 order] eqn:Ed
  end.
  cbn [fst snd] in *. subst order. intros H.
  destruct (highlight_running
              (set_player_turn_order (order_of_coin (coin e)) s2))
    as (s3 & Hs3 & Hc & Hg3 & Hq3 & _).
  { cbn. rewrite Hgo. reflexivity. }
  { cbn. rewrite Hci. cbn. lia. }
  { cbn. apply order_of_coin_cases. }
  rewrite Hs3 in H. injection H as <-.
  apply control_of_eq in Hc. destruct Hc as (Hc1 & Hc2 & Hc3 & Hc4 & Hc5).
  cbn in Hc1, Hc2, Hc3, Hc4, Hc5, Hq, Hic, Hml, Hgo, Hcr, Hci, Hq3.
  split; [|split; [|split]].
  - unfold running. rewrite Hg3, Hc2, Hc3, Hc4, Hcr, Hci.
    repeat split; auto. apply order_of_coin_cases.
  - rewrite Hq3, Hq. reflexivity.
  - rewrite Hc5, Hml. reflexivity.
  - exists (_generate_random_card (draws e 0%nat)).
    split; [|apply random_card_range].
    rewrite Hc1, Hic.
    rewrite !get_set_other by discriminate. apply get_set_same.
Qed.


(* ------------------------------------------------------------------ *)
(** ** The circuit a play builds *)

Lemma reshuffles_app (h1 h2 : list (Z * string)) (c : circuit) :
  reshuffles (h1 ++ h2) c = reshuffles h2 (reshuffles h1 c).
Proof. unfold reshuffles. apply fold_left_app. Qed.

(** A click appends the gates of at most one Re-Shuffle, and the
    measurements if it ends the game. *)
Lemma click_circuit (b ch : string) (e : env) (s s' : game) :
  running s ->
  _on_action_button_clicked b ch e s = Done s' ->
  exists hist : list (Z * string),
    (hist = [] \/ (b = "Re-Shuffle"%string /\ exists p, hist = [(p, ch)])) /\
    qc s' = if game_over s'
            then measured (measure_level s') (reshuffles hist (qc s))
            else reshuffles hist (qc s).
Proof.
  intros Hrun H. unfold _on_action_button_clicked in H.
  destruct (running_index s Hrun) as (p & Hp & _). rewrite Hp in H.
  cbn [bind] in H.
  destruct (String.eqb b "Measure") eqn:Eb.
  - apply end_game_ended in H. destruct H as (Hend & Hml & Hq).
    exists []. split; [left; reflexivity|].
    destruct Hend as (-> & _). rewrite Hml. exact Hq.
  - destruct (String.eqb b "Pass") eqn:Ep;
      [|destruct (String.eqb b "Re-Shuffle") eqn:Er].
    + exists []. split; [left; reflexivity|].
      apply next_turn_running in H; [|exact Hrun].
      destruct H as [(Hr' & Hq & _) | (_ & _ & Hend & Hml & Hq)].
      * destruct Hr' as (-> & _). exact Hq.
      * destruct Hend as (-> & _). rewrite Hml. exact Hq.
    + apply String.eqb_eq in Er. exists [(p, ch)].
      split; [right; split; [exact Er | exists p; reflexivity]|].
      apply next_turn_running in H; [|exact Hrun].
      destruct H as [(Hr' & Hq & _) | (_ & _ & Hend & Hml & Hq)].
      * destruct Hr' as (-> & _). exact Hq.
      * destruct Hend as (-> & _). rewrite Hml. exact Hq.
    + injection H as <-. exists []. split; [left; reflexivity|].
      destruct Hrun as (-> & _). reflexivity.
Qed.

(** The circuit of a session is the prepared circuit followed by the
    gates of the Re-Shuffles clicked so far and, once the game is over, by
    the measurements of the level reached. *)
Lemma play_circuit (clicks : list click) :
  forall (s s' : game) (log log' : list (Z * string)),
    running s ->
    play clicks s log = Done (s', log') ->
    exists hist : list (Z * string),
      Forall (fun pc => exists c, In c clicks /\
                                  button c = "Re-Shuffle"%string /\
                                  choice c = snd pc) hist /\
      qc s' = if game_over s'
              then measured (measure_level s') (reshuffles hist (qc s))
              else reshuffles hist (qc s).
Proof.
  induction clicks as [|c clicks IH]; intros s s' log log' Hrun Hplay.
  - simpl in Hplay. injection Hplay as <- <-. exists [].
    split; [constructor|]. destruct Hrun as (-> & _). reflexivity.
  - cbn [play] in Hplay. pose proof Hrun as (Hg & _). rewrite Hg in Hplay.
    destruct (_on_action_button_clicked (button c) (choice c) (world c) s)
      as [s1| |] eqn:Ec; try discriminate.
    cbn [bind] in Hplay.
    destruct (click_circuit _ _ _ _ _ Hrun Ec) as (h1 & Hh1 & Hq1).
    assert (Hf1 : Forall (fun pc => exists c0, In c0 (c :: clicks) /\
                                    button c0 = "Re-Shuffle"%string /\
                                    choice c0 = snd pc) h1).
    { destruct Hh1 as [-> | (Hb & p & ->)]; constructor; [|constructor].
      exists c. split; [left; reflexivity|]. split; [exact Hb | reflexivity]. }
    destruct (click_step _ _ _ _ _ Hrun Ec) as [(Hr1 & _) | (Hend & _)].
    + destruct (IH _ _ _ _ Hr1 Hplay) as (h2 & Hf2 & Hq2).
      pose proof Hr1 as (Hg1 & _). rewrite Hg1 in Hq1.
      exists (h1 ++ h2). split.
      * apply Forall_app. split; [exact Hf1|].
        eapply Forall_impl; [|exact Hf2].
        intros pc (c0 & Hin & Hrest). exists c0. split; [right; exact Hin | exact Hrest].
      * rewrite reshuffles_app, <- Hq1. exact Hq2.
    + assert (Hg1 : game_over s1 = true) by apply Hend.
      rewrite play_over in Hplay by exact Hg1. injection Hplay as <- <-.
      exists h1. split; [exact Hf1 | exact Hq1].
Qed.

Lemma session_circuit (angles : nat -> R) (e0 : env) (s_prev s0 s : game)
    (clicks : list click) (log : list (Z * string)) :
  start_game angles e0 s_prev = Done s0 ->
  play clicks s0 [] = Done (s, log) ->
  exists hist : list (Z * string),
    Forall (fun pc => exists c, In c clicks /\
                                button c = "Re-Shuffle"%string /\
                                choice c = snd pc) hist /\
    qc s = if game_over s
           then measured (measure_level s) (reshuffles hist (prepared angles))
           else reshuffles hist (prepared angles).
Proof.
  intros Hstart Hplay.
  destruct (start_game_spec _ _ _ _ Hstart) as (Hrun & Hq & _).
  destruct (play_circuit _ _ _ _ _ Hrun Hplay) as (hist & Hf & Hqc).
  exists hist. split; [exact Hf|]. rewrite <- Hq. exact Hqc.
Qed.


(* ------------------------------------------------------------------ *)
(** * The claims *)


(** ** C4 *)

(** C4.  A three-character group [g0 g1 g2] of a register string yields
    the card [int(g2 g1 g0, 2) + 1], a value in 1..8.  At measure level 3
    the hands derived from a memory string of three six-bit registers are
    [initial, card 1, card 2] for both players, while the dealer's second
    quantum card is appended exactly when initial + card 1 < 14. *)
Theorem card_derivation_and_level3_hands (s : game) (i1 i2 id : Z)
    (g0 g1 g2 a0 a1 a2 a3 a4 a5 b0 b1 b2 b3 b4 b5 c0 c1 c2 c3 c4 c5 : bool) :
  measure_level s = 3 ->
  Py.get (initial_cards s) "Player 1" = Done i1 ->
  Py.get (initial_cards s) "Player 2" = Done i2 ->
  Py.get (initial_cards s) "Dealer" = Done id ->
  (Py.int2 (Py.reversed (bits [g0; g1; g2]))
     = Done (4 * Z.b2z g2 + 2 * Z.b2z g1 + Z.b2z g0) /\
   _get_card_value_from_binary (Py.reversed (bits [g0; g1; g2]))
     = Done (card3 g0 g1 g2) /\
   card3 g0 g1 g2 = 4 * Z.b2z g2 + 2 * Z.b2z g1 + Z.b2z g0 + 1 /\
   1 <= card3 g0 g1 g2 <= 8) /\
  exists s',
    _process_quantum_results
      (bits [a0; a1; a2; a3; a4; a5] ++ " " ++ bits [b0; b1; b2; b3; b4; b5]
       ++ " " ++ bits [c0; c1; c2; c3; c4; c5])%string s = Done s' /\
    Py.get (player_hands s') "Player 1"
      = Done [i1; card3 b0 b1 b2; card3 b3 b4 b5] /\
    Py.get (player_hands s') "Player 2"
      = Done [i2; card3 a0 a1 a2; card3 a3 a4 a5] /\
    (id + card3 c0 c1 c2 < DEALER_STANDS_THRESHOLD ->
     Py.get (player_hands s') "Dealer"
       = Done [id; card3 c0 c1 c2; card3 c3 c4 c5]) /\
    (DEALER_STANDS_THRESHOLD <= id + card3 c0 c1 c2 ->
     Py.get (player_hands s') "Dealer" = Done [id; card3 c0 c1 c2]).
Proof.
  intros Hl H1 H2 Hd. split.
  - split; [destruct g0, g1, g2; reflexivity|].
    split; [apply card_of_group|].
    split; [unfold card3; lia | apply card3_range].
  - eexists. split; [apply process_hands; eassumption|].
    cbn [player_hands set_player_hands set_player_scores].
    rewrite Hl. cbn [Z.eqb Pos.eqb andb].
    split; [reflexivity|]. split; [reflexivity|].
    split; intros Hlt.
    + apply Z.ltb_lt in Hlt. rewrite Hlt. reflexivity.
    + apply Z.ltb_ge in Hlt. rewrite Hlt. reflexivity.
Qed.

Lemma card_derivation_and_level3_hands_witness :
  (Py.int2 (Py.reversed (bits [true; false; false])) = Done 1 /\
   _get_card_value_from_binary (Py.reversed (bits [true; false; false]))
     = Done 2) /\
  exists s',
    _process_quantum_results "000000 001110 010101" demo_level3 = Done s' /\
    Py.get (player_hands s') "Player 1" = Done [5; 5; 4] /\
    Py.get (player_hands s') "Player 2" = Done [7; 1; 1] /\
    Py.get (player_hands s') "Dealer" = Done [6; 3; 6].
Proof.
  destruct (card_derivation_and_level3_hands demo_level3 5 7 6
              true false false
              false false false false false false
              false false true true true false
              false true false true false true
              eq_refl eq_refl eq_refl eq_refl)
    as ((Hi & Hc & _) & s' & Hp & Hh1 & Hh2 & Hd & _).
  split; [split; [exact Hi | exact Hc]|].
  exists s'. split; [exact Hp|]. split; [exact Hh1|]. split; [exact Hh2|].
  apply Hd. reflexivity.
Defined.

(** ** C5 *)

Lemma random_card_of_word (m j : Z) :
  0 <= j < 8 -> _generate_random_card (8 * m + j) = 1 + j.
Proof.
  intros Hj. unfold _generate_random_card, Py.randint, MIN_CARD_VALUE,
    MAX_CARD_VALUE.
  replace (8 + 1 - 1) with 8 by reflexivity.
  rewrite (Z.add_comm (8 * m)), (Z.mul_comm 8), Z_mod_plus_full,
    Z.mod_small by lia.
  reflexivity.
Qed.

(** Eight consecutive raw words, the first a multiple of 8, give each of
    the cards 1..8 once. *)
Lemma draws_giving_block (v : Z) (m : nat) :
  draws_giving v (8 * S m)
  = (draws_giving v (8 * m)
     + (if ((1 <=? v) && (v <=? 8))%Z then 1 else 0))%nat.
Proof.
  unfold draws_giving.
  replace (8 * S m)%nat with (8 * m + 8)%nat by lia.
  rewrite seq_app, map_app, filter_app, length_app. f_equal.
  cbn [Nat.add seq map]. rewrite !Nat2Z.inj_succ. unfold Z.succ.
  rewrite Nat2Z.inj_mul. change (Z.of_nat 8) with 8.
  set (M := Z.of_nat m).
  rewrite <- !Z.add_assoc. cbn [Z.add Pos.add Pos.succ].
  rewrite <- (Z.add_0_r (8 * M)) at 1.
  cbn [filter]. rewrite !random_card_of_word by lia.
  destruct (Z.leb_spec 1 v) as [H1|H1];
    [destruct (Z.leb_spec v 8) as [H8|H8]|]; cbn [andb].
  - assert (Hv : v = 1 \/ v = 2 \/ v = 3 \/ v = 4 \/ v = 5 \/ v = 6
                 \/ v = 7 \/ v = 8) by lia.
    destruct Hv as [->|[->|[->|[->|[->|[->|[->| ->]]]]]]]; reflexivity.
  - repeat match goal with
           | |- context [(?a =? v)] =>
               replace (a =? v) with false by (symmetry; apply Z.eqb_neq; lia)
           end.
    reflexivity.
  - repeat match goal with
           | |- context [(?a =? v)] =>
               replace (a =? v) with false by (symmetry; apply Z.eqb_neq; lia)
           end.
    reflexivity.
Qed.

(** The generated card is uniform on 1..8: of the raw words 0 .. 8m - 1,
    exactly [m] give each of the eight values. *)
Lemma draws_giving_uniform (v : Z) (m : nat) :
  draws_giving v (8 * m) = if (1 <=? v) && (v <=? 8) then m else 0%nat.
Proof.
  induction m as [|m IHm].
  - destruct ((1 <=? v) && (v <=? 8)); reflexivity.
  - rewrite draws_giving_block, IHm.
    destruct ((1 <=? v) && (v <=? 8)); lia.
Qed.

Lemma draws_giving_eighth (v : Z) (m : nat) :
  (0 < m)%nat -> 1 <= v <= 8 ->
  (INR (draws_giving v (8 * m)) / INR (8 * m) = 1 / 8)%R.
Proof.
  intros Hm Hv. rewrite draws_giving_uniform.
  replace ((1 <=? v) && (v <=? 8)) with true
    by (symmetry; apply andb_true_iff; split; apply Z.leb_le; lia).
  rewrite mult_INR. replace (INR 8) with 8%R by (simpl; lra).
  assert (INR m <> 0%R) by (apply not_0_INR; lia).
  field. assumption.
Qed.

(** C5.  In the dealer's final turn the dealer draws cards as long as the
    running total is below 14 and stops at the first total that is at
    least 14: every draw was made below the threshold, the final total is
    not below it, a total below 14 forces a draw and a total of 14 or more
    (14 included) forces none.  The card of draw number [j] is made from
    raw random word number [j] of the generator and lies in 1..8; it is
    uniform there: of the raw words 0 .. 8m - 1 (the values of a 32-bit
    word, say) exactly [m] give each of the values 1..8, and none gives
    another value, so that each value has probability 1/8. *)
Theorem dealer_draws_exactly_below_threshold (e : env) (s : game)
    (total : Z) (h : list Z) :
  Py.get (player_hands s) "Dealer" = Done h ->
  Py.get (player_scores s) "Dealer" = Done total ->
  (Z.to_nat (DEALER_STANDS_THRESHOLD - total) <= fuel e)%nat ->
  exists (s' : game) (n : nat),
    _dealer_final_turn e s = Done s' /\
    Py.get (player_hands s') "Dealer" = Done (h ++ cards (draws e) 0 n) /\
    Py.get (player_scores s') "Dealer"
      = Done (total + Py.sum (cards (draws e) 0 n)) /\
    card_values (cards (draws e) 0 n) /\
    (forall j, (j < n)%nat ->
       nth_error (cards (draws e) 0 n) j
       = Some (_generate_random_card (draws e j))) /\
    (forall (v : Z) (m : nat),
       draws_giving v (8 * m)
       = if (1 <=? v) && (v <=? 8) then m else 0%nat) /\
    (forall (v : Z) (m : nat),
       (0 < m)%nat -> 1 <= v <= 8 ->
       (INR (draws_giving v (8 * m)) / INR (8 * m) = 1 / 8)%R) /\
    (forall j, (j < n)%nat ->
       total + Py.sum (cards (draws e) 0 j) < DEALER_STANDS_THRESHOLD) /\
    DEALER_STANDS_THRESHOLD <= total + Py.sum (cards (draws e) 0 n) /\
    (total < DEALER_STANDS_THRESHOLD -> (0 < n)%nat) /\
    (DEALER_STANDS_THRESHOLD <= total -> n = 0%nat /\ s' = s).
Proof.
  intros Hh Hs Hf. unfold _dealer_final_turn. rewrite Hs. cbn [bind].
  destruct (dealer_loop_terminates _ (draws e) 0 total s h Hh Hf) as [s' Hrun].
  destruct (dealer_loop_spec _ _ _ _ _ _ _ Hh Hs Hrun)
    as (n & _ & Hh' & Hs' & Hge & _ & Hlt & Hstop & _).
  exists s', n. split; [exact Hrun|]. split; [exact Hh'|].
  split; [exact Hs'|]. split; [apply cards_card_values|].
  split.
  { intros j Hj. unfold cards.
    rewrite nth_error_map, nth_error_seq.
    apply Nat.ltb_lt in Hj. rewrite Hj. reflexivity. }
  split; [exact draws_giving_uniform|].
  split; [exact draws_giving_eighth|].
  split; [exact Hlt|]. split; [exact Hge|]. split; [|exact Hstop].
  intros Hbelow. destruct n; [|lia].
  unfold cards in Hge. simpl in Hge.
  replace (Py.sum []) with 0 in Hge by reflexivity. lia.
Qed.

Lemma dealer_draws_exactly_below_threshold_witness :
  exists (s' : game) (n : nat),
    _dealer_final_turn demo_env demo_dealer = Done s' /\
    Py.get (player_hands s') "Dealer"
      = Done ([5; 4] ++ cards (draws demo_env) 0 n) /\
    Py.get (player_scores s') "Dealer"
      = Done (9 + Py.sum (cards (draws demo_env) 0 n)) /\
    card_values (cards (draws demo_env) 0 n) /\
    (forall j, (j < n)%nat ->
       nth_error (cards (draws demo_env) 0 n) j
       = Some (_generate_random_card (draws demo_env j))) /\
    (forall (v : Z) (m : nat),
       draws_giving v (8 * m)
       = if (1 <=? v) && (v <=? 8) then m else 0%nat) /\
    (forall (v : Z) (m : nat),
       (0 < m)%nat -> 1 <= v <= 8 ->
       (INR (draws_giving v (8 * m)) / INR (8 * m) = 1 / 8)%R) /\
    (forall j, (j < n)%nat ->
       9 + Py.sum (cards (draws demo_env) 0 j) < DEALER_STANDS_THRESHOLD) /\
    DEALER_STANDS_THRESHOLD <= 9 + Py.sum (cards (draws demo_env) 0 n) /\
    (9 < DEALER_STANDS_THRESHOLD -> (0 < n)%nat) /\
    (DEALER_STANDS_THRESHOLD <= 9 -> n = 0%nat /\ s' = demo_dealer).
Proof.
  apply (dealer_draws_exactly_below_threshold demo_env demo_dealer 9 [5; 4]);
    [reflexivity | reflexivity | vm_compute; lia].
Defined.

(** ** C7 *)

(** C7 as stated fails: no sequence of draws keeps the loop running for
    ever. *)
Lemma dealer_loop_runs_forever_refuted :
  ~ (exists (draws : nat -> Z) (k : nat) (total : Z) (s : game),
       forall fuel, dealer_loop fuel draws k total s = OutOfFuel).
Proof.
  intros (draws & k & total & s & H).
  apply (dealer_loop_never_hangs draws k total s
           (Z.to_nat (DEALER_STANDS_THRESHOLD - total))); [lia | apply H].
Qed.

(** C7, amended.  The loop has no explicit cap, but every card is at least
    [MIN_CARD_VALUE] = 1, so for every sequence of draws it returns within
    [DEALER_STANDS_THRESHOLD - total] iterations, and a completed run has
    drawn at most that many cards. *)
Theorem dealer_loop_bounded_by_threshold (draws : nat -> Z) (k : nat)
    (total : Z) (s : game) (fuel : nat) :
  (Z.to_nat (DEALER_STANDS_THRESHOLD - total) <= fuel)%nat ->
  dealer_loop fuel draws k total s <> OutOfFuel /\
  forall (h : list Z) (s' : game),
    Py.get (player_hands s) "Dealer" = Done h ->
    Py.get (player_scores s) "Dealer" = Done total ->
    dealer_loop fuel draws k total s = Done s' ->
    exists n : nat,
      (n <= Z.to_nat (DEALER_STANDS_THRESHOLD - total))%nat /\
      Py.get (player_hands s') "Dealer" = Done (h ++ cards draws k n).
Proof.
  intros Hf. split; [apply dealer_loop_never_hangs; exact Hf|].
  intros h s' Hh Hs Hrun.
  destruct (dealer_loop_spec _ _ _ _ _ _ _ Hh Hs Hrun) as (n & Hn & Hh' & _).
  exists n. split; assumption.
Qed.

Lemma dealer_loop_bounded_by_threshold_witness :
  dealer_loop 5 (fun _ => 0) 0 9 demo_dealer <> OutOfFuel /\
  forall (h : list Z) (s' : game),
    Py.get (player_hands demo_dealer) "Dealer" = Done h ->
    Py.get (player_scores demo_dealer) "Dealer" = Done 9 ->
    dealer_loop 5 (fun _ => 0) 0 9 demo_dealer = Done s' ->
    exists n : nat,
      (n <= Z.to_nat (DEALER_STANDS_THRESHOLD - 9))%nat /\
      Py.get (player_hands s') "Dealer" = Done (h ++ cards (fun _ => 0) 0 n).
Proof.
  apply (dealer_loop_bounded_by_threshold (fun _ => 0) 0 9 demo_dealer 5).
  vm_compute. lia.
Defined.


(** ** C8 *)

(** C8 as stated fails: the handler has no check of [game_over].  In the
    session that Player 1 ended by Measure in round 1, a Pass delivered to
    the handler is processed and moves the turn index from 0 to 1. *)
Lemma click_after_end_is_processed :
  ~ (forall (b ch : string) (e : env) (s : game),
       game_over s = true ->
       In b ["Measure"; "Pass"; "Re-Shuffle"]%string ->
       _on_action_button_clicked b ch e s = Done s).
Proof.
  intros H.
  assert (Hg : game_over demo_ended = true) by (vm_compute; reflexivity).
  specialize (H "Pass"%string "1"%string demo_env demo_ended Hg
                (or_intror (or_introl eq_refl))).
  apply (f_equal (fun r => match r with
                           | Done s => current_player_index s
                           | _ => 0%nat
                           end)) in H.
  vm_compute in H. discriminate H.
Qed.

(** C8, amended.  What keeps a finished session from receiving actions is
    the GUI: the end-of-game sequence sets [game_over] and leaves the action
    box in neither player's panel, and any later refresh of the turn
    highlight keeps it out. *)
Theorem ended_session_offers_no_action (e : env) (s s' : game) :
  _end_game e s = Done s' ->
  game_over s' = true /\
  player1_box_has_actions s' = false /\
  player2_box_has_actions s' = false /\
  exists s'', _update_turn_highlight s' = Done s'' /\
              game_over s'' = true /\
              player1_box_has_actions s'' = false /\
              player2_box_has_actions s'' = false.
Proof.
  intros H. destruct (end_game_spec _ _ _ H) as (Hg & _ & Hb1 & Hb2 & _).
  split; [exact Hg|]. split; [exact Hb1|]. split; [exact Hb2|].
  exists (set_action_boxes false false s').
  split; [apply update_turn_highlight_over; exact Hg|].
  split; [exact Hg|]. split; reflexivity.
Qed.

Lemma ended_session_offers_no_action_witness :
  game_over demo_ended = true /\
  player1_box_has_actions demo_ended = false /\
  player2_box_has_actions demo_ended = false /\
  exists s'', _update_turn_highlight demo_ended = Done s'' /\
              game_over s'' = true /\
              player1_box_has_actions s'' = false /\
              player2_box_has_actions s'' = false.
Proof.
  apply (ended_session_offers_no_action demo_env
           (_set_message
              "Player 1 measures! Ending game with 2-card hands." "black"
              (set_measure_level 2 demo_start))).
  vm_compute. reflexivity.
Defined.

(** ** C9 *)

(** C9.  When a game has ended, the dealer's hand is the initial card, the
    first quantum card and the cards added afterwards (the second quantum
    card, the drawn cards), all of them card values; each added card was
    added while the total was below 14, and the final score, the sum of the
    hand, is at least 14 and at most 21. *)
Theorem dealer_final_score_range (angles : nat -> R) (e0 : env)
    (s_prev s0 s : game) (clicks : list click) (log : list (Z * string)) :
  start_game angles e0 s_prev = Done s0 ->
  play clicks s0 [] = Done (s, log) ->
  game_over s = true ->
  exists (id qd : Z) (extra : list Z),
    Py.get (player_hands s) "Dealer" = Done (id :: qd :: extra) /\
    Py.get (player_scores s) "Dealer" = Done (id + qd + Py.sum extra) /\
    card_values (id :: qd :: extra) /\
    (forall j, (j < List.length extra)%nat ->
       id + qd + Py.sum (firstn j extra) < DEALER_STANDS_THRESHOLD) /\
    DEALER_STANDS_THRESHOLD <= id + qd + Py.sum extra <= 21.
Proof.
  intros Hstart Hplay Hover.
  destruct (start_game_spec _ _ _ _ Hstart) as (Hrun & _ & _ & id0 & Hid0 & Hr0).
  destruct (play_spec _ _ _ _ _ Hrun Hplay Hover)
    as (log0 & r & b & s1 & _ & _ & _ & Hic & Hend & _).
  destruct Hend as (_ & _ & _ & _ & id & qd & extra & Hid & Hh & Hs & Hcv
                    & Hlt & Hge).
  rewrite Hic, Hid0 in Hid. injection Hid as <-.
  exists id0, qd, extra. split; [exact Hh|]. split; [exact Hs|].
  split; [constructor; assumption|]. split; [exact Hlt|].
  split; [exact Hge|]. apply ended_total_le_21; assumption.
Qed.

Lemma dealer_final_score_range_witness :
  exists (id qd : Z) (extra : list Z),
    Py.get (player_hands demo_final) "Dealer" = Done (id :: qd :: extra) /\
    Py.get (player_scores demo_final) "Dealer"
      = Done (id + qd + Py.sum extra) /\
    card_values (id :: qd :: extra) /\
    (forall j, (j < List.length extra)%nat ->
       id + qd + Py.sum (firstn j extra) < DEALER_STANDS_THRESHOLD) /\
    DEALER_STANDS_THRESHOLD <= id + qd + Py.sum extra <= 21.
Proof.
  apply (dealer_final_score_range demo_angles demo_env init demo_start
           demo_final demo_clicks demo_log); vm_compute; reflexivity.
Defined.

(** ** C10 *)

(** C10.  In a running session a Pass that does not complete round 2
    returns normally and leaves the initial cards, the hands, the scores,
    the measure level, the circuit and [game_over] as they were.  Made by
    the first player of a round it only moves the turn index from 0 to 1;
    made by the second player of round 1 it starts round 2 with turn index
    0 and the order given by a fresh coin toss. *)
Theorem pass_changes_only_the_turn (ch : string) (e : env) (s : game) :
  running s ->
  ~ (current_round s = 2 /\ current_player_index s = 1%nat) ->
  exists s',
    _on_action_button_clicked "Pass" ch e s = Done s' /\
    initial_cards s' = initial_cards s /\
    player_hands s' = player_hands s /\
    player_scores s' = player_scores s /\
    measure_level s' = measure_level s /\
    qc s' = qc s /\
    game_over s' = false /\
    (current_player_index s = 0%nat ->
     current_player_index s' = 1%nat /\
     current_round s' = current_round s /\
     player_turn_order s' = player_turn_order s) /\
    (current_round s = 1 /\ current_player_index s = 1%nat ->
     current_player_index s' = 0%nat /\
     current_round s' = 2 /\
     player_turn_order s' = order_of_coin (coin e)).
Proof.
  intros Hrun Hnot. unfold _on_action_button_clicked.
  destruct (running_index s Hrun) as (p & Hp & _). rewrite Hp.
  cbn [bind String.eqb Ascii.eqb Bool.eqb].
  set (s1 := _set_message ("Player " ++ Py.str p ++ " passes.") "black" s).
  assert (Hrun1 : running s1) by exact Hrun.
  destruct (next_turn_cases e s1 Hrun1)
    as [(s' & Hs' & Hr' & Hq & Hic & Hh & Hsc & Hml & Hcase) | (Hi & Hr & _)].
  - exists s'. split; [exact Hs'|].
    split; [exact Hic|]. split; [exact Hh|]. split; [exact Hsc|].
    split; [exact Hml|]. split; [exact Hq|]. split; [apply Hr'|].
    change (current_player_index s1) with (current_player_index s) in Hcase.
    change (current_round s1) with (current_round s) in Hcase.
    change (player_turn_order s1) with (player_turn_order s) in Hcase.
    split.
    + intros Hi0. destruct Hcase as [(_ & H1 & H2 & H3) | (H1 & _)];
        [auto | congruence].
    + intros (Hr1 & Hi1). destruct Hcase as [(H1 & _) | (_ & _ & H1 & H2 & H3)];
        [congruence | auto].
  - exfalso. apply Hnot. split; [exact Hr | exact Hi].
Qed.

Lemma pass_changes_only_the_turn_witness :
  exists s',
    _on_action_button_clicked "Pass" "1" demo_env2 demo_start = Done s' /\
    initial_cards s' = initial_cards demo_start /\
    player_hands s' = player_hands demo_start /\
    player_scores s' = player_scores demo_start /\
    measure_level s' = measure_level demo_start /\
    qc s' = qc demo_start /\
    game_over s' = false /\
    (current_player_index demo_start = 0%nat ->
     current_player_index s' = 1%nat /\
     current_round s' = current_round demo_start /\
     player_turn_order s' = player_turn_order demo_start) /\
    (current_round demo_start = 1 /\ current_player_index demo_start = 1%nat ->
     current_player_index s' = 0%nat /\
     current_round s' = 2 /\
     player_turn_order s' = order_of_coin (coin demo_env2)).
Proof.
  apply (pass_changes_only_the_turn "1" demo_env2 demo_start).
  - vm_compute. repeat split; auto.
  - vm_compute. intros [H _]. discriminate H.
Defined.


(* ------------------------------------------------------------------ *)
(** ** The final summary *)

Lemma set_fresh {A : Type} (d : Py.dict A) (k : string) (v : A) :
  ~ In k (Py.keys d) -> Py.set d k v = d ++ [(k, v)].
Proof.
  induction d as [|[k' v'] d IH]; intros Hk; [reflexivity|].
  simpl in *. destruct (String.eqb k' k) eqn:E.
  - apply String.eqb_eq in E. tauto.
  - rewrite IH by tauto. reflexivity.
Qed.

Lemma append_assoc (a b c : string) :
  ((a ++ b) ++ c)%string = (a ++ b ++ c)%string.
Proof. induction a as [|x a IH]; simpl; [reflexivity | rewrite IH; reflexivity]. Qed.

Lemma append_empty_r (a : string) : (a ++ "")%string = a.
Proof. induction a as [|x a IH]; simpl; [reflexivity | rewrite IH; reflexivity]. Qed.

Lemma concat_empty_cons (x : string) (l : list string) :
  String.concat "" (x :: l) = (x ++ String.concat "" l)%string.
Proof.
  destruct l as [|y l]; simpl; [rewrite append_empty_r|]; reflexivity.
Qed.

Lemma bust_scan_spec (items : list (string * Z)) :
  forall (msg : string) (valid : Py.dict Z),
    NoDup (Py.keys items) ->
    (forall k, In k (Py.keys items) -> ~ In k (Py.keys valid)) ->
    bust_scan items msg valid
    = ((msg ++ bust_text items)%string, valid ++ not_busted items).
Proof.
  induction items as [|[p sc] items IH]; intros msg valid Hnd Hfresh.
  - simpl. unfold bust_text. simpl. rewrite append_empty_r, app_nil_r.
    reflexivity.
  - cbn [bust_scan]. unfold Py.keys in Hnd, Hfresh. simpl in Hnd, Hfresh.
    inversion Hnd as [|? ? Hp Hnd']; subst.
    unfold bust_text, not_busted. cbn [filter snd].
    destruct (sc >? TARGET_SCORE) eqn:E.
    + assert (E' : (sc <=? TARGET_SCORE) = false)
        by (apply Z.leb_gt; apply Z.gtb_lt in E; exact (Z.gt_lt _ _ (Z.lt_gt _ _ E))).
      rewrite E'. rewrite IH; [|exact Hnd'|intros k Hk; apply Hfresh; auto].
      cbn [map fst snd]. rewrite concat_empty_cons.
      unfold bust_text, not_busted. rewrite !append_assoc. reflexivity.
    + assert (E' : (sc <=? TARGET_SCORE) = true).
      { apply Z.leb_le. destruct (Z.gtb_spec sc TARGET_SCORE); [discriminate|lia]. }
      rewrite E'. rewrite set_fresh by (apply Hfresh; auto).
      rewrite IH; [|exact Hnd'|].
      * unfold bust_text, not_busted. rewrite <- app_assoc. reflexivity.
      * intros k Hk. unfold Py.keys. rewrite map_app, in_app_iff. simpl.
        intros [Hin|[<-|[]]]; [|contradiction].
        apply (Hfresh k); auto.
Qed.

Lemma fold_max_spec (l : list Z) :
  forall x, In (fold_left Z.max l x) (x :: l) /\
            forall y, In y (x :: l) -> y <= fold_left Z.max l x.
Proof.
  induction l as [|a l IH]; intros x.
  - simpl. split; [auto|]. intros y [<-|[]]. lia.
  - cbn [fold_left]. destruct (IH (Z.max x a)) as [Hin Hle]. split.
    + destruct Hin as [Hm|Hm]; [|right; right; exact Hm].
      rewrite <- Hm.
      destruct (Z.max_spec x a) as [[_ Hx]|[_ Hx]]; rewrite Hx;
        [right; left | left]; reflexivity.
    + intros y Hy.
      assert (Z.max x a <= fold_left Z.max l (Z.max x a))
        by (apply Hle; left; reflexivity).
      destruct Hy as [<-|[<-|Hy]]; [lia|lia|].
      apply Hle. right. exact Hy.
Qed.

(** The verdict on a non-empty dictionary of valid scores: the winners are
    the participants at the maximum. *)
Lemma verdict_spec (valid : Py.dict Z) :
  valid <> [] ->
  exists (mx : Z) (winners : list string) (msg : string),
    verdict valid = Done msg /\
    In mx (Py.values valid) /\
    (forall sc, In sc (Py.values valid) -> sc <= mx) /\
    winners = winners_of valid mx /\ winners <> [] /\
    ((1 < List.length winners)%nat ->
     msg = ("It's a TIE between " ++ String.concat ", " winners
            ++ " with " ++ Py.str mx ++ "!")%string) /\
    (forall w, winners = [w] ->
       msg = ("CONGRATULATIONS! " ++ w ++ " wins with a score of "
              ++ Py.str mx ++ "!")%string).
Proof.
  intros Hne. destruct valid as [|[p sc] valid]; [contradiction|].
  unfold verdict, Py.max, Py.values. cbn [map snd bind]. cbv zeta.
  set (mx := fold_left Z.max (map snd valid) sc).
  destruct (fold_max_spec (map snd valid) sc) as [Hin Hle]. fold mx in Hin, Hle.
  remember (winners_of ((p, sc) :: valid) mx) as winners eqn:Ew.
  assert (Hw : winners <> []).
  { change (sc :: map snd valid) with (map snd ((p, sc) :: valid)) in Hin.
    apply in_map_iff in Hin. destruct Hin as ([q sq] & Hsq & Hq).
    simpl in Hsq. subst sq. intros Hnil.
    assert (Hqw : In q winners).
    { rewrite Ew. unfold winners_of. apply in_map_iff. exists (q, mx).
      split; [reflexivity|]. apply filter_In. split; [exact Hq|].
      simpl. apply Z.eqb_refl. }
    rewrite Hnil in Hqw. contradiction. }
  exists mx, winners.
  destruct winners as [|w [|w' ws]]; [contradiction| |].
  - eexists. cbn [List.length Nat.ltb Nat.leb Py.index nth_error bind].
    split; [reflexivity|].
    split; [exact Hin|]. split; [exact Hle|]. split; [exact Ew|].
    split; [discriminate|]. split; [simpl; lia|].
    intros w0 Hw0. injection Hw0 as <-. reflexivity.
  - eexists. cbn [List.length Nat.ltb Nat.leb].
    split; [reflexivity|].
    split; [exact Hin|]. split; [exact Hle|]. split; [exact Ew|].
    split; [discriminate|]. split; [reflexivity|].
    intros w0 Hw0. discriminate Hw0.
Qed.

Lemma winner_message_of_spec (scores : Py.dict Z) :
  NoDup (Py.keys scores) ->
  exists v, verdict (not_busted scores) = Done v /\
            winner_message_of scores = Done (bust_text scores ++ v)%string.
Proof.
  intros Hnd. unfold winner_message_of.
  rewrite bust_scan_spec by (auto; intros k _ []). simpl app. 
  assert (exists v, verdict (not_busted scores) = Done v) as [v Hv].
  { destruct (not_busted scores) as [|x l] eqn:E.
    - eexists; reflexivity.
    - destruct (verdict_spec (x :: l)) as (? & ? & msg & Hm & _);
        [discriminate|]. exists msg. exact Hm. }
  exists v. rewrite Hv. cbn [bind]. split; reflexivity.
Qed.

(** ** The summary completes *)

Lemma verdict_total (valid : Py.dict Z) : exists v, verdict valid = Done v.
Proof.
  destruct valid as [|x l].
  - eexists; reflexivity.
  - destruct (verdict_spec (x :: l)) as (? & ? & msg & Hm & _);
      [discriminate|]. exists msg. exact Hm.
Qed.

Lemma winner_message_total (scores : Py.dict Z) :
  exists msg, winner_message_of scores = Done msg.
Proof.
  unfold winner_message_of.
  destruct (bust_scan scores "" []) as [msg valid].
  destruct (verdict_total valid) as [v Hv]. rewrite Hv. cbn [bind].
  eexists. reflexivity.
Qed.

(** The revealed hands are built when every listed participant has a hand
    and a score, and only then. *)
Lemma revealed_hands_total (players : list string)
    (hands : Py.dict (list Z)) (scores : Py.dict Z) :
  (forall p, In p players -> exists h, Py.get hands p = Done h) ->
  (forall p, In p players -> exists sc, Py.get scores p = Done sc) ->
  forall html, exists out, revealed_hands players hands scores html = Done out.
Proof.
  induction players as [|p players IHp]; intros Hh Hs html.
  - eexists. reflexivity.
  - cbn [revealed_hands].
    destruct (Hh p (or_introl eq_refl)) as [h ->].
    destruct (Hs p (or_introl eq_refl)) as [sc ->]. cbn [bind].
    apply IHp; intros q Hq; [apply Hh | apply Hs]; right; exact Hq.
Qed.

Lemma revealed_hands_keys (players : list string)
    (hands : Py.dict (list Z)) (scores : Py.dict Z) :
  forall html out,
    revealed_hands players hands scores html = Done out ->
    forall p, In p players ->
      (exists h, Py.get hands p = Done h) /\
      (exists sc, Py.get scores p = Done sc).
Proof.
  induction players as [|q players IHp]; intros html out H p Hp;
    [contradiction|].
  cbn [revealed_hands] in H.
  destruct (Py.get hands q) as [h| |] eqn:Eh; try discriminate.
  destruct (Py.get scores q) as [sc| |] eqn:Es; try discriminate.
  cbn [bind] in H.
  destruct Hp as [<-|Hp]; [split; eexists; eassumption|].
  exact (IHp _ _ H p Hp).
Qed.

Lemma final_summary_total (s : game) :
  (forall p, In p participants ->
     exists h, Py.get (player_hands s) p = Done h) ->
  (forall p, In p participants ->
     exists sc, Py.get (player_scores s) p = Done sc) ->
  exists s', _generate_final_summary s = Done s'.
Proof.
  intros Hh Hs. unfold _generate_final_summary.
  cbn [player_scores player_hands _set_round_message set_round_label
       _set_message set_message_label].
  destruct (winner_message_total (player_scores s)) as [msg ->].
  cbn [bind].
  destruct (revealed_hands_total participants _ _ Hh Hs
              "<h4 style='color:black; margin-top:15px;'>--- Revealed Hands ---</h4>")
    as [out Hout].
  unfold participants in Hout. rewrite Hout. cbn [bind].
  eexists. reflexivity.
Qed.

Lemma nodup_filter_keys (f : string * Z -> bool) (d : Py.dict Z) :
  NoDup (Py.keys d) -> NoDup (Py.keys (filter f d)).
Proof.
  unfold Py.keys. induction d as [|[k v] d IH]; intros H; [constructor|].
  inversion H as [|? ? Hn Hd]; subst. cbn [filter].
  destruct (f (k, v)); [|apply IH; exact Hd].
  cbn [map fst]. constructor; [|apply IH; exact Hd].
  intros Hin. apply Hn. apply in_map_iff in Hin.
  destruct Hin as (x & Hx & Hf). apply filter_In in Hf.
  apply in_map_iff. exists x. tauto.
Qed.

Lemma nodup_keys_value (d : Py.dict Z) (k : string) (v v' : Z) :
  NoDup (Py.keys d) -> In (k, v) d -> In (k, v') d -> v = v'.
Proof.
  unfold Py.keys. induction d as [|[k0 v0] d IH]; intros Hnd H H';
    [contradiction|].
  inversion Hnd as [|? ? Hn Hd]; subst.
  destruct H as [H|H]; destruct H' as [H'|H'].
  - congruence.
  - injection H as -> ->. exfalso. apply Hn.
    apply in_map_iff. exists (k, v'). auto.
  - injection H' as -> ->. exfalso. apply Hn.
    apply in_map_iff. exists (k, v). auto.
  - apply IH; assumption.
Qed.

(** ** C6 *)

Lemma filter_filter_and {A : Type} (f g : A -> bool) (l : list A) :
  filter f (filter g l) = filter (fun x => g x && f x) l.
Proof.
  induction l as [|x l IHl]; [reflexivity|]. cbn [filter].
  destruct (g x); cbn [andb filter]; [destruct (f x)|]; rewrite IHl;
    reflexivity.
Qed.

Lemma existsb_eqb_in (p : string) (l : list string) :
  existsb (String.eqb p) l = true <-> In p l.
Proof.
  rewrite existsb_exists. split.
  - intros (q & Hq & E). apply String.eqb_eq in E. subst q. exact Hq.
  - intros H. exists p. split; [exact H | apply String.eqb_refl].
Qed.

(** The names a filter keeps are the keys of the dictionary that it keeps,
    in the order of the dictionary. *)
Lemma kept_in_order (g : string * Z -> bool) (d : Py.dict Z) :
  NoDup (Py.keys d) ->
  map fst (filter g d)
  = filter (fun p => existsb (String.eqb p) (map fst (filter g d)))
      (Py.keys d).
Proof.
  unfold Py.keys. induction d as [|[k v] d IHd]; intros Hnd; [reflexivity|].
  inversion Hnd as [|? ? Hk Hnd']; subst.
  assert (Hsub : forall q, In q (map fst (filter g d)) -> In q (map fst d)).
  { intros q Hq. apply in_map_iff in Hq. destruct Hq as (x & <- & Hx).
    apply filter_In in Hx. apply in_map. apply Hx. }
  cbn [filter map fst]. destruct (g (k, v)).
  - cbn [map fst existsb filter]. rewrite String.eqb_refl. cbn [orb].
    f_equal. rewrite (IHd Hnd') at 1. apply filter_ext_in.
    intros q Hq. destruct (String.eqb q k) eqn:E; [|reflexivity].
    apply String.eqb_eq in E. subst q. contradiction.
  - destruct (existsb (String.eqb k) (map fst (filter g d))) eqn:E.
    + apply existsb_eqb_in, Hsub in E. contradiction.
    + apply IHd. exact Hnd'.
Qed.

(** The verdict in terms of the scores: the winners are the participants
    that have not busted and that no participant that has not busted
    beats, without repetition and in the order of the dictionary. *)
Lemma verdict_winners (scores : Py.dict Z) :
  NoDup (Py.keys scores) ->
  exists (v : string) (winners : list string),
    verdict (not_busted scores) = Done v /\
    NoDup winners /\
    (forall p, In p winners <->
       exists sc, In (p, sc) scores /\ sc <= 17 /\
                  forall q sq, In (q, sq) scores -> sq <= 17 -> sq <= sc) /\
    winners
    = filter (fun p => existsb (String.eqb p) winners) (Py.keys scores) /\
    match winners with
    | [] =>
        (forall p sc, In (p, sc) scores -> sc > 17) /\
        v = "Everyone busted! The house wins."%string
    | [w] =>
        exists mx, In (w, mx) scores /\
          v = ("CONGRATULATIONS! " ++ w ++ " wins with a score of "
               ++ Py.str mx ++ "!")%string
    | _ =>
        exists mx, (forall w, In w winners -> In (w, mx) scores) /\
          v = ("It's a TIE between " ++ String.concat ", " winners
               ++ " with " ++ Py.str mx ++ "!")%string
    end.
Proof.
  intros Hnd.
  assert (Hnb : forall p sc, In (p, sc) (not_busted scores)
                             <-> In (p, sc) scores /\ sc <= 17).
  { intros p sc. unfold not_busted, TARGET_SCORE. rewrite filter_In. simpl.
    rewrite Z.leb_le. tauto. }
  destruct (not_busted scores) as [|x l] eqn:E.
  - (* everyone busted *)
    exists "Everyone busted! The house wins."%string, [].
    split; [reflexivity|]. split; [constructor|].
    assert (Hall : forall p sc, In (p, sc) scores -> sc > 17).
    { intros p sc Hin. destruct (Z_le_gt_dec sc 17) as [Hle|Hgt];
        [|exact Hgt].
      destruct (proj2 (Hnb p sc) (conj Hin Hle)). }
    split.
    { intros p. split; [intros []|].
      intros (sc & Hin & Hle & _). apply Hall in Hin. lia. }
    split; [|split; [exact Hall | reflexivity]].
    clear. induction (Py.keys scores) as [|k ks IHk];
      [reflexivity | exact IHk].
  - rewrite <- E in *.
    assert (Hne : not_busted scores <> []) by (rewrite E; discriminate).
    destruct (verdict_spec _ Hne)
      as (mx & winners & v & Hv & Hmx & Hmax & Hw & Hwne & Htie & Hone).
    exists v, winners. split; [exact Hv|].
    apply in_map_iff in Hmx. destruct Hmx as ([q0 s0] & Hs0 & Hq0).
    simpl in Hs0. subst s0. apply Hnb in Hq0. destruct Hq0 as [Hq0 Hmx17].
    assert (Hwin : forall p, In p winners <-> In (p, mx) scores).
    { intros p. rewrite Hw. unfold winners_of. rewrite in_map_iff. split.
      - intros ([p0 s0] & Hp0 & Hf). simpl in Hp0. subst p0.
        apply filter_In in Hf. destruct Hf as [Hf Heq]. simpl in Heq.
        apply Z.eqb_eq in Heq. subst s0. apply Hnb in Hf. apply Hf.
      - intros Hin. exists (p, mx). split; [reflexivity|].
        apply filter_In. split; [|simpl; apply Z.eqb_refl].
        apply Hnb. split; [exact Hin | exact Hmx17]. }
    assert (Hbest : forall q sq, In (q, sq) scores -> sq <= 17 -> sq <= mx).
    { intros q sq Hin Hle. apply Hmax. unfold Py.values.
      apply in_map_iff. exists (q, sq). split; [reflexivity|].
      apply Hnb. auto. }
    split.
    { rewrite Hw. unfold winners_of.
      apply (nodup_filter_keys (fun ps => snd ps =? mx)).
      apply nodup_filter_keys. exact Hnd. }
    split.
    { intros p. rewrite Hwin. split.
      - intros Hin. exists mx. auto.
      - intros (sc & Hin & Hle & Hall).
        assert (sc = mx)
          by (pose proof (Hbest p sc Hin Hle);
              pose proof (Hall q0 mx Hq0 Hmx17); lia).
        subst sc. exact Hin. }
    split.
    { subst winners. unfold winners_of, not_busted.
      rewrite filter_filter_and. apply kept_in_order. exact Hnd. }
    destruct winners as [|w [|w' ws]]; [contradiction| |].
    + exists mx. split; [apply Hwin; left; reflexivity|].
      apply Hone. reflexivity.
    + exists mx. split; [intros w0 Hw0; apply Hwin; exact Hw0|].
      apply Htie. simpl. lia.
Qed.

(** C6.  The final summary of a game in which the three participants have
    a hand and a score is never a failure, and the message it reports is
    fixed by the scores.  It first announces, in the order of the score
    dictionary, every participant whose score exceeds 17 as busted, and
    nobody else.  The winners are the participants that have not busted
    and that no participant that has not busted beats, each named once, in
    the order of the dictionary.  Without a winner (everybody busted) the
    message ends with the house winning; a single winner is congratulated
    with the winning score; several winners are reported as a tie naming
    all of them. *)
Theorem final_verdict (s : game) :
  NoDup (Py.keys (player_scores s)) ->
  (forall p, In p participants ->
     exists h, Py.get (player_hands s) p = Done h) ->
  (forall p, In p participants ->
     exists sc, Py.get (player_scores s) p = Done sc) ->
  exists (s' : game) (col v : string) (winners : list string),
    let scores := player_scores s in
    let busted := filter (fun ps => snd ps >? 17) scores in
    _generate_final_summary s = Done s' /\
    message_label s'
    = ("<p style='color:" ++ col ++ ";'>"
       ++ String.concat ""
            (map (fun ps => fst ps ++ " BUSTED with " ++ Py.str (snd ps)
                            ++ "! ") busted)
       ++ v ++ "</p>")%string /\
    (col = "green"%string \/ col = "red"%string) /\
    (forall p sc, In (p, sc) busted <-> In (p, sc) scores /\ sc > 17) /\
    NoDup winners /\
    (forall p, In p winners <->
       exists sc, In (p, sc) scores /\ sc <= 17 /\
                  forall q sq, In (q, sq) scores -> sq <= 17 -> sq <= sc) /\
    winners
    = filter (fun p => existsb (String.eqb p) winners) (Py.keys scores) /\
    match winners with
    | [] =>
        (forall p sc, In (p, sc) scores -> sc > 17) /\
        v = "Everyone busted! The house wins."%string
    | [w] =>
        exists mx, In (w, mx) scores /\
          v = ("CONGRATULATIONS! " ++ w ++ " wins with a score of "
               ++ Py.str mx ++ "!")%string
    | _ =>
        exists mx, (forall w, In w winners -> In (w, mx) scores) /\
          v = ("It's a TIE between " ++ String.concat ", " winners
               ++ " with " ++ Py.str mx ++ "!")%string
    end.
Proof.
  intros Hnd Hhands Hscores.
  destruct (final_summary_total s Hhands Hscores) as [s' Hs'].
  destruct (final_summary_done _ _ Hs') as (msg & html & Hmsg & _ & Heq).
  destruct (verdict_winners _ Hnd)
    as (v & winners & Hv & Hwnd & Hwin & Hord & Hcase).
  destruct (winner_message_of_spec _ Hnd) as (v' & Hv' & Hmsg').
  rewrite Hv in Hv'. injection Hv' as <-.
  rewrite Hmsg' in Hmsg. injection Hmsg as <-.
  exists s',
    (if Py.contains "CONGRATULATIONS" (bust_text (player_scores s) ++ v)%string
     then "green"%string else "red"%string), v, winners.
  cbv zeta. split; [exact Hs'|].
  split.
  { rewrite Heq. cbn [message_label _set_message set_message_label].
    rewrite append_assoc. reflexivity. }
  split; [destruct (Py.contains _ _); auto|].
  split.
  { intros p sc. rewrite filter_In. simpl.
    rewrite Z.gtb_lt. split; intros [H1 H2]; split; auto; lia. }
  split; [exact Hwnd|]. split; [exact Hwin|]. split; [exact Hord|].
  exact Hcase.
Qed.

Lemma final_verdict_witness :
  exists (s' : game) (col v : string) (winners : list string),
    let scores := player_scores demo_tie in
    let busted := filter (fun ps => snd ps >? 17) scores in
    _generate_final_summary demo_tie = Done s' /\
    message_label s'
    = ("<p style='color:" ++ col ++ ";'>"
       ++ String.concat ""
            (map (fun ps => fst ps ++ " BUSTED with " ++ Py.str (snd ps)
                            ++ "! ") busted)
       ++ v ++ "</p>")%string /\
    (col = "green"%string \/ col = "red"%string) /\
    (forall p sc, In (p, sc) busted <-> In (p, sc) scores /\ sc > 17) /\
    NoDup winners /\
    (forall p, In p winners <->
       exists sc, In (p, sc) scores /\ sc <= 17 /\
                  forall q sq, In (q, sq) scores -> sq <= 17 -> sq <= sc) /\
    winners
    = filter (fun p => existsb (String.eqb p) winners) (Py.keys scores) /\
    match winners with
    | [] =>
        (forall p sc, In (p, sc) scores -> sc > 17) /\
        v = "Everyone busted! The house wins."%string
    | [w] =>
        exists mx, In (w, mx) scores /\
          v = ("CONGRATULATIONS! " ++ w ++ " wins with a score of "
               ++ Py.str mx ++ "!")%string
    | _ =>
        exists mx, (forall w, In w winners -> In (w, mx) scores) /\
          v = ("It's a TIE between " ++ String.concat ", " winners
               ++ " with " ++ Py.str mx ++ "!")%string
    end.
Proof.
  apply (final_verdict demo_tie).
  - vm_compute. repeat (constructor; [cbn [In]; intuition discriminate|]).
    constructor.
  - intros p [<-|[<-|[<-|[]]]]; eexists; vm_compute; reflexivity.
  - intros p [<-|[<-|[<-|[]]]]; eexists; vm_compute; reflexivity.
Defined.

(** The scenarios of the specification, each the end of a session:
    everybody busts, an exact tie, and a sole winner. *)
Example everyone_busted :
  player_scores demo_bust
  = [("Player 1", 24); ("Player 2", 24); ("Dealer", 21)]%string /\
  message_label demo_bust
  = ("<p style='color:red;'>Player 1 BUSTED with 24! "
     ++ "Player 2 BUSTED with 24! Dealer BUSTED with 21! "
     ++ "Everyone busted! The house wins.</p>")%string.
Proof. split; vm_compute; reflexivity. Qed.

Example exact_tie :
  player_scores demo_tie
  = [("Player 1", 15); ("Player 2", 15); ("Dealer", 14)]%string /\
  message_label demo_tie
  = ("<p style='color:red;'>"
     ++ "It's a TIE between Player 1, Player 2 with 15!</p>")%string.
Proof. split; vm_compute; reflexivity. Qed.

Example sole_winner :
  player_scores demo_final
  = [("Player 1", 7); ("Player 2", 7); ("Dealer", 15)]%string /\
  message_label demo_final
  = ("<p style='color:green;'>"
     ++ "CONGRATULATIONS! Dealer wins with a score of 15!</p>")%string.
Proof. split; vm_compute; reflexivity. Qed.

(** Without a hand for one of the participants the summary raises
    [KeyError], as does the loop over the revealed hands in the
    notebook. *)
Example summary_without_hands :
  _generate_final_summary (set_player_scores demo_scores init)
  = Raise KeyError.
Proof. vm_compute. reflexivity. Qed.


(* ------------------------------------------------------------------ *)
(** * The circuit semantics *)

Local Open Scope R_scope.

(** ** Bits of a basis state *)

Lemma testbit_upd (x q : N) (b : bool) (r : N) :
  N.testbit (upd x q b) r = if (q =? r)%N then b else N.testbit x r.
Proof.
  unfold upd. destruct b.
  - rewrite N.setbit_eqb. destruct (q =? r)%N; reflexivity.
  - rewrite N.clearbit_eqb. destruct (q =? r)%N; simpl;
      [apply andb_false_r | apply andb_true_r].
Qed.

Lemma testbit_upd_same (x q : N) (b : bool) : N.testbit (upd x q b) q = b.
Proof. rewrite testbit_upd, N.eqb_refl. reflexivity. Qed.

Lemma testbit_upd_other (x q : N) (b : bool) (r : N) :
  q <> r -> N.testbit (upd x q b) r = N.testbit x r.
Proof.
  intros H. rewrite testbit_upd. apply N.eqb_neq in H. rewrite H. reflexivity.
Qed.

Lemma upd_upd (x q : N) (b b' : bool) : upd (upd x q b) q b' = upd x q b'.
Proof.
  apply N.bits_inj. intros r. rewrite !testbit_upd.
  destruct (q =? r)%N; reflexivity.
Qed.

Lemma upd_comm (x q r : N) (b c : bool) :
  q <> r -> upd (upd x q b) r c = upd (upd x r c) q b.
Proof.
  intros H. apply N.bits_inj. intros k. rewrite !testbit_upd.
  destruct (q =? k)%N eqn:E1, (r =? k)%N eqn:E2; try reflexivity.
  apply N.eqb_eq in E1, E2. congruence.
Qed.

Lemma upd_testbit (x q : N) : upd x q (N.testbit x q) = x.
Proof.
  apply N.bits_inj. intros r. rewrite testbit_upd.
  destruct (q =? r)%N eqn:E; [|reflexivity].
  apply N.eqb_eq in E. subst r. reflexivity.
Qed.

Lemma upd_same (x q : N) (b : bool) : N.testbit x q = b -> upd x q b = x.
Proof. intros <-. apply upd_testbit. Qed.

(** ** Running a circuit *)

Lemma run_app (m : N) (c c' : circuit) (psi : statevec) :
  run m (c ++ c') psi = run m c' (run m c psi).
Proof. unfold run. apply fold_left_app. Qed.

Lemma run_cons (m : N) (i : instr) (c : circuit) (psi : statevec) :
  run m (i :: c) psi = run m c (apply_instr m i psi).
Proof. reflexivity. Qed.

Lemma run_snoc (m : N) (i : instr) (c : circuit) (psi : statevec) :
  run m (c ++ [i]) psi = apply_instr m i (run m c psi).
Proof. rewrite run_app. reflexivity. Qed.

(** ** Support *)

Lemma sqrt2_inv_neq_0 : / sqrt 2 <> 0.
Proof.
  apply Rinv_neq_0_compat. intros H. apply sqrt_eq_0 in H; lra.
Qed.

Lemma supported_instr (P : N -> Prop) (m : N) (i : instr) (psi : statevec) :
  (forall q, touches i q = true -> ignores q P) ->
  supported P psi -> supported P (apply_instr m i psi).
Proof.
  intros Hig Hs x Hx. destruct i as [|q|theta q|c t|q c]; simpl in Hx.
  - apply Hs. exact Hx.
  - assert (Hq : ignores q P) by (apply Hig; simpl; apply N.eqb_refl).
    unfold apply_h in Hx.
    destruct (Req_dec (psi (upd x q false)) 0) as [E0|E0].
    + destruct (Req_dec (psi (upd x q true)) 0) as [E1|E1].
      * exfalso. apply Hx. rewrite E0, E1. ring.
      * apply (Hq x true). apply Hs. exact E1.
    + apply (Hq x false). apply Hs. exact E0.
  - assert (Hq : ignores q P) by (apply Hig; simpl; apply N.eqb_refl).
    unfold apply_ry in Hx.
    destruct (Req_dec (psi (upd x q false)) 0) as [E0|E0].
    + destruct (Req_dec (psi (upd x q true)) 0) as [E1|E1].
      * exfalso. apply Hx. rewrite E0, E1. destruct (N.testbit x q); ring.
      * apply (Hq x true). apply Hs. exact E1.
    + apply (Hq x false). apply Hs. exact E0.
  - assert (Ht : ignores t P) by (apply Hig; simpl; apply N.eqb_refl).
    unfold apply_cx in Hx. destruct (N.testbit x c).
    + apply (Ht x (negb (N.testbit x t))). apply Hs. exact Hx.
    + apply Hs. exact Hx.
  - unfold collapse in Hx.
    destruct (Bool.eqb (N.testbit x q) (N.testbit m c)); [|contradiction].
    apply Hs. exact Hx.
Qed.

Lemma supported_run (P : N -> Prop) (qs : list N) (m : N) (c : circuit) :
  (forall q, ~ In q qs -> ignores q P) ->
  untouched qs c = true ->
  forall psi, supported P psi -> supported P (run m c psi).
Proof.
  intros Hig. induction c as [|i c IH]; intros Hun psi Hs; [exact Hs|].
  simpl in Hun. apply andb_true_iff in Hun. destruct Hun as [Hi Hc].
  rewrite run_cons. apply IH; [exact Hc|].
  apply supported_instr; [|exact Hs].
  intros q Hq. apply Hig. intros Hin.
  rewrite forallb_forall in Hi. specialize (Hi q Hin).
  rewrite Hq in Hi. discriminate.
Qed.

Lemma ignores_bit (q r : N) (b : bool) :
  q <> r -> ignores q (fun x => N.testbit x r = b).
Proof. intros H x c. rewrite testbit_upd_other by exact H. reflexivity. Qed.

Lemma ignores_pair (q a t : N) :
  q <> a -> q <> t -> ignores q (fun x => N.testbit x a = N.testbit x t).
Proof.
  intros Ha Ht x c. rewrite !testbit_upd_other by assumption. reflexivity.
Qed.

Lemma supported_ket0 (P : N -> Prop) : P 0%N -> supported P ket0.
Proof.
  intros H x Hx. unfold ket0 in Hx.
  destruct (x =? 0)%N eqn:E; [|contradiction].
  apply N.eqb_eq in E. subst x. exact H.
Qed.

(** ** Tracking a control/target pair *)

Lemma touches_false (i : instr) (q : N) :
  touches i q = false -> forall r, touches i r = true -> r <> q.
Proof.
  intros Hf r Hr ->. rewrite Hf in Hr. discriminate.
Qed.

Lemma track1_sound (a t : N) (m : N) (i : instr) (st : link)
    (psi : statevec) :
  a <> t ->
  link_holds a t st psi ->
  link_holds a t (track1 a t st i) (apply_instr m i psi).
Proof.
  intros Hat H. destruct st; simpl; [| |exact I].
  - (* Fresh *)
    assert (Hkeep : touches i t = false ->
                    supported (fun x => N.testbit x t = false)
                      (apply_instr m i psi)).
    { intros Hf. apply supported_instr; [|exact H].
      intros q Hq. apply ignores_bit. exact (touches_false _ _ Hf _ Hq). }
    destruct i as [|q|theta q|c t'|q c]; simpl in *;
      try (destruct (q =? t)%N; [exact I | apply Hkeep; reflexivity]);
      try (apply Hkeep; reflexivity).
    destruct (t' =? t)%N eqn:Et; [|apply Hkeep; reflexivity].
    apply N.eqb_eq in Et. subst t'.
    destruct (c =? a)%N eqn:Ec; [|exact I].
    apply N.eqb_eq in Ec. subst c.
    intros x Hx. unfold apply_cx in Hx.
    destruct (N.testbit x a) eqn:Ea.
    + apply H in Hx. rewrite testbit_upd_same in Hx.
      destruct (N.testbit x t); [reflexivity | discriminate].
    + apply H in Hx. symmetry. exact Hx.
  - (* Linked *)
    destruct (touches i a) eqn:Ea; [exact I|].
    destruct (touches i t) eqn:Et; [exact I|]. simpl.
    apply supported_instr; [|exact H].
    intros q Hq. apply ignores_pair.
    + exact (touches_false _ _ Ea _ Hq).
    + exact (touches_false _ _ Et _ Hq).
Qed.

Lemma track_sound (a t : N) (m : N) (c : circuit) :
  a <> t ->
  forall (st : link) (psi : statevec),
    link_holds a t st psi ->
    link_holds a t (track a t c st) (run m c psi).
Proof.
  intros Hat. induction c as [|i c IH]; intros st psi H; [exact H|].
  change (track a t (i :: c) st) with (track a t c (track1 a t st i)).
  rewrite run_cons. apply IH. apply track1_sound; assumption.
Qed.

Lemma track_app (a t : N) (c c' : circuit) (st : link) :
  track a t (c ++ c') st = track a t c' (track a t c st).
Proof. unfold track. apply fold_left_app. Qed.

Lemma linked_run (a t : N) (m : N) (c : circuit) :
  a <> t ->
  track a t c Fresh = Linked ->
  supported (fun x => N.testbit x a = N.testbit x t) (run m c ket0).
Proof.
  intros Hat Ht.
  pose proof (track_sound a t m c Hat Fresh ket0) as H.
  rewrite Ht in H. apply H. simpl. apply supported_ket0. reflexivity.
Qed.


(** ** Shapes of the circuits the game builds *)

Lemma measured_shape (level : Z) (c : circuit) :
  measured level c = c ++ measurements level.
Proof.
  unfold measurements, measured, _add_measurements_to_circuit.
  cbn [measure_level set_qc set_measure_level _set_round_message
       set_round_label _set_message set_message_label qc].
  destruct (level =? 2)%Z; cbn [qc set_qc _set_message set_message_label];
    unfold qc_measure; rewrite <- !app_assoc; reflexivity.
Qed.

Lemma reshuffle_shape (p : Z) (ch : string) (c : circuit) :
  reshuffle p ch c = c ++ reshuffle_gates p ch.
Proof.
  unfold reshuffle_gates, reshuffle, qc_barrier, qc_h.
  rewrite <- app_assoc. reflexivity.
Qed.

Lemma reshuffles_snoc (history : list (Z * string)) (pc : Z * string)
    (c : circuit) :
  reshuffles (history ++ [pc]) c
  = reshuffles history c ++ reshuffle_gates (fst pc) (snd pc).
Proof.
  unfold reshuffles. rewrite fold_left_app. simpl. apply reshuffle_shape.
Qed.

Lemma reshuffle_gates_cases (p : Z) (ch : string) :
  reshuffle_gates p ch
  = map IH (if String.eqb ch "1"
            then (if (p =? 1)%Z then [9; 10; 11]%N else [15; 16; 17]%N)
            else (if (p =? 1)%Z then [6; 7; 8]%N else [12; 13; 14]%N))
    ++ [IBarrier].
Proof.
  unfold reshuffle_gates, reshuffle, qubits_to_affect, qc_barrier, qc_h.
  destruct (p =? 1)%Z, (String.eqb ch "1"); reflexivity.
Qed.

(** ** What a shot can return *)

Lemma run_measurements (m : N) (ms : circuit) :
  only_measures ms = true ->
  forall (psi : statevec) (x : N),
    run m ms psi x <> 0 ->
    psi x <> 0 /\
    forall q c, In (IMeasure q c) ms -> N.testbit x q = N.testbit m c.
Proof.
  induction ms as [|i ms IH]; intros Hm psi x Hx.
  - split; [exact Hx | intros q c []].
  - simpl in Hm. apply andb_true_iff in Hm. destruct Hm as [Hi Hms].
    destruct i as [| | | |q c]; try discriminate.
    rewrite run_cons in Hx. destruct (IH Hms _ _ Hx) as [Hc Hrest].
    simpl in Hc. unfold collapse in Hc.
    destruct (Bool.eqb (N.testbit x q) (N.testbit m c)) eqn:E;
      [|contradiction].
    apply Bool.eqb_prop in E. split; [exact Hc|].
    intros q' c' [Heq|Hin]; [|apply Hrest; exact Hin].
    injection Heq as <- <-. exact E.
Qed.

(** In a possible shot, the measured qubits of some basis state with
    non-zero amplitude before the measurements are the bits of the
    memory. *)
Lemma possible_measured (level : Z) (c : circuit) (m : N) :
  possible (measured level c) m ->
  exists x, run m c ket0 x <> 0 /\
    forall q cb, In (IMeasure q cb) (measurements level) ->
                 N.testbit x q = N.testbit m cb.
Proof.
  intros [_ [x Hx]]. rewrite measured_shape, run_app in Hx.
  exists x. apply run_measurements; [|exact Hx].
  unfold measurements, measured, _add_measurements_to_circuit.
  cbn [measure_level set_qc set_measure_level _set_round_message
       set_round_label _set_message set_message_label qc].
  destruct (level =? 2)%Z; reflexivity.
Qed.

Lemma measurements_slot1 (level : Z) :
  In (IMeasure 9 9) (measurements level) /\
  In (IMeasure 10 10) (measurements level) /\
  In (IMeasure 11 11) (measurements level) /\
  In (IMeasure 15 15) (measurements level) /\
  In (IMeasure 16 16) (measurements level) /\
  In (IMeasure 17 17) (measurements level).
Proof.
  unfold measurements, measured, _add_measurements_to_circuit.
  cbn [measure_level set_qc set_measure_level _set_round_message
       set_round_label _set_message set_message_label qc].
  destruct (level =? 2)%Z; cbn; intuition.
Qed.

Lemma measurements_slot2 :
  In (IMeasure 6 6) (measurements 3) /\
  In (IMeasure 7 7) (measurements 3) /\
  In (IMeasure 8 8) (measurements 3) /\
  In (IMeasure 12 12) (measurements 3) /\
  In (IMeasure 13 13) (measurements 3) /\
  In (IMeasure 14 14) (measurements 3).
Proof. cbn. intuition. Qed.

(** ** The links of the prepared circuit *)

Lemma prepared_links (angles : nat -> R) :
  track 9 17 (prepared angles) Fresh = Linked /\
  track 10 16 (prepared angles) Fresh = Linked /\
  track 11 15 (prepared angles) Fresh = Linked /\
  track 6 14 (prepared angles) Fresh = Linked /\
  track 7 13 (prepared angles) Fresh = Linked /\
  track 8 12 (prepared angles) Fresh = Linked.
Proof. repeat split; reflexivity. Qed.

(** A Re-Shuffle of card 2 leaves the pairs of card 1 linked, and the
    other way round. *)
Lemma reshuffle_keeps_slot1 (p : Z) (ch : string) (c : circuit) (a t : N) :
  In (a, t) [(9, 17); (10, 16); (11, 15)]%N ->
  ch <> "1"%string ->
  track a t c Fresh = Linked ->
  track a t (c ++ reshuffle_gates p ch) Fresh = Linked.
Proof.
  intros Hin Hch Hc. rewrite track_app, Hc, reshuffle_gates_cases.
  apply String.eqb_neq in Hch. rewrite Hch.
  destruct (p =? 1)%Z;
    destruct Hin as [E|[E|[E|[]]]]; injection E as <- <-; reflexivity.
Qed.

Lemma reshuffle_keeps_slot2 (p : Z) (ch : string) (c : circuit) (a t : N) :
  In (a, t) [(6, 14); (7, 13); (8, 12)]%N ->
  ch = "1"%string ->
  track a t c Fresh = Linked ->
  track a t (c ++ reshuffle_gates p ch) Fresh = Linked.
Proof.
  intros Hin -> Hc. rewrite track_app, Hc, reshuffle_gates_cases.
  cbn [String.eqb Ascii.eqb Bool.eqb].
  destruct (p =? 1)%Z;
    destruct Hin as [E|[E|[E|[]]]]; injection E as <- <-; reflexivity.
Qed.

Lemma reshuffles_keep_slot1 (angles : nat -> R) (history : list (Z * string))
    (a t : N) :
  In (a, t) [(9, 17); (10, 16); (11, 15)]%N ->
  Forall (fun pc => snd pc <> "1"%string) history ->
  track a t (reshuffles history (prepared angles)) Fresh = Linked.
Proof.
  intros Hin. induction history as [|pc history IH] using rev_ind; intros Hf.
  - destruct (prepared_links angles) as (H1 & H2 & H3 & _).
    destruct Hin as [E|[E|[E|[]]]]; injection E as <- <-; assumption.
  - apply Forall_app in Hf. destruct Hf as [Hf Hpc].
    inversion Hpc as [|? ? Hch _]; subst.
    rewrite reshuffles_snoc. apply reshuffle_keeps_slot1; auto.
Qed.

Lemma reshuffles_keep_slot2 (angles : nat -> R) (history : list (Z * string))
    (a t : N) :
  In (a, t) [(6, 14); (7, 13); (8, 12)]%N ->
  Forall (fun pc => snd pc = "1"%string) history ->
  track a t (reshuffles history (prepared angles)) Fresh = Linked.
Proof.
  intros Hin. induction history as [|pc history IH] using rev_ind; intros Hf.
  - destruct (prepared_links angles) as (_ & _ & _ & H1 & H2 & H3).
    destruct Hin as [E|[E|[E|[]]]]; injection E as <- <-; assumption.
  - apply Forall_app in Hf. destruct Hf as [Hf Hpc].
    inversion Hpc as [|? ? Hch _]; subst.
    rewrite reshuffles_snoc. apply reshuffle_keeps_slot2; auto.
Qed.

(** ** Reading the cards off the memory *)

Lemma memory_string_bits (m : N) :
  memory_string m
  = (bits [N.testbit m 17; N.testbit m 16; N.testbit m 15;
           N.testbit m 14; N.testbit m 13; N.testbit m 12]
     ++ " "
     ++ bits [N.testbit m 11; N.testbit m 10; N.testbit m 9;
              N.testbit m 8; N.testbit m 7; N.testbit m 6]
     ++ " "
     ++ bits [N.testbit m 5; N.testbit m 4; N.testbit m 3;
              N.testbit m 2; N.testbit m 1; N.testbit m 0])%string.
Proof. reflexivity. Qed.

Lemma bitrev3_card3 (b0 b1 b2 : bool) :
  (card3 b2 b1 b0 = bitrev3 (card3 b0 b1 b2 - 1) + 1)%Z.
Proof. destruct b0, b1, b2; reflexivity. Qed.


(** ** Amplitudes that do not vanish *)

Lemma run_back (m : N) (c : circuit) : run m c ket0 = back m (rev c).
Proof.
  unfold run. rewrite <- fold_left_rev_right.
  induction (rev c) as [|i rc IH]; simpl; [reflexivity | rewrite IH; reflexivity].
Qed.

Lemma back_run (m : N) (rc : circuit) : back m rc = run m (rev rc) ket0.
Proof. rewrite run_back, rev_involutive. reflexivity. Qed.

Lemma unsupported_zero (P : N -> Prop) (psi : statevec) (x : N) :
  supported P psi -> ~ P x -> psi x = 0.
Proof.
  intros Hs Hn. destruct (Req_dec (psi x) 0) as [E|E]; [exact E|].
  exfalso. apply Hn. apply Hs. exact E.
Qed.

Lemma nz_measure (m q c : N) (rest : circuit) (x : N) :
  Bool.eqb (N.testbit x q) (N.testbit m c) = true ->
  back m rest x <> 0 -> back m (IMeasure q c :: rest) x <> 0.
Proof. intros E H. simpl. unfold collapse. rewrite E. exact H. Qed.

Lemma nz_cx (m c t : N) (rest : circuit) (x : N) :
  back m rest (if N.testbit x c then upd x t (negb (N.testbit x t)) else x)
  <> 0 ->
  back m (ICx c t :: rest) x <> 0.
Proof. intros H. exact H. Qed.

Lemma apply_ry_0 (theta : R) (q : N) (psi : statevec) (x : N) :
  theta = 0 -> apply_ry theta q psi x = psi x.
Proof.
  intros ->. unfold apply_ry.
  replace (0 / 2) with 0 by lra. rewrite cos_0, sin_0.
  destruct (N.testbit x q) eqn:E.
  - rewrite (upd_same x q true E). ring.
  - rewrite (upd_same x q false E). ring.
Qed.

Lemma nz_ry_0 (m : N) (theta : R) (q : N) (rest : circuit) (x : N) :
  theta = 0 -> back m rest x <> 0 -> back m (IRy theta q :: rest) x <> 0.
Proof. intros Ht H. simpl. rewrite apply_ry_0 by exact Ht. exact H. Qed.

Lemma fresh_back (m q : N) (rest : circuit) :
  untouched [q] (rev rest) = true ->
  supported (fun y => N.testbit y q = false) (back m rest).
Proof.
  intros H. rewrite back_run.
  apply (supported_run _ [q]); [|exact H|apply supported_ket0; reflexivity].
  intros r Hr. apply ignores_bit. intros ->. apply Hr. left. reflexivity.
Qed.


(** A Hadamard on a qubit that is still |0>. *)
Lemma nz_h_fresh (m q : N) (rest : circuit) (x : N) :
  untouched [q] (rev rest) = true ->
  back m rest (upd x q false) <> 0 -> back m (IH q :: rest) x <> 0.
Proof.
  intros Hu H. pose proof (fresh_back m q rest Hu) as Hs.
  simpl. unfold apply_h.
  rewrite (unsupported_zero _ _ (upd x q true) Hs)
    by (rewrite testbit_upd_same; discriminate).
  rewrite Rmult_0_r, Rplus_0_r.
  apply Rmult_integral_contrapositive_currified; [apply sqrt2_inv_neq_0 | exact H].
Qed.


Lemma ket0_0 : ket0 0%N <> 0.
Proof. unfold ket0. simpl. lra. Qed.

(** One step back through the circuit, from the amplitude of a basis state
    after an instruction to an amplitude before it.  A Hadamard is first
    tried as acting on a qubit that is still |0>; [nz_linked t] handles one
    on a qubit linked to [t]. *)
Ltac nz_point :=
  match goal with
  | |- back ?m ?rest ?x <> 0 =>
      let x' := eval vm_compute in x in change (back m rest x' <> 0)
  end.

Ltac nz_step :=
  match goal with
  | |- back ?m (IBarrier :: ?rest) ?x <> 0 => change (back m rest x <> 0)
  | |- back ?m (IMeasure ?q ?c :: ?rest) ?x <> 0 =>
      apply (nz_measure m q c rest x); [vm_compute; reflexivity|]
  | |- back ?m (ICx ?c ?t :: ?rest) ?x <> 0 => apply (nz_cx m c t rest x)
  | |- back ?m (IRy ?theta ?q :: ?rest) ?x <> 0 =>
      apply (nz_ry_0 m theta q rest x); [reflexivity|]
  | |- back ?m (IH ?q :: ?rest) ?x <> 0 =>
      apply (nz_h_fresh m q rest x); [vm_compute; reflexivity|]
  end;
  nz_point.



(** ** The hands a memory gives *)

Lemma process_memory (m : N) (s s' : game) :
  _process_quantum_results (memory_string m) s = Done s' ->
  exists (i1 i2 : Z) (t1 t2 : list Z),
    Py.get (player_hands s') "Player 1"
      = Done (i1 :: card3 (N.testbit m 11) (N.testbit m 10) (N.testbit m 9)
                 :: t1) /\
    Py.get (player_hands s') "Player 2"
      = Done (i2 :: card3 (N.testbit m 17) (N.testbit m 16) (N.testbit m 15)
                 :: t2) /\
    (measure_level s <> 3%Z -> t1 = [] /\ t2 = []) /\
    (measure_level s = 3%Z ->
     t1 = [card3 (N.testbit m 8) (N.testbit m 7) (N.testbit m 6)] /\
     t2 = [card3 (N.testbit m 14) (N.testbit m 13) (N.testbit m 12)]).
Proof.
  intros H.
  destruct (process_shape _ _ _ H)
    as (i1 & i2 & id & _ & _ & _ & _ & _ & _ & H1 & H2 & Hd & _).
  rewrite memory_string_bits in H.
  rewrite (process_hands s i1 i2 id) in H by assumption.
  injection H as <-. cbn [player_hands set_player_hands set_player_scores].
  exists i1, i2. do 2 eexists.
  split; [reflexivity|]. split; [reflexivity|].
  destruct (measure_level s =? 3)%Z eqn:E.
  - apply Z.eqb_eq in E. split; [intros Hn; contradiction|].
    intros _. split; reflexivity.
  - apply Z.eqb_neq in E. split; [|intros He; contradiction].
    intros _. split; reflexivity.
Qed.


(** * The claims about the circuit *)

(** ** C2 *)





Lemma linked_memory_possible :
  possible (qc demo_final) demo_linked_memory.
Proof.
  assert (Hq : qc demo_final = measured 3 (prepared demo_angles))
    by (vm_compute; reflexivity).
  rewrite Hq. split.
  - intros k Hk. vm_compute.
    assert (Hk' : (k < 18)%N).
    { destruct (N.lt_ge_cases k 18) as [Hlt|Hge]; [exact Hlt|].
      rewrite N.bits_above_log2 in Hk; [discriminate|].
      apply N.lt_le_trans with 18%N; [vm_compute; reflexivity | exact Hge]. }
    assert (Hcases : In k (map N.of_nat (seq 0 18))).
    { apply in_map_iff. exists (N.to_nat k). split; [apply N2Nat.id|].
      apply in_seq. lia. }
    simpl in Hcases.
    repeat (destruct Hcases as [<-|Hcases]; [tauto|]). contradiction.
  - exists demo_linked_memory. rewrite run_back.
    match goal with |- context [rev ?c] =>
      let l := eval vm_compute in (rev c) in change (rev c) with l end.
    nz_point. repeat nz_step. exact ket0_0.
Qed.


(** ** Hadamard is an involution *)

Lemma sqrt2_inv_sq : / sqrt 2 * / sqrt 2 = / 2.
Proof.
  rewrite <- Rinv_mult. rewrite sqrt_sqrt by lra. reflexivity.
Qed.

Lemma apply_h_involutive (q : N) (psi : statevec) :
  apply_h q (apply_h q psi) = psi.
Proof.
  apply functional_extensionality. intros x. unfold apply_h.
  rewrite !testbit_upd_same, !upd_upd.
  set (u := psi (upd x q false)). set (v := psi (upd x q true)).
  destruct (N.testbit x q) eqn:E.
  - replace (psi x) with v by (unfold v; rewrite (upd_same x q true E); reflexivity).
    transitivity (/ sqrt 2 * / sqrt 2 * (2 * v)); [ring|].
    rewrite sqrt2_inv_sq. field.
  - replace (psi x) with u by (unfold u; rewrite (upd_same x q false E); reflexivity).
    transitivity (/ sqrt 2 * / sqrt 2 * (2 * u)); [ring|].
    rewrite sqrt2_inv_sq. field.
Qed.

Lemma apply_h_comm (q r : N) (psi : statevec) :
  apply_h q (apply_h r psi) = apply_h r (apply_h q psi).
Proof.
  destruct (N.eq_dec q r) as [->|Hqr]; [reflexivity|].
  apply functional_extensionality. intros x. unfold apply_h.
  rewrite !(testbit_upd_other _ q _ r) by exact Hqr.
  rewrite !(testbit_upd_other _ r _ q) by congruence.
  rewrite !(upd_comm _ r q) by congruence.
  destruct (N.testbit x q), (N.testbit x r); ring.
Qed.

Lemma h_each_cons (q : N) (qs : list N) (psi : statevec) :
  h_each (q :: qs) psi = h_each qs (apply_h q psi).
Proof. reflexivity. Qed.

Lemma h_each_comm (q : N) (qs : list N) :
  forall psi, apply_h q (h_each qs psi) = h_each qs (apply_h q psi).
Proof.
  induction qs as [|a qs IH]; intros psi; [reflexivity|].
  rewrite !h_each_cons, IH, apply_h_comm. reflexivity.
Qed.

Lemma h_each_involutive (qs : list N) :
  forall psi, h_each qs (h_each qs psi) = psi.
Proof.
  induction qs as [|a qs IH]; intros psi; [reflexivity|].
  rewrite !h_each_cons, <- h_each_comm, IH. apply apply_h_involutive.
Qed.

Lemma run_h_each (m : N) (qs : list N) (psi : statevec) :
  run m (map IH qs ++ [IBarrier]) psi = h_each qs psi.
Proof.
  rewrite run_snoc. simpl. revert psi.
  induction qs as [|q qs IH]; intros psi; [reflexivity|].
  simpl map. rewrite run_cons, h_each_cons. apply IH.
Qed.

Lemma run_reshuffle (m : N) (p : Z) (ch : string) (c : circuit)
    (psi : statevec) :
  run m (reshuffle p ch c) psi
  = h_each (qubits_to_affect p ch) (run m c psi).
Proof.
  rewrite reshuffle_shape, run_app.
  unfold reshuffle_gates, reshuffle, qc_barrier, qc_h. simpl app.
  apply run_h_each.
Qed.

(** Two Re-Shuffles of the same card by the same player cancel. *)
Lemma run_reshuffle_twice (m : N) (p : Z) (ch : string) (c : circuit)
    (psi : statevec) :
  run m (reshuffle p ch (reshuffle p ch c)) psi = run m c psi.
Proof. rewrite !run_reshuffle. apply h_each_involutive. Qed.


(** ** The card of a basis state *)

Lemma slot_card_spec (x : N) :
  slot_card "Player 1" 1 x
    = Done (card3 (N.testbit x 11) (N.testbit x 10) (N.testbit x 9)) /\
  slot_card "Player 1" 2 x
    = Done (card3 (N.testbit x 8) (N.testbit x 7) (N.testbit x 6)) /\
  slot_card "Player 2" 1 x
    = Done (card3 (N.testbit x 17) (N.testbit x 16) (N.testbit x 15)) /\
  slot_card "Player 2" 2 x
    = Done (card3 (N.testbit x 14) (N.testbit x 13) (N.testbit x 12)).
Proof.
  unfold slot_card. rewrite memory_string_bits.
  rewrite (process_hands probe 0 0 0) by reflexivity.
  repeat split; reflexivity.
Qed.

(** ** Sums over basis states *)

Lemma sum_over_ext (qs : list N) (f g : N -> R) :
  (forall x, f x = g x) -> forall x, sum_over qs f x = sum_over qs g x.
Proof.
  intros H. induction qs as [|q qs IH]; intros x; simpl;
    [apply H | rewrite !IH; reflexivity].
Qed.


(** ** A qubit prepared by H and a quarter turn reads 1 *)

Lemma balanced_h_fresh (q : N) (psi : statevec) :
  supported (fun y => N.testbit y q = false) psi ->
  balanced q (apply_h q psi).
Proof.
  intros Hs x. unfold apply_h. rewrite !upd_upd.
  rewrite (unsupported_zero _ psi (upd x q true) Hs)
    by (rewrite testbit_upd_same; discriminate).
  ring.
Qed.

Lemma balanced_instr (q m : N) (i : instr) (psi : statevec) :
  avoids i q = true ->
  balanced q psi -> balanced q (apply_instr m i psi).
Proof.
  intros Ha Hb x.
  destruct i as [|r|theta r|c t|r c]; cbn [apply_instr avoids touches] in *.
  - apply Hb.
  - apply negb_true_iff, N.eqb_neq in Ha. unfold apply_h.
    rewrite !(testbit_upd_other _ q _ r) by congruence.
    rewrite !(upd_comm _ q r) by congruence. rewrite !Hb. reflexivity.
  - apply negb_true_iff, N.eqb_neq in Ha. unfold apply_ry.
    rewrite !(testbit_upd_other _ q _ r) by congruence.
    rewrite !(upd_comm _ q r) by congruence. rewrite !Hb. reflexivity.
  - apply andb_true_iff in Ha. destruct Ha as [Hc Ht].
    apply negb_true_iff, N.eqb_neq in Hc, Ht. unfold apply_cx.
    rewrite !(testbit_upd_other _ q _ c), !(testbit_upd_other _ q _ t)
      by congruence.
    destruct (N.testbit x c).
    + rewrite !(upd_comm _ q t) by congruence. apply Hb.
    + apply Hb.
  - apply negb_true_iff, N.eqb_neq in Ha. unfold collapse.
    rewrite !(testbit_upd_other _ q _ r) by congruence.
    destruct (Bool.eqb (N.testbit x r) (N.testbit m c)); [apply Hb | reflexivity].
Qed.



Lemma back_balanced (q m : N) (i : instr) (rest : circuit) :
  avoids i q = true ->
  balanced q (back m rest) -> balanced q (back m (i :: rest)).
Proof. intros Ha Hb. simpl. apply balanced_instr; assumption. Qed.

Lemma back_balanced_h (q m : N) (rest : circuit) :
  untouched [q] (rev rest) = true -> balanced q (back m (IH q :: rest)).
Proof. intros Hu. simpl. apply balanced_h_fresh, fresh_back. exact Hu. Qed.





(** ** C1: the counterexample *)


(** ** Reordering sums *)

Lemma sum_over_swap (a b : N) (qs : list N) (f : N -> R) (x : N) :
  sum_over (a :: b :: qs) f x = sum_over (b :: a :: qs) f x.
Proof.
  destruct (N.eq_dec a b) as [->|Hab]; [reflexivity|].
  cbn [sum_over]. rewrite !(upd_comm x a b) by exact Hab. ring.
Qed.

Lemma sum_over_perm (qs qs' : list N) :
  Permutation qs qs' ->
  forall (f : N -> R) (x : N), sum_over qs f x = sum_over qs' f x.
Proof.
  induction 1 as [|a l l' _ IH|a b l|l l' l'' _ IH1 _ IH2]; intros f x.
  - reflexivity.
  - cbn [sum_over]. rewrite !IH. reflexivity.
  - apply sum_over_swap.
  - rewrite IH1. apply IH2.
Qed.

Lemma sum_over_snoc (qs : list N) (q : N) (f : N -> R) :
  forall x, sum_over (qs ++ [q]) f x
            = sum_over qs (fun y => f (upd y q false) + f (upd y q true)) x.
Proof.
  induction qs as [|a qs IH]; intros x; cbn [sum_over app]; [reflexivity|].
  rewrite !IH. reflexivity.
Qed.

(** Any qubit of the list can be summed innermost. *)
Lemma sum_over_inner (qs : list N) (q : N) :
  In q qs ->
  exists qs', forall (f : N -> R) (x : N),
    sum_over qs f x
    = sum_over qs' (fun y => f (upd y q false) + f (upd y q true)) x.
Proof.
  intros Hin. apply in_split in Hin. destruct Hin as (l1 & l2 & ->).
  exists (l1 ++ l2). intros f x.
  rewrite <- sum_over_snoc. apply sum_over_perm.
  rewrite <- app_assoc. apply Permutation_app_head.
  change (q :: l2) with ([q] ++ l2). apply Permutation_app_comm.
Qed.

Lemma sum_over_scal (qs : list N) (k : R) (f : N -> R) :
  forall x, sum_over qs (fun y => k * f y) x = k * sum_over qs f x.
Proof.
  induction qs as [|a qs IH]; intros x; cbn [sum_over]; [reflexivity|].
  rewrite !IH. ring.
Qed.

(** ** The norm is preserved by gates *)

Lemma sq_h_pair (q : N) (psi : statevec) (y : N) :
  sq (apply_h q psi) (upd y q false) + sq (apply_h q psi) (upd y q true)
  = sq psi (upd y q false) + sq psi (upd y q true).
Proof.
  unfold sq, apply_h. rewrite !testbit_upd_same, !upd_upd.
  set (u := psi (upd y q false)). set (v := psi (upd y q true)).
  transitivity (/ sqrt 2 * / sqrt 2 * (2 * (u * u + v * v))); [ring|].
  rewrite sqrt2_inv_sq. field.
Qed.

Lemma sq_ry_pair (theta : R) (q : N) (psi : statevec) (y : N) :
  sq (apply_ry theta q psi) (upd y q false)
  + sq (apply_ry theta q psi) (upd y q true)
  = sq psi (upd y q false) + sq psi (upd y q true).
Proof.
  unfold sq, apply_ry. rewrite !testbit_upd_same, !upd_upd.
  set (u := psi (upd y q false)). set (v := psi (upd y q true)).
  pose proof (sin2_cos2 (theta / 2)) as H. unfold Rsqr in H.
  set (s := sin (theta / 2)) in *. set (c := cos (theta / 2)) in *.
  transitivity ((s * s + c * c) * (u * u + v * v)); [ring|].
  rewrite H. ring.
Qed.

Lemma sq_cx_pair (c t : N) (psi : statevec) (y : N) :
  c <> t ->
  sq (apply_cx c t psi) (upd y t false) + sq (apply_cx c t psi) (upd y t true)
  = sq psi (upd y t false) + sq psi (upd y t true).
Proof.
  intros Hct. unfold sq, apply_cx.
  rewrite !(testbit_upd_other _ t _ c) by congruence.
  rewrite !testbit_upd_same, !upd_upd.
  destruct (N.testbit y c); cbn [negb]; ring.
Qed.

Lemma norm_instr (qs : list N) (m : N) (i : instr) (psi : statevec) (x : N) :
  gate_on qs i = true ->
  sum_over qs (sq (apply_instr m i psi)) x = sum_over qs (sq psi) x.
Proof.
  intros Hg. destruct i as [|q|theta q|c t|q c]; simpl in Hg.
  - reflexivity.
  - apply existsb_exists in Hg. destruct Hg as (q' & Hin & E).
    apply N.eqb_eq in E. subst q'.
    destruct (sum_over_inner qs q Hin) as (qs' & Hs).
    rewrite !Hs. apply sum_over_ext. intros y. apply sq_h_pair.
  - apply existsb_exists in Hg. destruct Hg as (q' & Hin & E).
    apply N.eqb_eq in E. subst q'.
    destruct (sum_over_inner qs q Hin) as (qs' & Hs).
    rewrite !Hs. apply sum_over_ext. intros y. apply sq_ry_pair.
  - apply andb_true_iff in Hg. destruct Hg as [Hg Hct].
    apply negb_true_iff, N.eqb_neq in Hct.
    apply existsb_exists in Hg. destruct Hg as (q' & Hin & E).
    apply N.eqb_eq in E. subst q'.
    destruct (sum_over_inner qs t Hin) as (qs' & Hs).
    rewrite !Hs. apply sum_over_ext. intros y. apply sq_cx_pair. exact Hct.
  - discriminate.
Qed.

Lemma norm_run (qs : list N) (m : N) (c : circuit) :
  gates_on qs c = true ->
  forall (psi : statevec) (x : N),
    sum_over qs (sq (run m c psi)) x = sum_over qs (sq psi) x.
Proof.
  induction c as [|i c IH]; intros Hg psi x; [reflexivity|].
  simpl in Hg. apply andb_true_iff in Hg. destruct Hg as [Hi Hc].
  rewrite run_cons, IH by exact Hc. apply norm_instr. exact Hi.
Qed.

Lemma sum_over_ket0_off (qs : list N) (q : N) :
  ~ In q qs ->
  forall x, N.testbit x q = true -> sum_over qs (sq ket0) x = 0.
Proof.
  induction qs as [|a qs IH]; intros Hq x Hx.
  - simpl. unfold sq, ket0. destruct (x =? 0)%N eqn:E; [|ring].
    apply N.eqb_eq in E. subst x. rewrite N.bits_0 in Hx. discriminate.
  - assert (Haq : a <> q) by (intros ->; apply Hq; left; reflexivity).
    assert (Hq' : ~ In q qs) by (intros H; apply Hq; right; exact H).
    cbn [sum_over].
    rewrite !IH; try exact Hq'; try ring;
      rewrite testbit_upd_other by exact Haq; exact Hx.
Qed.

Lemma sum_over_ket0 (qs : list N) :
  NoDup qs -> sum_over qs (sq ket0) 0 = 1.
Proof.
  induction 1 as [|q qs Hq _ IH].
  - simpl. unfold sq, ket0. simpl. ring.
  - cbn [sum_over]. replace (upd 0 q false) with 0%N
      by (symmetry; apply upd_same; apply N.bits_0).
    rewrite IH, (sum_over_ket0_off qs q Hq); [ring|].
    apply testbit_upd_same.
Qed.

Lemma norm2_run (c : circuit) :
  gates_on all_qubits c = true -> norm2 (run 0 c ket0) = 1.
Proof.
  intros Hg. unfold norm2. change (fun x => run 0 c ket0 x * run 0 c ket0 x)
    with (sq (run 0 c ket0)).
  rewrite norm_run by exact Hg. apply sum_over_ket0.
  unfold all_qubits. vm_compute.
  repeat (constructor; [simpl; intuition discriminate|]). constructor.
Qed.


(** ** A Hadamard on one end of a linked pair *)

Lemma sq_h_linked (a t : N) (psi : statevec) (x : N) :
  a <> t ->
  supported (fun y => N.testbit y a = N.testbit y t) psi ->
  sq (apply_h a psi) x = / 2 * sq psi (upd x a (N.testbit x t)).
Proof.
  intros Hat Hs. unfold sq, apply_h.
  assert (Hz : psi (upd x a (negb (N.testbit x t))) = 0).
  { apply (unsupported_zero _ _ _ Hs).
    rewrite testbit_upd_same, testbit_upd_other by exact Hat.
    destruct (N.testbit x t); discriminate. }
  rewrite <- sqrt2_inv_sq.
  destruct (N.testbit x t); cbn [negb] in Hz; rewrite Hz;
    destruct (N.testbit x a); ring.
Qed.

(** Summing out a qubit [q] that was linked to [r] before its Hadamard:
    whatever value [beta] is asked of it, half of the weight remains. *)
Lemma marginal_step (q r : N) (qs : list N) (W : N -> R) (psi : statevec)
    (beta : bool) (x0 : N) :
  In q qs -> q <> r ->
  (forall x b, W (upd x q b) = W x) ->
  supported (fun y => N.testbit y q = N.testbit y r) psi ->
  sum_over qs
    (fun x => if Bool.eqb (N.testbit x q) beta
              then W x * sq (apply_h q psi) x else 0) x0
  = / 2 * sum_over qs (fun x => W x * sq psi x) x0.
Proof.
  intros Hin Hqr HW Hs.
  destruct (sum_over_inner qs q Hin) as (qs' & Hinner).
  rewrite !Hinner, <- sum_over_scal. apply sum_over_ext. intros y.
  rewrite !testbit_upd_same, !HW.
  rewrite !(sq_h_linked q r) by assumption.
  rewrite !upd_upd, !(testbit_upd_other _ q _ r) by exact Hqr.
  assert (Hz : sq psi (upd y q (negb (N.testbit y r))) = 0).
  { unfold sq. rewrite (unsupported_zero _ _ _ Hs); [ring|].
    rewrite testbit_upd_same, testbit_upd_other by exact Hqr.
    destruct (N.testbit y r); discriminate. }
  destruct (N.testbit y r), beta; cbn [negb Bool.eqb] in *; rewrite Hz; ring.
Qed.

Lemma card3_code (v : Z) (b0 b1 b2 : bool) :
  (1 <= v <= 8)%Z ->
  (card3 b0 b1 b2 =? v)%Z
  = Bool.eqb b0 (code_bit v 0) && (Bool.eqb b1 (code_bit v 1)
                                   && Bool.eqb b2 (code_bit v 2)).
Proof.
  intros Hv.
  assert (Hc : In v [1; 2; 3; 4; 5; 6; 7; 8]%Z) by (simpl; lia).
  simpl in Hc.
  repeat (destruct Hc as [<-|Hc];
          [destruct b0, b1, b2; reflexivity|]).
  contradiction.
Qed.

(** Three Hadamards on qubits that are each linked to a partner spread the
    card they encode evenly over the eight values. *)
Lemma uniform_after_h3 (q1 q2 q3 r1 r2 r3 : N) (psi : statevec) (v : Z) :
  NoDup [q1; q2; q3; r1; r2; r3] ->
  In q1 all_qubits -> In q2 all_qubits -> In q3 all_qubits ->
  supported (fun y => N.testbit y q1 = N.testbit y r1) psi ->
  supported (fun y => N.testbit y q2 = N.testbit y r2) psi ->
  supported (fun y => N.testbit y q3 = N.testbit y r3) psi ->
  norm2 psi = 1 ->
  (1 <= v <= 8)%Z ->
  sum_over all_qubits
    (fun x =>
       if (card3 (N.testbit x q3) (N.testbit x q2) (N.testbit x q1) =? v)%Z
       then sq (h_each [q1; q2; q3] psi) x else 0) 0
  = 1 / 8.
Proof.
  intros Hnd I1 I2 I3 L1 L2 L3 Hnorm Hv.
  assert (Hd : q1 <> q2 /\ q1 <> q3 /\ q1 <> r1 /\ q1 <> r2 /\ q1 <> r3 /\
               q2 <> q3 /\ q2 <> r1 /\ q2 <> r2 /\ q2 <> r3 /\
               q3 <> r1 /\ q3 <> r2 /\ q3 <> r3).
  { clear - Hnd.
    repeat match goal with
           | H : NoDup (_ :: _) |- _ => inversion H; clear H; subst
           end.
    cbn [In] in *. repeat split; intros ->; tauto. }
  destruct Hd as (D12 & D13 & D11' & D12' & D13' & D23 & D21' & D22' & D23'
                  & D31' & D32' & D33').
  set (psi1 := apply_h q1 psi). set (psi2 := apply_h q2 psi1).
  change (h_each [q1; q2; q3] psi) with (apply_h q3 psi2).
  assert (L2' : supported (fun y => N.testbit y q2 = N.testbit y r2) psi1).
  { apply (supported_instr _ 0 (IH q1)); [|exact L2].
    intros q Hq. simpl in Hq. apply N.eqb_eq in Hq. subst q.
    apply ignores_pair; assumption. }
  assert (L3' : supported (fun y => N.testbit y q3 = N.testbit y r3) psi2).
  { apply (supported_instr _ 0 (IH q2)).
    - intros q Hq. simpl in Hq. apply N.eqb_eq in Hq. subst q.
      apply ignores_pair; assumption.
    - apply (supported_instr _ 0 (IH q1)); [|exact L3].
      intros q Hq. simpl in Hq. apply N.eqb_eq in Hq. subst q.
      apply ignores_pair; assumption. }
  set (W2 := fun x : N => if Bool.eqb (N.testbit x q1) (code_bit v 2)
                          then 1 else 0).
  set (W3 := fun x : N => if Bool.eqb (N.testbit x q2) (code_bit v 1)
                          then W2 x else 0).
  (* the last Hadamard *)
  rewrite (sum_over_ext _ _
             (fun x => if Bool.eqb (N.testbit x q3) (code_bit v 0)
                       then W3 x * sq (apply_h q3 psi2) x else 0)).
  2:{ intros x. rewrite card3_code by exact Hv. unfold W3, W2.
      destruct (Bool.eqb (N.testbit x q3) (code_bit v 0)),
               (Bool.eqb (N.testbit x q2) (code_bit v 1)),
               (Bool.eqb (N.testbit x q1) (code_bit v 2)); simpl; ring. }
  rewrite (marginal_step q3 r3) by
    (try assumption; intros x b; unfold W3, W2;
     rewrite !testbit_upd_other by congruence; reflexivity).
  (* the second *)
  rewrite (sum_over_ext _ _
             (fun x => if Bool.eqb (N.testbit x q2) (code_bit v 1)
                       then W2 x * sq (apply_h q2 psi1) x else 0)).
  2:{ intros x. unfold W3. fold psi2.
      destruct (Bool.eqb (N.testbit x q2) (code_bit v 1)); ring. }
  rewrite (marginal_step q2 r2) by
    (try assumption; intros x b; unfold W2;
     rewrite !testbit_upd_other by congruence; reflexivity).
  (* the first *)
  rewrite (sum_over_ext _ _
             (fun x => if Bool.eqb (N.testbit x q1) (code_bit v 2)
                       then (fun _ => 1) x * sq (apply_h q1 psi) x else 0)).
  2:{ intros x. unfold W2. fold psi1.
      destruct (Bool.eqb (N.testbit x q1) (code_bit v 2)); ring. }
  rewrite (marginal_step q1 r1) by (try assumption; reflexivity).
  rewrite (sum_over_ext _ _ (sq psi)) by (intros x; ring).
  unfold norm2 in Hnorm. change (fun x => psi x * psi x) with (sq psi) in Hnorm.
  rewrite Hnorm. field.
Qed.


(** ** The circuit before a first Re-Shuffle of a card *)

Lemma gates_on_app (qs : list N) (c c' : circuit) :
  gates_on qs (c ++ c') = gates_on qs c && gates_on qs c'.
Proof. unfold gates_on. apply forallb_app. Qed.

Lemma gates_on_reshuffles (angles : nat -> R) (history : list (Z * string)) :
  gates_on all_qubits (reshuffles history (prepared angles)) = true.
Proof.
  induction history as [|pc history IH] using rev_ind; [reflexivity|].
  rewrite reshuffles_snoc, gates_on_app, IH, reshuffle_gates_cases.
  destruct (String.eqb (snd pc) "1"), (fst pc =? 1)%Z; reflexivity.
Qed.

Lemma supported_sym (a t : N) (psi : statevec) :
  supported (fun y => N.testbit y a = N.testbit y t) psi ->
  supported (fun y => N.testbit y t = N.testbit y a) psi.
Proof. intros H x Hx. symmetry. apply H. exact Hx. Qed.

Lemma slot_prob_card1_player1 (c : circuit) (v : Z) :
  slot_prob c "Player 1" 1 v
  = sum_over all_qubits
      (fun x =>
         if (card3 (N.testbit x 11) (N.testbit x 10) (N.testbit x 9) =? v)%Z
         then sq (run 0 c ket0) x else 0) 0.
Proof.
  unfold slot_prob. apply sum_over_ext. intros x.
  destruct (slot_card_spec x) as (-> & _). reflexivity.
Qed.

Lemma slot_prob_card2_player1 (c : circuit) (v : Z) :
  slot_prob c "Player 1" 2 v
  = sum_over all_qubits
      (fun x =>
         if (card3 (N.testbit x 8) (N.testbit x 7) (N.testbit x 6) =? v)%Z
         then sq (run 0 c ket0) x else 0) 0.
Proof.
  unfold slot_prob. apply sum_over_ext. intros x.
  destruct (slot_card_spec x) as (_ & -> & _). reflexivity.
Qed.

Lemma slot_prob_card1_player2 (c : circuit) (v : Z) :
  slot_prob c "Player 2" 1 v
  = sum_over all_qubits
      (fun x =>
         if (card3 (N.testbit x 17) (N.testbit x 16) (N.testbit x 15) =? v)%Z
         then sq (run 0 c ket0) x else 0) 0.
Proof.
  unfold slot_prob. apply sum_over_ext. intros x.
  destruct (slot_card_spec x) as (_ & _ & -> & _). reflexivity.
Qed.

Lemma slot_prob_card2_player2 (c : circuit) (v : Z) :
  slot_prob c "Player 2" 2 v
  = sum_over all_qubits
      (fun x =>
         if (card3 (N.testbit x 14) (N.testbit x 13) (N.testbit x 12) =? v)%Z
         then sq (run 0 c ket0) x else 0) 0.
Proof.
  unfold slot_prob. apply sum_over_ext. intros x.
  destruct (slot_card_spec x) as (_ & _ & _ & ->). reflexivity.
Qed.

Ltac in_all_qubits := vm_compute; tauto.

Ltac distinct_qubits :=
  repeat (constructor; [cbn [In]; intuition discriminate|]); constructor.

(** ** C1 *)

(** The two facts on the level of circuits. *)
Lemma reshuffle_circuit (angles : nat -> R)
    (history : list (Z * string)) (p : Z) (ch : string) (v : Z) :
  (p = 1 \/ p = 2)%Z ->
  (ch = "1" \/ ch = "2")%string ->
  Forall (fun pc => snd pc = other_card ch) history ->
  (1 <= v <= 8)%Z ->
  slot_prob (reshuffle p ch (reshuffles history (prepared angles)))
    (player_name p) (card_number ch) v = 1 / 8 /\
  (forall (c : circuit) (m : N) (psi : statevec),
     run m (reshuffle p ch (reshuffle p ch c)) psi = run m c psi) /\
  (forall (c : circuit) (player : string) (k : nat) (w : Z),
     slot_prob (reshuffle p ch (reshuffle p ch c)) player k w
     = slot_prob c player k w).
Proof.
  intros Hp Hch Hhist Hv. split; [|split].
  - set (c0 := reshuffles history (prepared angles)).
    assert (Hnorm : norm2 (run 0 c0 ket0) = 1)
      by (apply norm2_run, gates_on_reshuffles).
    destruct Hch as [-> | ->]; cbn [other_card String.eqb Ascii.eqb Bool.eqb]
      in Hhist.
    + (* card 1 *)
      assert (Hh : Forall (fun pc => snd pc <> "1"%string) history).
      { eapply Forall_impl; [|exact Hhist]. intros pc ->. discriminate. }
      assert (L1 := linked_run 9 17 0 c0 ltac:(discriminate)
                      (reshuffles_keep_slot1 angles history 9 17
                         ltac:(simpl; auto) Hh)).
      assert (L2 := linked_run 10 16 0 c0 ltac:(discriminate)
                      (reshuffles_keep_slot1 angles history 10 16
                         ltac:(simpl; auto) Hh)).
      assert (L3 := linked_run 11 15 0 c0 ltac:(discriminate)
                      (reshuffles_keep_slot1 angles history 11 15
                         ltac:(simpl; auto) Hh)).
      destruct Hp as [-> | ->]; cbn [player_name card_number Z.eqb Pos.eqb
                                     String.eqb Ascii.eqb Bool.eqb].
      * rewrite slot_prob_card1_player1, run_reshuffle.
        change (qubits_to_affect 1 "1") with [9; 10; 11]%N.
        apply (uniform_after_h3 9 10 11 17 16 15); try assumption;
          try in_all_qubits. distinct_qubits.
      * rewrite slot_prob_card1_player2, run_reshuffle.
        change (qubits_to_affect 2 "1") with [15; 16; 17]%N.
        apply (uniform_after_h3 15 16 17 11 10 9);
          try assumption; try in_all_qubits; try distinct_qubits;
          apply supported_sym; assumption.
    + (* card 2 *)
      assert (L1 := linked_run 6 14 0 c0 ltac:(discriminate)
                      (reshuffles_keep_slot2 angles history 6 14
                         ltac:(simpl; auto) Hhist)).
      assert (L2 := linked_run 7 13 0 c0 ltac:(discriminate)
                      (reshuffles_keep_slot2 angles history 7 13
                         ltac:(simpl; auto) Hhist)).
      assert (L3 := linked_run 8 12 0 c0 ltac:(discriminate)
                      (reshuffles_keep_slot2 angles history 8 12
                         ltac:(simpl; auto) Hhist)).
      destruct Hp as [-> | ->]; cbn [player_name card_number Z.eqb Pos.eqb
                                     String.eqb Ascii.eqb Bool.eqb].
      * rewrite slot_prob_card2_player1, run_reshuffle.
        change (qubits_to_affect 1 "2") with [6; 7; 8]%N.
        apply (uniform_after_h3 6 7 8 14 13 12); try assumption;
          try in_all_qubits. distinct_qubits.
      * rewrite slot_prob_card2_player2, run_reshuffle.
        change (qubits_to_affect 2 "2") with [12; 13; 14]%N.
        apply (uniform_after_h3 12 13 14 8 7 6);
          try assumption; try in_all_qubits; try distinct_qubits;
          apply supported_sym; assumption.
  - intros c m psi. apply run_reshuffle_twice.
  - intros c player k w. unfold slot_prob.
    rewrite run_reshuffle_twice. reflexivity.
Qed.



(* ------------------------------------------------------------------ *)
(** * Further properties of the session *)

Local Open Scope Z_scope.

(** ** The turn highlight *)

Lemma highlight_shown (s : game) :
  game_over s = false ->
  (current_player_index s < 2)%nat ->
  (player_turn_order s = [1; 2] \/ player_turn_order s = [2; 1]) ->
  exists s', _update_turn_highlight s = Done s' /\ turn_shown s' /\
    control_of s' = control_of s /\ game_over s' = false.
Proof.
  intros Hg Hi Ho.
  assert (exists p, Py.index (player_turn_order s) (current_player_index s)
                    = Done p /\ (p = 1 \/ p = 2)) as (p & Hp & Hp12).
  { destruct (current_player_index s) as [|[|i]]; [| |lia];
      destruct Ho as [-> | ->]; eexists; (split; [reflexivity|]); auto. }
  unfold _update_turn_highlight.
  cbn [game_over set_action_boxes player_turn_order current_player_index].
  rewrite Hg, Hp. cbn [bind].
  destruct Hp12 as [-> | ->]; cbn [Z.eqb Pos.eqb]; eexists;
    (split; [reflexivity|]); (split; [|split; [reflexivity | exact Hg]]).
  - exists 1. cbn. rewrite Hp. repeat split; auto.
  - exists 2. cbn. rewrite Hp. repeat split; auto.
Qed.

(** After a turn that leaves the session running, the turn is shown. *)
Lemma next_turn_shown (e : env) (s s' : game) :
  running s ->
  _next_turn e s = Done s' ->
  game_over s' = false ->
  turn_shown s'.
Proof.
  intros (Hg & Hr & Hi & Ho) H Hover. unfold _next_turn in H.
  cbn [current_player_index set_current_player_index player_turn_order] in H.
  assert (Hlen : List.length (player_turn_order s) = 2%nat)
    by (destruct Ho as [-> | ->]; reflexivity).
  rewrite Hlen in H.
  destruct (current_player_index s) as [|[|i]] eqn:Ei; [| |lia].
  - cbn [Nat.add Nat.ltb Nat.leb] in H.
    destruct (highlight_shown (set_current_player_index 1 s))
      as (s2 & Hs2 & Hshown & _); [exact Hg | cbn; lia | exact Ho |].
    rewrite Hs2 in H. injection H as <-. exact Hshown.
  - cbn [Nat.add Nat.ltb Nat.leb] in H.
    cbn [current_round set_current_round set_current_player_index] in H.
    destruct Hr as [Hr|Hr]; rewrite Hr in H;
      cbn [Z.add Z.gtb Z.compare Pos.add Pos.succ Pos.compare
           Pos.compare_cont] in H.
    + match type of H with context [_determine_turn_order ?c ?s0] =>
        destruct (determine_turn_order_spec c s0)
          as (Hord & _ & _ & _ & _ & _ & Hgo & _ & Hci);
        destruct (_determine_turn_order c s0) as [s1 order] eqn:Ed
      end.
      cbn [fst snd] in *. subst order.
      destruct (highlight_shown
                  (set_player_turn_order (order_of_coin (coin e)) s1))
        as (s3 & Hs3 & Hshown & _);
        [ cbn; rewrite Hgo; exact Hg
        | cbn; rewrite Hci; cbn; lia
        | cbn; apply order_of_coin_cases |].
      rewrite Hs3 in H. injection H as <-. exact Hshown.
    + apply end_game_spec in H. destruct H as (Hg' & _). congruence.
Qed.

(** ** One click, case by case *)

Lemma click_cases (b ch : string) (e : env) (s s' : game) :
  running s ->
  _on_action_button_clicked b ch e s = Done s' ->
  (b = "Measure" /\ game_over s' = true /\
   current_player_index s' = current_player_index s /\
   player_turn_order s' = player_turn_order s) \/
  ((b = "Pass" \/ b = "Re-Shuffle") /\
   ((running s' /\ turn_shown s' /\ initial_cards s' = initial_cards s /\
     ((current_player_index s = 0%nat /\ current_player_index s' = 1%nat /\
       current_round s' = current_round s) \/
      (current_player_index s = 1%nat /\ current_round s = 1 /\
       current_round s' = 2 /\ current_player_index s' = 0%nat))) \/
    (current_player_index s = 1%nat /\ current_round s = 2 /\
     game_over s' = true /\ current_player_index s' = 2%nat /\
     List.length (player_turn_order s') = 2%nat))) \/
  (~ In b action_buttons /\ s' = s).
Proof.
  intros Hrun H. unfold _on_action_button_clicked in H.
  destruct (running_index s Hrun) as (p & Hp & _). rewrite Hp in H.
  cbn [bind] in H.
  assert (Hnext : forall s1 : game,
            running s1 ->
            current_player_index s1 = current_player_index s ->
            current_round s1 = current_round s ->
            initial_cards s1 = initial_cards s ->
            _next_turn e s1 = Done s' ->
            (running s' /\ turn_shown s' /\ initial_cards s' = initial_cards s /\
             ((current_player_index s = 0%nat /\ current_player_index s' = 1%nat /\
               current_round s' = current_round s) \/
              (current_player_index s = 1%nat /\ current_round s = 1 /\
               current_round s' = 2 /\ current_player_index s' = 0%nat))) \/
            (current_player_index s = 1%nat /\ current_round s = 2 /\
             game_over s' = true /\ current_player_index s' = 2%nat /\
             List.length (player_turn_order s') = 2%nat)).
  { intros s1 Hrun1 Hi1 Hr1 Hic1 Hn.
    destruct (next_turn_cases e s1 Hrun1)
      as [(s2 & Hs2 & Hrun2 & _ & Hic & _ & _ & _ & Hcase) | (Hi & Hr & Heq)].
    - rewrite Hs2 in Hn. injection Hn as <-. left.
      split; [exact Hrun2|].
      split; [apply (next_turn_shown e s1); [exact Hrun1 | exact Hs2 |
                                               apply Hrun2]|].
      split; [congruence|].
      rewrite <- Hi1, <- Hr1.
      destruct Hcase as [(A & B & C & _) | (A & B & C & D & _)]; auto.
    - right. rewrite Heq in Hn. apply end_game_spec in Hn.
      destruct Hn as (Hg' & Hc & _). apply control_of_eq in Hc.
      destruct Hc as (_ & Hto & Hidx & _). cbn in Hto, Hidx.
      split; [congruence|]. split; [congruence|]. split; [exact Hg'|].
      split; [rewrite Hidx, Hi; reflexivity|].
      rewrite Hto. destruct Hrun1 as (_ & _ & _ & [-> | ->]); reflexivity. }
  destruct (String.eqb b "Measure") eqn:Eb.
  - apply String.eqb_eq in Eb. apply end_game_spec in H.
    destruct H as (Hg' & Hc & _). apply control_of_eq in Hc.
    destruct Hc as (_ & Hto & Hidx & _). cbn in Hto, Hidx.
    left. auto.
  - destruct (String.eqb b "Pass") eqn:Ep.
    + apply String.eqb_eq in Ep. right. left. split; [auto|].
      eapply Hnext; [| | | | exact H]; [exact Hrun | reflexivity ..].
    + destruct (String.eqb b "Re-Shuffle") eqn:Es.
      * apply String.eqb_eq in Es. right. left. split; [auto|].
        eapply Hnext; [| | | | exact H]; [exact Hrun | reflexivity ..].
      * injection H as <-. right. right. split; [|reflexivity].
        apply String.eqb_neq in Eb, Ep, Es. unfold action_buttons.
        cbn [In]. intuition congruence.
Qed.

(** ** Plays, click by click *)

(** A play that ends is ended by one of its clicks, handled in a running
    session. *)
Lemma play_last (clicks : list click) :
  forall (s s' : game) (log log' : list (Z * string)),
    running s ->
    play clicks s log = Done (s', log') ->
    game_over s' = true ->
    exists (log0 : list (Z * string)) (c : click) (s1 : game),
      log' = log ++ log0 ++ [(current_round s1, button c)] /\
      running s1 /\ In c clicks /\
      initial_cards s1 = initial_cards s /\
      _on_action_button_clicked (button c) (choice c) (world c) s1 = Done s'.
Proof.
  induction clicks as [|c clicks IH]; intros s s' log log' Hrun Hplay Hover.
  - simpl in Hplay. injection Hplay as <- <-.
    destruct Hrun as (Hg & _). congruence.
  - cbn [play] in Hplay. pose proof Hrun as (Hg & _). rewrite Hg in Hplay.
    destruct (_on_action_button_clicked (button c) (choice c) (world c) s)
      as [s1| |] eqn:Ec; try discriminate.
    cbn [bind] in Hplay.
    destruct (click_step _ _ _ _ _ Hrun Ec) as [(Hr1 & Hic) | (Hend & _)].
    + destruct (IH _ _ _ _ Hr1 Hplay Hover)
        as (log0 & c' & s2 & Hlog & Hr2 & Hin & Hic2 & Hc').
      exists ((current_round s, button c) :: log0), c', s2.
      rewrite <- app_assoc in Hlog. simpl in Hlog.
      split; [exact Hlog|]. split; [exact Hr2|].
      split; [right; exact Hin|]. split; [congruence | exact Hc'].
    + assert (Hg1 : game_over s1 = true) by apply Hend.
      rewrite play_over in Hplay by exact Hg1.
      injection Hplay as <- <-.
      exists [], c, s. split; [reflexivity|]. split; [exact Hrun|].
      split; [left; reflexivity|]. split; [reflexivity | exact Ec].
Qed.



(** ** The action box follows the turn *)



(** ** A session has four turns *)

Lemma turns_left_running (s : game) : running s -> (1 <= turns_left s)%nat.
Proof. intros (_ & _ & Hi & _). unfold turns_left. lia. Qed.

(** A click on one of the three buttons ends the session or uses up one
    turn. *)
Lemma click_uses_turn (b ch : string) (e : env) (s s' : game) :
  running s ->
  In b action_buttons ->
  _on_action_button_clicked b ch e s = Done s' ->
  game_over s' = true \/
  (running s' /\ (turns_left s' + 1 = turns_left s)%nat).
Proof.
  intros Hrun Hb Hc.
  destruct (click_cases _ _ _ _ _ Hrun Hc) as [(_ & Hg & _) | [(_ & H) | (Hnb & _)]].
  - left. exact Hg.
  - destruct H as [(Hr' & _ & _ & Hcase) | (_ & _ & Hg & _)]; [|left; exact Hg].
    right. split; [exact Hr'|].
    destruct Hrun as (_ & Hr & _). unfold turns_left.
    destruct Hcase as [(A & B & C) | (A & B & C & D)].
    + rewrite A, B, C. destruct Hr as [-> | ->]; reflexivity.
    + rewrite A, B, C, D. reflexivity.
  - contradiction.
Qed.

Lemma play_turns (clicks : list click) :
  forall (s s' : game) (log log' : list (Z * string)),
    running s ->
    Forall (fun c => In (button c) action_buttons) clicks ->
    play clicks s log = Done (s', log') ->
    (List.length log' <= List.length log + turns_left s)%nat /\
    (List.length log' <= List.length log + List.length clicks)%nat /\
    (game_over s' = false ->
     running s' /\
     List.length log' = (List.length log + List.length clicks)%nat /\
     (turns_left s' + List.length clicks = turns_left s)%nat).
Proof.
  induction clicks as [|c clicks IH]; intros s s' log log' Hrun Hb Hplay.
  - simpl in Hplay. injection Hplay as <- <-. simpl.
    split; [lia|]. split; [lia|]. intros _. split; [exact Hrun|]. lia.
  - cbn [play] in Hplay. pose proof Hrun as (Hg & _). rewrite Hg in Hplay.
    destruct (_on_action_button_clicked (button c) (choice c) (world c) s)
      as [s1| |] eqn:Ec; try discriminate.
    cbn [bind] in Hplay. inversion Hb as [|? ? Hbc Hb']; subst.
    pose proof (turns_left_running s Hrun) as Hpos.
    destruct (click_uses_turn _ _ _ _ _ Hrun Hbc Ec) as [Hg1 | (Hr1 & Ht)].
    + rewrite play_over in Hplay by exact Hg1. injection Hplay as <- <-.
      rewrite length_app. simpl.
      split; [lia|]. split; [lia|]. intros Hn. congruence.
    + destruct (IH _ _ _ _ Hr1 Hb' Hplay) as (H1 & H2 & H3).
      rewrite length_app in H1, H2, H3. simpl in H1, H2, H3. simpl.
      split; [lia|]. split; [lia|]. intros Hn.
      destruct (H3 Hn) as (A & B & C). split; [exact A|]. lia.
Qed.

Lemma start_game_first_turn (angles : nat -> R) (e : env) (s s0 : game) :
  start_game angles e s = Done s0 ->
  current_round s0 = 1 /\ current_player_index s0 = 0%nat.
Proof.
  unfold start_game.
  match goal with |- context [_determine_turn_order ?c ?s1] =>
    destruct (determine_turn_order_spec c s1)
      as (Hord & _ & _ & _ & _ & _ & Hgo & Hcr & Hci);
    destruct (_determine_turn_order c s1) as [s2 order] eqn:Ed
  end.
  cbn [fst snd] in *. subst order. intros H.
  destruct (highlight_running
              (set_player_turn_order (order_of_coin (coin e)) s2))
    as (s3 & Hs3 & Hc & _).
  { cbn. rewrite Hgo. reflexivity. }
  { cbn. rewrite Hci. cbn. lia. }
  { cbn. apply order_of_coin_cases. }
  rewrite Hs3 in H. injection H as <-.
  apply control_of_eq in Hc. destruct Hc as (_ & _ & Hc3 & Hc4 & _).
  cbn in Hc3, Hc4, Hcr, Hci. rewrite Hc3, Hc4, Hcr, Hci. auto.
Qed.

(** X2.  A session takes at most four clicks on the action buttons: a play
    handles at most four of them, four clicks always end the game, and a
    session that is still running has handled every click and has as many
    turns left as four minus the clicks handled. *)
Theorem session_ends_within_four_clicks (angles : nat -> R) (e0 : env)
    (s_prev s0 s : game) (clicks : list click) (log : list (Z * string)) :
  start_game angles e0 s_prev = Done s0 ->
  Forall (fun c => In (button c) action_buttons) clicks ->
  play clicks s0 [] = Done (s, log) ->
  (List.length log <= 4)%nat /\
  (List.length log <= List.length clicks)%nat /\
  ((4 <= List.length clicks)%nat -> game_over s = true) /\
  (game_over s = false ->
   List.length log = List.length clicks /\
   (turns_left s + List.length clicks = 4)%nat).
Proof.
  intros Hstart Hb Hplay.
  destruct (start_game_spec _ _ _ _ Hstart) as (Hrun & _).
  assert (H4 : turns_left s0 = 4%nat).
  { destruct (start_game_first_turn _ _ _ _ Hstart) as (Hr1 & Hi0).
    unfold turns_left. rewrite Hr1, Hi0. reflexivity. }
  destruct (play_turns _ _ _ _ _ Hrun Hb Hplay) as (H1 & H2 & H3).
  simpl in H1, H2, H3. rewrite H4 in H1, H3.
  split; [exact H1|]. split; [exact H2|]. split.
  - intros Hlen. destruct (game_over s) eqn:Hg; [reflexivity|].
    destruct (H3 eq_refl) as (Hr & _ & Ht).
    pose proof (turns_left_running s Hr). lia.
  - intros Hg. destruct (H3 Hg) as (_ & A & B). auto.
Qed.

Lemma session_ends_within_four_clicks_witness :
  (List.length demo_log <= 4)%nat /\
  (List.length demo_log <= List.length demo_clicks)%nat /\
  ((4 <= List.length demo_clicks)%nat -> game_over demo_final = true) /\
  (game_over demo_final = false ->
   List.length demo_log = List.length demo_clicks /\
   (turns_left demo_final + List.length demo_clicks = 4)%nat).
Proof.
  apply (session_ends_within_four_clicks demo_angles demo_env init demo_start
           demo_final demo_clicks demo_log).
  - vm_compute. reflexivity.
  - vm_compute. repeat constructor; tauto.
  - vm_compute. reflexivity.
Defined.

(** ** Clicks outside a running session *)

Lemma click_without_turn (b ch : string) (e : env) (s : game) :
  (List.length (player_turn_order s) <= current_player_index s)%nat ->
  _on_action_button_clicked b ch e s = Raise IndexError.
Proof.
  intros H. unfold _on_action_button_clicked, Py.index.
  apply nth_error_None in H. rewrite H. reflexivity.
Qed.

(** X3.  The handler starts by looking up the player on turn.  Before the
    first game there is no turn order, and after a game that ended because
    round 2 was played through the turn index is 2, past the end of the turn
    order: in both situations a click delivered to the handler raises
    [IndexError], whatever the button. *)
Theorem click_outside_session_raises (angles : nat -> R) (e0 : env)
    (s_prev s0 s : game) (clicks : list click) (log log0 : list (Z * string))
    (r : Z) (b0 : string) :
  start_game angles e0 s_prev = Done s0 ->
  play clicks s0 [] = Done (s, log) ->
  game_over s = true ->
  log = log0 ++ [(r, b0)] ->
  b0 <> "Measure"%string ->
  current_player_index s = 2%nat /\
  forall (b ch : string) (e : env),
    _on_action_button_clicked b ch e init = Raise IndexError /\
    _on_action_button_clicked b ch e s = Raise IndexError.
Proof.
  intros Hstart Hplay Hover Hlog Hb0.
  destruct (start_game_spec _ _ _ _ Hstart) as (Hrun & _).
  destruct (play_last _ _ _ _ _ Hrun Hplay Hover)
    as (log1 & c & s1 & Hlog1 & Hrun1 & _ & _ & Hc).
  simpl in Hlog1. rewrite Hlog in Hlog1.
  apply app_inj_tail in Hlog1. destruct Hlog1 as (_ & Heq).
  injection Heq as _ Hb.
  assert (Hidx : current_player_index s = 2%nat /\
                 List.length (player_turn_order s) = 2%nat).
  { destruct (click_cases _ _ _ _ _ Hrun1 Hc)
      as [(Hm & _) | [(_ & H) | (_ & Hs)]].
    - congruence.
    - destruct H as [((Hg & _) & _) | (_ & _ & _ & Hi & Hl)]; [congruence|].
      auto.
    - subst s1. destruct Hrun1 as (Hg & _). congruence. }
  destruct Hidx as (Hi & Hl). split; [exact Hi|].
  intros b ch e. split.
  - apply click_without_turn. simpl. lia.
  - apply click_without_turn. rewrite Hi, Hl. lia.
Qed.

Lemma click_outside_session_raises_witness :
  current_player_index (fst demo_passed) = 2%nat /\
  forall (b ch : string) (e : env),
    _on_action_button_clicked b ch e init = Raise IndexError /\
    _on_action_button_clicked b ch e (fst demo_passed) = Raise IndexError.
Proof.
  apply (click_outside_session_raises demo_angles demo_env init demo_start
           (fst demo_passed) demo_pass_clicks (snd demo_passed)
           [(1, "Pass"%string); (1, "Pass"%string); (2, "Pass"%string)]
           2 "Pass"%string).
  - vm_compute. reflexivity.
  - vm_compute. reflexivity.
  - vm_compute. reflexivity.
  - vm_compute. reflexivity.
  - discriminate.
Defined.

(** ** The end-of-game sequence completes *)

Lemma rescore_player1 (hp1 hp2 hd : list Z) (scores : Py.dict Z) :
  Py.get (rescore [("Player 1", hp1); ("Player 2", hp2); ("Dealer", hd)] scores)
    "Player 1" = Done (Py.sum hp1).
Proof.
  unfold rescore. cbn [fold_left fst snd].
  rewrite !get_set_other by discriminate. apply get_set_same.
Qed.

Lemma rescore_player2 (hp1 hp2 hd : list Z) (scores : Py.dict Z) :
  Py.get (rescore [("Player 1", hp1); ("Player 2", hp2); ("Dealer", hd)] scores)
    "Player 2" = Done (Py.sum hp2).
Proof.
  unfold rescore. cbn [fold_left fst snd].
  rewrite !get_set_other by discriminate. apply get_set_same.
Qed.

Lemma sum_nil : Py.sum [] = 0.
Proof. reflexivity. Qed.

Lemma card_values_sum (l : list Z) :
  card_values l ->
  Z.of_nat (List.length l) <= Py.sum l <= 8 * Z.of_nat (List.length l).
Proof.
  unfold card_values, MIN_CARD_VALUE, MAX_CARD_VALUE.
  induction 1 as [|x l Hx _ IH].
  - rewrite sum_nil. simpl. lia.
  - rewrite sum_cons. cbn [List.length]. lia.
Qed.

(** The hands and scores after [_process_quantum_results]: every hand is
    the initial card followed by cards in 1..8, the players hold one
    quantum card, or two at level 3, and every score is the sum of the
    hand. *)
Lemma process_all (str : string) (s s' : game) :
  _process_quantum_results str s = Done s' ->
  exists (i1 i2 id : Z) (h1 h2 hd : list Z),
    Py.get (initial_cards s) "Player 1" = Done i1 /\
    Py.get (initial_cards s) "Player 2" = Done i2 /\
    Py.get (initial_cards s) "Dealer" = Done id /\
    (let hands := [("Player 1", i1 :: h1); ("Player 2", i2 :: h2);
                   ("Dealer", id :: hd)] in
     s' = set_player_scores (rescore hands (player_scores s))
            (set_player_hands hands s)) /\
    card_values h1 /\ card_values h2 /\ card_values hd /\ hd <> [] /\
    List.length h1 = (if measure_level s =? 3 then 2%nat else 1%nat) /\
    List.length h2 = (if measure_level s =? 3 then 2%nat else 1%nat).
Proof.
  unfold _process_quantum_results. intros H.
  destruct (Py.split " " str) as [|p2 [|p1 [|d [|]]]]; try discriminate.
  destruct (Py.get (initial_cards s) "Player 1") as [i1| |]; try discriminate.
  destruct (Py.get (initial_cards s) "Player 2") as [i2| |]; try discriminate.
  destruct (Py.get (initial_cards s) "Dealer") as [id| |]; try discriminate.
  cbn [bind] in H.
  destruct (_get_card_value_from_binary (Py.reversed (Py.slice 0 3 p1)))
    as [q1| |] eqn:E1; try discriminate.
  destruct (_get_card_value_from_binary (Py.reversed (Py.slice 0 3 p2)))
    as [q2| |] eqn:E2; try discriminate.
  destruct (_get_card_value_from_binary (Py.reversed (Py.slice 0 3 d)))
    as [qd| |] eqn:Ed; try discriminate.
  apply (card_of_slice_range 0) in E1, E2, Ed.
  unfold hand_append in H at 1 2 3.
  cbn [Py.get Py.set String.eqb Ascii.eqb Bool.eqb bind app] in H.
  exists i1, i2, id.
  destruct (measure_level s =? 3) eqn:L.
  - destruct (_get_card_value_from_binary (Py.reversed (Py.slice 3 6 p1)))
      as [c1| |] eqn:F1; try discriminate.
    destruct (_get_card_value_from_binary (Py.reversed (Py.slice 3 6 p2)))
      as [c2| |] eqn:F2; try discriminate.
    apply (card_of_slice_range 3) in F1, F2.
    unfold hand_append in H at 1 2.
    cbn [Py.get Py.set String.eqb Ascii.eqb Bool.eqb bind app] in H.
    destruct (Py.sum [id; qd] <? DEALER_STANDS_THRESHOLD).
    + destruct (_get_card_value_from_binary (Py.reversed (Py.slice 3 6 d)))
        as [d2| |] eqn:Fd; try discriminate.
      apply (card_of_slice_range 3) in Fd.
      unfold hand_append in H.
      cbn [Py.get Py.set String.eqb Ascii.eqb Bool.eqb bind app] in H.
      injection H as <-.
      exists [q1; c1], [q2; c2], [qd; d2].
      repeat split; auto; try discriminate;
        repeat (constructor; [assumption|]); constructor.
    + cbn [bind] in H. injection H as <-.
      exists [q1; c1], [q2; c2], [qd].
      repeat split; auto; try discriminate;
        repeat (constructor; [assumption|]); constructor.
  - cbn [bind] in H. injection H as <-.
    exists [q1], [q2], [qd].
    repeat split; auto; try discriminate;
      repeat (constructor; [assumption|]); constructor.
Qed.

Lemma process_memory_done (m : N) (s : game) :
  dealt s -> exists s', _process_quantum_results (memory_string m) s = Done s'.
Proof.
  intros (i1 & i2 & id & H1 & H2 & Hd & _).
  rewrite memory_string_bits. eexists.
  apply process_hands; eassumption.
Qed.

Lemma end_game_total (e : env) (s : game) :
  dealt s -> well_formed e -> exists s', _end_game e s = Done s'.
Proof.
  intros Hdealt ((m & Hm) & Hfuel). unfold _end_game.
  rewrite update_turn_highlight_over by reflexivity. cbn [bind].
  set (s1 := set_action_boxes false false (set_game_over true s)).
  pose proof (add_measurements_frame s1) as Hfr. cbv zeta in Hfr.
  set (s2 := _add_measurements_to_circuit s1) in *.
  destruct Hfr as (Hc2 & _). apply control_of_eq in Hc2.
  destruct Hc2 as (Hic2 & _).
  assert (Hd2 : dealt s2) by (unfold dealt; rewrite Hic2; exact Hdealt).
  rewrite Hm. destruct (process_memory_done m s2 Hd2) as [s3 Hs3].
  rewrite Hs3. cbn [bind].
  destruct (process_all _ _ _ Hs3)
    as (i1 & i2 & id & h1 & h2 & hd & _ & _ & Hid & Heq & _ & _ & Hhd & Hne & _).
  cbv zeta in Heq.
  assert (Hh3 : Py.get (player_hands s3) "Dealer" = Done (id :: hd))
    by (rewrite Heq; reflexivity).
  assert (Hsc3 : Py.get (player_scores s3) "Dealer" = Done (Py.sum (id :: hd)))
    by (rewrite Heq; apply rescore_dealer).
  unfold _dealer_final_turn. rewrite Hsc3. cbn [bind].
  destruct (dealer_loop_terminates (fuel e) (draws e) 0
              (Py.sum (id :: hd)) s3 _ Hh3)
    as [s4 Hs4].
  { destruct Hd2 as (j1 & j2 & jd & _ & _ & Hjd & Hcv).
    rewrite Hid in Hjd. injection Hjd as <-.
    unfold card_values in Hcv.
    apply Forall_inv_tail, Forall_inv_tail, Forall_inv in Hcv.
    pose proof (card_values_sum hd Hhd) as Hsum.
    assert (1 <= Z.of_nat (List.length hd))
      by (destruct hd; [contradiction | cbn [List.length]; lia]).
    rewrite sum_cons. unfold MIN_CARD_VALUE, DEALER_STANDS_THRESHOLD in *.
    lia. }
  rewrite Hs4. cbn [bind].
  destruct (dealer_loop_spec _ _ _ _ _ _ _ Hh3 Hsc3 Hs4)
    as (n & _ & Hh4 & Hsc4 & _ & _ & _ & _ & _ & _ & _ & _ & _ & Hoth).
  destruct (Hoth "Player 1"%string ltac:(discriminate)) as [Hp1 Hq1].
  destruct (Hoth "Player 2"%string ltac:(discriminate)) as [Hp2 Hq2].
  rewrite Heq in Hp1, Hp2, Hq1, Hq2.
  cbn [player_hands player_scores set_player_hands set_player_scores]
    in Hp1, Hp2, Hq1, Hq2.
  cbn [Py.get String.eqb Ascii.eqb Bool.eqb] in Hp1, Hp2.
  rewrite rescore_player1 in Hq1. rewrite rescore_player2 in Hq2.
  apply final_summary_total; intros p [<-|[<-|[<-|[]]]]; eexists;
    eassumption.
Qed.

(** ** A session never fails *)

Lemma click_total (b ch : string) (e : env) (s : game) :
  running s -> dealt s -> well_formed e ->
  exists s', _on_action_button_clicked b ch e s = Done s'.
Proof.
  intros Hrun Hdealt Hwf. unfold _on_action_button_clicked.
  destruct (running_index s Hrun) as (p & Hp & _). rewrite Hp. cbn [bind].
  assert (Hnext : forall s1, running s1 -> dealt s1 ->
                             exists s', _next_turn e s1 = Done s').
  { intros s1 Hr1 Hd1.
    destruct (next_turn_cases e s1 Hr1) as [(s2 & Hs2 & _) | (_ & _ & Heq)].
    - exists s2. exact Hs2.
    - rewrite Heq. apply end_game_total; [exact Hd1 | exact Hwf]. }
  destruct (String.eqb b "Measure").
  - apply end_game_total; [exact Hdealt | exact Hwf].
  - destruct (String.eqb b "Pass"); [apply Hnext; assumption|].
    destruct (String.eqb b "Re-Shuffle"); [apply Hnext; assumption|].
    eexists. reflexivity.
Qed.

Lemma play_total (clicks : list click) :
  forall (s : game) (log : list (Z * string)),
    running s -> dealt s ->
    Forall (fun c => well_formed (world c)) clicks ->
    exists s' log', play clicks s log = Done (s', log').
Proof.
  induction clicks as [|c clicks IH]; intros s log Hrun Hdealt Hwf.
  - do 2 eexists. reflexivity.
  - cbn [play]. pose proof Hrun as (Hg & _). rewrite Hg.
    inversion Hwf as [|? ? Hc Hwf']; subst.
    destruct (click_total (button c) (choice c) (world c) s Hrun Hdealt Hc)
      as [s1 Hs1].
    rewrite Hs1. cbn [bind].
    destruct (click_step _ _ _ _ _ Hrun Hs1) as [(Hr1 & Hic) | (Hend & _)].
    + apply IH; [exact Hr1 | | exact Hwf'].
      unfold dealt. rewrite Hic. exact Hdealt.
    + rewrite play_over by apply Hend. do 2 eexists. reflexivity.
Qed.

Lemma start_game_total (angles : nat -> R) (e : env) (s : game) :
  exists s0, start_game angles e s = Done s0 /\ dealt s0 /\
    Py.get (initial_cards s0) "Dealer"
      = Done (_generate_random_card (draws e 0%nat)) /\
    Py.get (initial_cards s0) "Player 1"
      = Done (_generate_random_card (draws e 1%nat)) /\
    Py.get (initial_cards s0) "Player 2"
      = Done (_generate_random_card (draws e 2%nat)).
Proof.
  unfold start_game.
  match goal with |- context [_determine_turn_order ?c ?s1] =>
    destruct (determine_turn_order_spec c s1)
      as (Hord & _ & Hic & _ & _ & _ & Hgo & _ & Hci);
    destruct (_determine_turn_order c s1) as [s2 order] eqn:Ed
  end.
  cbn [fst snd] in *. subst order.
  destruct (highlight_running
              (set_player_turn_order (order_of_coin (coin e)) s2))
    as (s3 & Hs3 & Hc & _).
  { cbn. rewrite Hgo. reflexivity. }
  { cbn. rewrite Hci. cbn. lia. }
  { cbn. apply order_of_coin_cases. }
  exists s3. split; [exact Hs3|].
  apply control_of_eq in Hc. destruct Hc as (Hc1 & _).
  cbn in Hc1, Hic.
  assert (Hd : Py.get (initial_cards s3) "Dealer"
               = Done (_generate_random_card (draws e 0%nat))).
  { rewrite Hc1, Hic. rewrite !get_set_other by discriminate.
    apply get_set_same. }
  assert (H1 : Py.get (initial_cards s3) "Player 1"
               = Done (_generate_random_card (draws e 1%nat))).
  { rewrite Hc1, Hic. rewrite !get_set_other by discriminate.
    apply get_set_same. }
  assert (H2 : Py.get (initial_cards s3) "Player 2"
               = Done (_generate_random_card (draws e 2%nat))).
  { rewrite Hc1, Hic. apply get_set_same. }
  split; [|auto].
  do 3 eexists. split; [exact H1|]. split; [exact H2|]. split; [exact Hd|].
  repeat (constructor; [apply random_card_range|]). constructor.
Qed.

(** X4.  Starting a game never fails, from a new object or after any earlier
    game, and neither does any sequence of clicks after it, provided each
    shot returns the memory string of eighteen classical bits and the
    dealer's loop is given twelve steps: no handler raises, the dealer's
    loop never needs a thirteenth card, and the final summary finds the
    hand and the score of each participant. *)
Theorem session_never_fails (angles : nat -> R) (e0 : env) (s_prev : game)
    (clicks : list click) :
  Forall (fun c => well_formed (world c)) clicks ->
  exists (s0 s : game) (log : list (Z * string)),
    start_game angles e0 s_prev = Done s0 /\
    play clicks s0 [] = Done (s, log).
Proof.
  intros Hwf.
  destruct (start_game_total angles e0 s_prev) as (s0 & Hs0 & Hdealt & _).
  destruct (start_game_spec _ _ _ _ Hs0) as (Hrun & _).
  destruct (play_total clicks s0 [] Hrun Hdealt Hwf) as (s & log & Hplay).
  exists s0, s, log. auto.
Qed.

Lemma session_never_fails_witness :
  exists (s0 s : game) (log : list (Z * string)),
    start_game demo_angles demo_env init = Done s0 /\
    play demo_pass_clicks s0 [] = Done (s, log).
Proof.
  apply (session_never_fails demo_angles demo_env init demo_pass_clicks).
  repeat (constructor; [split; [exists 9%N; reflexivity | vm_compute; lia]|]).
  constructor.
Defined.

(** ** C3: the measure level of a play *)

Lemma before_measure_length (clicks : list click) :
  (List.length (before_measure clicks) <= List.length clicks)%nat.
Proof.
  induction clicks as [|c clicks IHc]; cbn [before_measure List.length];
    [lia|].
  destruct (String.eqb (button c) "Measure"); cbn [List.length]; lia.
Qed.

(** The turn number of a running session fixes its round. *)
Lemma running_round (s : game) (i : nat) :
  running s -> (turns_left s + i = 4)%nat ->
  current_round s = round_of_turn i.
Proof.
  intros (_ & Hr & Hi & _) Ht. unfold turns_left in Ht.
  unfold round_of_turn.
  destruct Hr as [Hr|Hr]; rewrite Hr in *; cbn [Z.sub Z.to_nat] in Ht;
    destruct (current_player_index s) as [|[|k]]; try lia;
    cbn in Ht.
  - assert (i = 0%nat) by lia. subst i. reflexivity.
  - assert (i = 1%nat) by lia. subst i. reflexivity.
  - assert (i = 2%nat) by lia. subst i. reflexivity.
  - assert (i = 3%nat) by lia. subst i. reflexivity.
Qed.

(** A click on Pass or Re-Shuffle uses up one turn and leaves the measure
    level alone, unless it was the last turn of round 2: then the game
    ends at level 3. *)
Lemma click_moves (b ch : string) (e : env) (s s' : game) :
  running s ->
  In b action_buttons -> b <> "Measure"%string ->
  _on_action_button_clicked b ch e s = Done s' ->
  (running s' /\ initial_cards s' = initial_cards s /\
   measure_level s' = measure_level s /\
   (turns_left s' + 1 = turns_left s)%nat) \/
  (turns_left s = 1%nat /\ game_over s' = true /\ measure_level s' = 3).
Proof.
  intros Hrun Hb Hnm H. pose proof H as Hclick.
  unfold _on_action_button_clicked in H.
  destruct (running_index s Hrun) as (p & Hp & _). rewrite Hp in H.
  cbn [bind] in H.
  assert (Hnext : forall s1 : game,
            running s1 ->
            current_player_index s1 = current_player_index s ->
            current_round s1 = current_round s ->
            initial_cards s1 = initial_cards s ->
            measure_level s1 = measure_level s ->
            _next_turn e s1 = Done s' ->
            (running s' /\ initial_cards s' = initial_cards s /\
             measure_level s' = measure_level s /\
             (turns_left s' + 1 = turns_left s)%nat) \/
            (turns_left s = 1%nat /\ game_over s' = true /\
             measure_level s' = 3)).
  { intros s1 Hrun1 Hi1 Hr1 Hic1 Hml1 Hn.
    apply next_turn_running in Hn; [|exact Hrun1].
    destruct Hrun as (_ & Hr & _).
    destruct Hn as [(Hr' & _ & Hic & _ & _ & Hml & Hcase)
                   | (Hi & Hr2 & Hend & Hml & _)].
    - left. split; [exact Hr'|]. split; [congruence|].
      split; [congruence|]. unfold turns_left.
      destruct Hcase as [(A & B & C & _) | (A & B & C & D & _)].
      + rewrite B, C, Hr1. rewrite <- Hi1, A.
        destruct Hr as [-> | ->]; reflexivity.
      + rewrite C, D. rewrite <- Hr1, B, <- Hi1, A. reflexivity.
    - right. split; [|split; [apply Hend | exact Hml]].
      unfold turns_left. rewrite <- Hr1, Hr2, <- Hi1, Hi. reflexivity. }
  destruct (String.eqb b "Measure") eqn:Eb;
    [apply String.eqb_eq in Eb; contradiction|].
  destruct (String.eqb b "Pass") eqn:Ep;
    [eapply Hnext; [| | | | |exact H]; [exact Hrun | reflexivity ..]|].
  destruct (String.eqb b "Re-Shuffle") eqn:Er;
    [eapply Hnext; [| | | | |exact H]; [exact Hrun | reflexivity ..]|].
  exfalso. destruct Hb as [<-|[<-|[<-|[]]]];
    [apply Hnm; reflexivity | vm_compute in Ep; discriminate Ep
    | vm_compute in Er; discriminate Er].
Qed.

(** A click on Measure ends the game at the level of the round plus 1. *)
Lemma click_measure (ch : string) (e : env) (s s' : game) :
  running s ->
  _on_action_button_clicked "Measure" ch e s = Done s' ->
  game_over s' = true /\ measure_level s' = current_round s + 1.
Proof.
  intros Hrun H.
  destruct (click_step _ _ _ _ _ Hrun H) as [(Hr' & _) | (Hend & Hlev)].
  - exfalso.
    destruct (click_cases _ _ _ _ _ Hrun H)
      as [(_ & Hg & _) | [([E|E] & _) | (Hnb & _)]]; try discriminate.
    + destruct Hr' as (Hg' & _). congruence.
    + apply Hnb. left. reflexivity.
  - split; [apply Hend|].
    destruct Hlev as [(_ & Hl) | (Hb & _)]; [exact Hl | contradiction].
Qed.

(** The play of a running session at turn number [i]: the clicks up to the
    first Measure, or up to the last turn of round 2, are handled one turn
    each. *)
Lemma play_schedule (clicks : list click) :
  forall (s s' : game) (log log' : list (Z * string)) (i : nat),
    running s -> (turns_left s + i = 4)%nat ->
    Forall (fun c => In (button c) action_buttons) clicks ->
    play clicks s log = Done (s', log') ->
    exists log1 : list (Z * string),
      log' = log ++ log1 /\
      let n := List.length (before_measure clicks) in
      (forall j r b, nth_error log1 j = Some (r, b) ->
         r = round_of_turn (i + j) /\
         exists c, nth_error clicks j = Some c /\ button c = b) /\
      ((n < List.length clicks)%nat -> (i + n < 4)%nat ->
       game_over s' = true /\
       measure_level s' = round_of_turn (i + n) + 1 /\
       List.length log1 = S n /\
       nth_error log1 n = Some (round_of_turn (i + n), "Measure"%string)) /\
      ((4 <= i + n)%nat ->
       game_over s' = true /\ measure_level s' = 3 /\
       List.length log1 = (4 - i)%nat) /\
      (n = List.length clicks -> (i + n < 4)%nat ->
       game_over s' = false /\ current_round s' = round_of_turn (i + n) /\
       measure_level s' = measure_level s /\ List.length log1 = n).
Proof.
  induction clicks as [|c clicks IHc];
    intros s s' log log' i Hrun Hturn Hok Hplay.
  - cbn [play] in Hplay. injection Hplay as <- <-.
    exists []. rewrite app_nil_r. split; [reflexivity|].
    cbn [before_measure List.length]. rewrite Nat.add_0_r.
    pose proof (turns_left_running s Hrun) as Hpos.
    split; [intros [|j] r b Hj; discriminate Hj|].
    split; [intros Hn; lia|]. split; [intros Hn; lia|].
    intros _ _. split; [apply Hrun|].
    split; [apply running_round; assumption|]. auto.
  - inversion Hok as [|? ? Hb Hok']; subst.
    pose proof (turns_left_running s Hrun) as Hpos.
    pose proof (running_round s i Hrun Hturn) as Hround.
    cbn [play] in Hplay. cbn [before_measure].
    pose proof Hrun as (Hg & _). rewrite Hg in Hplay.
    destruct (_on_action_button_clicked (button c) (choice c) (world c) s)
      as [s1| |] eqn:Hs1; try discriminate.
    cbn [bind] in Hplay.
    destruct (String.eqb (button c) "Measure") eqn:Eb.
    + (* Measure: the game ends here *)
      apply String.eqb_eq in Eb. rewrite Eb in Hs1.
      destruct (click_measure _ _ _ _ Hrun Hs1) as (Hg1 & Hl1).
      rewrite play_over in Hplay by exact Hg1. injection Hplay as <- <-.
      exists [(current_round s, button c)]. split; [reflexivity|].
      cbn [List.length]. rewrite Nat.add_0_r.
      split.
      { intros [|j] r b Hj; [|destruct j; discriminate Hj].
        injection Hj as <- <-. rewrite Nat.add_0_r.
        split; [exact Hround|]. exists c. split; reflexivity. }
      split.
      { intros _ _. split; [exact Hg1|]. split; [congruence|].
        split; [reflexivity|]. cbn [nth_error]. rewrite Hround, Eb.
        reflexivity. }
      split; [intros Hn; lia|]. intros Hn; discriminate Hn.
    + (* Pass or Re-Shuffle: one turn is used *)
      apply String.eqb_neq in Eb.
      destruct (click_moves _ _ _ _ _ Hrun Hb Eb Hs1)
        as [(Hr1 & Hic1 & Hml1 & Ht1) | (Ht1 & Hg1 & Hml1)].
      * destruct (IHc s1 s' (log ++ [(current_round s, button c)]) log'
                    (S i) Hr1 ltac:(lia) Hok' Hplay)
          as (log1 & Heq & Hlog & Hend & Hfull & Hopen).
        exists ((current_round s, button c) :: log1).
        rewrite <- app_assoc in Heq. split; [exact Heq|].
        cbn [List.length]. cbv zeta in *.
        set (n := List.length (before_measure clicks)) in *.
        replace (i + S n)%nat with (S i + n)%nat by lia.
        split.
        { intros [|j] r b Hj.
          - injection Hj as <- <-. rewrite Nat.add_0_r.
            split; [exact Hround|]. exists c. split; reflexivity.
          - replace (i + S j)%nat with (S i + j)%nat by lia.
            exact (Hlog j r b Hj). }
        split.
        { intros Hn Hi. destruct (Hend ltac:(lia) Hi) as (A & B & C & D).
          split; [exact A|]. split; [exact B|].
          split; [rewrite C; reflexivity | exact D]. }
        split.
        { intros Hi. destruct (Hfull Hi) as (A & B & C).
          split; [exact A|]. split; [exact B|]. rewrite C. lia. }
        intros Hn Hi. destruct (Hopen ltac:(lia) Hi) as (A & B & C & D).
        split; [exact A|]. split; [exact B|].
        split; [congruence | rewrite D; reflexivity].
      * rewrite play_over in Hplay by exact Hg1. injection Hplay as <- <-.
        exists [(current_round s, button c)]. split; [reflexivity|].
        cbn [List.length].
        set (n := List.length (before_measure clicks)) in *.
        assert (Hi3 : i = 3%nat) by lia.
        split.
        { intros [|j] r b Hj; [|destruct j; discriminate Hj].
          injection Hj as <- <-. rewrite Nat.add_0_r.
          split; [exact Hround|]. exists c. split; reflexivity. }
        split; [intros _ Hi; lia|].
        split; [intros _; split; [exact Hg1|]; split; [exact Hml1 | lia]|].
        intros _ Hi; lia.
Qed.

(** C3.  Take any clicks on the action buttons after [start_game], and let
    [n] be the number of clicks before the first click on Measure.  The
    play completes whenever each shot returns eighteen bits, and in every
    play that completes click number [i] (counted from 0) is handled in
    round 1 + i/2: round 2 is reached by the third click.  If Measure is
    clicked within the four turns, in round [r], the game ends there and
    the measure level is frozen to [r + 1].  If the four turns pass
    without Measure, the game ends with the fourth click at level 3.
    Otherwise the game is still running.  Hence a game that has ended is
    at level 2 exactly when Measure was clicked in round 1, and at level 3
    on every other path. *)
Theorem measure_level_of_ended_play (angles : nat -> R) (e0 : env)
    (s_prev : game) (clicks : list click) :
  Forall (fun c => In (button c) action_buttons) clicks ->
  exists s0 : game,
    start_game angles e0 s_prev = Done s0 /\
    (Forall (fun c => well_formed (world c)) clicks ->
     exists (s : game) (log : list (Z * string)),
       play clicks s0 [] = Done (s, log)) /\
    forall (s : game) (log : list (Z * string)),
      play clicks s0 [] = Done (s, log) ->
      let n := List.length (before_measure clicks) in
      (forall i r b, nth_error log i = Some (r, b) ->
         r = round_of_turn i /\
         exists c, nth_error clicks i = Some c /\ button c = b) /\
      ((n < List.length clicks)%nat -> (n < 4)%nat ->
       game_over s = true /\
       measure_level s = round_of_turn n + 1 /\
       List.length log = S n /\
       nth_error log n = Some (round_of_turn n, "Measure"%string)) /\
      ((4 <= n)%nat ->
       game_over s = true /\ measure_level s = 3 /\
       List.length log = 4%nat) /\
      (n = List.length clicks -> (n < 4)%nat ->
       game_over s = false /\ current_round s = round_of_turn n /\
       List.length log = n) /\
      (game_over s = true ->
       (measure_level s = 2
        <-> (n < List.length clicks)%nat /\ round_of_turn n = 1) /\
       (measure_level s = 3
        <-> ~ ((n < List.length clicks)%nat /\ round_of_turn n = 1))).
Proof.
  intros Hok.
  destruct (start_game_total angles e0 s_prev) as (s0 & Hs0 & Hdealt & _).
  destruct (start_game_spec _ _ _ _ Hs0) as (Hrun & _).
  exists s0. split; [exact Hs0|].
  split; [intros Hwf; exact (play_total clicks s0 [] Hrun Hdealt Hwf)|].
  intros s log Hplay.
  assert (H4 : (turns_left s0 + 0 = 4)%nat).
  { destruct (start_game_first_turn _ _ _ _ Hs0) as (Hr1 & Hi0).
    unfold turns_left. rewrite Hr1, Hi0. reflexivity. }
  destruct (play_schedule clicks s0 s [] log 0 Hrun H4 Hok Hplay)
    as (log1 & Heq & Hlog & Hend & Hfull & Hopen).
  cbn [app] in Heq. subst log1.
  cbv zeta in *. cbn [Nat.add] in *.
  set (n := List.length (before_measure clicks)) in *.
  pose proof (before_measure_length clicks) as Hle. fold n in Hle.
  split; [exact Hlog|]. split; [exact Hend|].
  split; [intros Hn; destruct (Hfull Hn) as (A & B & C); auto|].
  split; [intros Hn Hi; destruct (Hopen Hn Hi) as (A & B & _ & D); auto|].
  intros Hover.
  assert (Hround : round_of_turn n = 1 <-> (n < 2)%nat).
  { unfold round_of_turn.
    destruct n as [|[|k]]; [cbn; lia | cbn; lia|].
    assert (1 <= S (S k) / 2)%nat
      by (apply Nat.div_le_lower_bound; lia).
    lia. }
  rewrite Hround.
  assert (Hcases : (n < List.length clicks /\ n < 2)%nat \/
                   (n < List.length clicks /\ (n = 2 \/ n = 3))%nat \/
                   (4 <= n)%nat \/
                   (n = List.length clicks /\ n < 4)%nat) by lia.
  destruct Hcases as [(Hn & Hi) | [(Hn & Hi) | [Hn | (Hn & Hi)]]].
  - destruct (Hend Hn ltac:(lia)) as (_ & Hl & _).
    assert (Hr : round_of_turn n = 1)
      by (destruct n as [|[|k]]; [reflexivity | reflexivity | lia]).
    rewrite Hr in Hl. split; split; intros; try lia; tauto.
  - destruct (Hend Hn ltac:(lia)) as (_ & Hl & _).
    assert (Hr : round_of_turn n = 2)
      by (destruct Hi as [-> | ->]; reflexivity).
    rewrite Hr in Hl. split; split; intros; try lia.
  - destruct (Hfull Hn) as (_ & Hl & _).
    split; split; intros; try lia.
  - destruct (Hopen Hn Hi) as (Hg & _). congruence.
Qed.

Lemma measure_level_of_ended_play_witness :
  exists s0 : game,
    start_game demo_angles demo_env init = Done s0 /\
    (Forall (fun c => well_formed (world c)) demo_clicks ->
     exists (s : game) (log : list (Z * string)),
       play demo_clicks s0 [] = Done (s, log)) /\
    forall (s : game) (log : list (Z * string)),
      play demo_clicks s0 [] = Done (s, log) ->
      let n := List.length (before_measure demo_clicks) in
      (forall i r b, nth_error log i = Some (r, b) ->
         r = round_of_turn i /\
         exists c, nth_error demo_clicks i = Some c /\ button c = b) /\
      ((n < List.length demo_clicks)%nat -> (n < 4)%nat ->
       game_over s = true /\
       measure_level s = round_of_turn n + 1 /\
       List.length log = S n /\
       nth_error log n = Some (round_of_turn n, "Measure"%string)) /\
      ((4 <= n)%nat ->
       game_over s = true /\ measure_level s = 3 /\
       List.length log = 4%nat) /\
      (n = List.length demo_clicks -> (n < 4)%nat ->
       game_over s = false /\ current_round s = round_of_turn n /\
       List.length log = n) /\
      (game_over s = true ->
       (measure_level s = 2
        <-> (n < List.length demo_clicks)%nat /\ round_of_turn n = 1) /\
       (measure_level s = 3
        <-> ~ ((n < List.length demo_clicks)%nat /\ round_of_turn n = 1))).
Proof.
  apply (measure_level_of_ended_play demo_angles demo_env init demo_clicks).
  vm_compute. repeat constructor; tauto.
Defined.

(** ** The hands and scores of a finished game *)

Lemma end_game_hands (e : env) (s s' : game) :
  _end_game e s = Done s' ->
  exists (i1 i2 : Z) (h1 h2 hd : list Z),
    Py.get (initial_cards s) "Player 1" = Done i1 /\
    Py.get (initial_cards s) "Player 2" = Done i2 /\
    Py.get (player_hands s') "Player 1" = Done (i1 :: h1) /\
    Py.get (player_hands s') "Player 2" = Done (i2 :: h2) /\
    Py.get (player_hands s') "Dealer" = Done hd /\
    card_values h1 /\ card_values h2 /\
    List.length h1 = (if measure_level s =? 3 then 2%nat else 1%nat) /\
    List.length h2 = (if measure_level s =? 3 then 2%nat else 1%nat) /\
    Py.get (player_scores s') "Player 1" = Done (Py.sum (i1 :: h1)) /\
    Py.get (player_scores s') "Player 2" = Done (Py.sum (i2 :: h2)) /\
    Py.get (player_scores s') "Dealer" = Done (Py.sum hd).
Proof.
  unfold _end_game. intros H.
  rewrite update_turn_highlight_over in H by reflexivity. cbn [bind] in H.
  set (s1 := set_action_boxes false false (set_game_over true s)) in H.
  pose proof (add_measurements_frame s1) as Hm. cbv zeta in Hm.
  set (s2 := _add_measurements_to_circuit s1) in *.
  destruct Hm as (Hc2 & _). apply control_of_eq in Hc2.
  destruct Hc2 as (Hic2 & _ & _ & _ & Hml2).
  destruct (_process_quantum_results (memory e) s2) as [s3| |] eqn:E3;
    try discriminate.
  cbn [bind] in H.
  destruct (process_all _ _ _ E3)
    as (i1 & i2 & id & h1 & h2 & hd & Hi1 & Hi2 & _ & Hs3 & Hv1 & Hv2 & _ & _
        & Hl1 & Hl2).
  cbv zeta in Hs3.
  assert (Hh3 : Py.get (player_hands s3) "Dealer" = Done (id :: hd))
    by (rewrite Hs3; reflexivity).
  assert (Hsc3 : Py.get (player_scores s3) "Dealer" = Done (Py.sum (id :: hd)))
    by (rewrite Hs3; apply rescore_dealer).
  unfold _dealer_final_turn in H. rewrite Hsc3 in H. cbn [bind] in H.
  destruct (dealer_loop (fuel e) (draws e) 0 (Py.sum (id :: hd)) s3)
    as [s4| |] eqn:E4; try discriminate.
  cbn [bind] in H.
  destruct (dealer_loop_spec _ _ _ _ _ _ _ Hh3 Hsc3 E4)
    as (n & _ & Hh4 & Hsc4 & _ & _ & _ & _ & _ & _ & _ & _ & _ & Hother).
  destruct (final_summary_frame _ _ H) as (_ & _ & _ & Hh5 & Hsc5 & _).
  destruct (Hother "Player 1"%string ltac:(discriminate)) as (Hp1h & Hp1s).
  destruct (Hother "Player 2"%string ltac:(discriminate)) as (Hp2h & Hp2s).
  exists i1, i2, h1, h2, ((id :: hd) ++ cards (draws e) 0 n).
  rewrite Hh5, Hsc5, Hp1h, Hp1s, Hp2h, Hp2s, Hh4, Hsc4.
  change (initial_cards s) with (initial_cards s1). rewrite <- Hic2.
  change (measure_level s) with (measure_level s1). rewrite <- Hml2.
  split; [exact Hi1|]. split; [exact Hi2|].
  split; [rewrite Hs3; reflexivity|]. split; [rewrite Hs3; reflexivity|].
  split; [reflexivity|]. split; [exact Hv1|]. split; [exact Hv2|].
  split; [exact Hl1|]. split; [exact Hl2|].
  split; [rewrite Hs3; apply rescore_player1|].
  split; [rewrite Hs3; apply rescore_player2|].
  rewrite sum_app. reflexivity.
Qed.

Lemma click_ends_by_end_game (b ch : string) (e : env) (s s' : game) :
  running s ->
  _on_action_button_clicked b ch e s = Done s' ->
  game_over s' = true ->
  exists s1, _end_game e s1 = Done s' /\
             initial_cards s1 = initial_cards s /\
             player_scores s1 = player_scores s.
Proof.
  intros Hrun H Hover. unfold _on_action_button_clicked in H.
  destruct (running_index s Hrun) as (p & Hp & _). rewrite Hp in H.
  cbn [bind] in H.
  assert (Hnext : forall s1, running s1 -> initial_cards s1 = initial_cards s ->
                    player_scores s1 = player_scores s ->
                    _next_turn e s1 = Done s' ->
                    exists s2, _end_game e s2 = Done s' /\
                               initial_cards s2 = initial_cards s /\
                               player_scores s2 = player_scores s).
  { intros s1 Hr1 Hic Hsc Hn.
    destruct (next_turn_cases e s1 Hr1)
      as [(s2 & Hs2 & Hr2 & _) | (_ & _ & Heq)].
    - rewrite Hs2 in Hn. injection Hn as <-.
      destruct Hr2 as (Hg & _). congruence.
    - rewrite Heq in Hn. eexists.
      split; [exact Hn | split; [exact Hic | exact Hsc]]. }
  destruct (String.eqb b "Measure").
  - eexists. split; [exact H | split; reflexivity].
  - destruct (String.eqb b "Pass");
      [eapply Hnext; [| | |exact H]; [exact Hrun | reflexivity ..]|].
    destruct (String.eqb b "Re-Shuffle");
      [eapply Hnext; [| | |exact H]; [exact Hrun | reflexivity ..]|].
    injection H as <-. destruct Hrun as (Hg & _). congruence.
Qed.

(** X5.  When a game is over, each player holds exactly as many cards as the
    measure level says (2 or 3): the initial card followed by the quantum
    cards, all of them between 1 and 8; every participant's score is the sum
    of the hand, so a player's score lies between the level and eight times
    the level; in particular no player busts in a game that ends at level 2. *)
Theorem final_hands_and_scores (angles : nat -> R) (e0 : env)
    (s_prev s0 s : game) (clicks : list click) (log : list (Z * string)) :
  start_game angles e0 s_prev = Done s0 ->
  play clicks s0 [] = Done (s, log) ->
  game_over s = true ->
  (measure_level s = 2 \/ measure_level s = 3) /\
  exists (i1 i2 : Z) (h1 h2 hd : list Z),
    Py.get (initial_cards s) "Player 1" = Done i1 /\
    Py.get (initial_cards s) "Player 2" = Done i2 /\
    Py.get (player_hands s) "Player 1" = Done (i1 :: h1) /\
    Py.get (player_hands s) "Player 2" = Done (i2 :: h2) /\
    Py.get (player_hands s) "Dealer" = Done hd /\
    card_values (i1 :: h1) /\ card_values (i2 :: h2) /\
    Z.of_nat (List.length (i1 :: h1)) = measure_level s /\
    Z.of_nat (List.length (i2 :: h2)) = measure_level s /\
    Py.get (player_scores s) "Player 1" = Done (Py.sum (i1 :: h1)) /\
    Py.get (player_scores s) "Player 2" = Done (Py.sum (i2 :: h2)) /\
    Py.get (player_scores s) "Dealer" = Done (Py.sum hd) /\
    measure_level s <= Py.sum (i1 :: h1) <= 8 * measure_level s /\
    measure_level s <= Py.sum (i2 :: h2) <= 8 * measure_level s /\
    (measure_level s = 2 ->
     Py.sum (i1 :: h1) <= TARGET_SCORE /\ Py.sum (i2 :: h2) <= TARGET_SCORE).
Proof.
  intros Hstart Hplay Hover.
  destruct (start_game_spec _ _ _ _ Hstart) as (Hrun & _).
  destruct (start_game_total angles e0 s_prev) as (s0' & Hs0' & Hdealt & _).
  rewrite Hstart in Hs0'. injection Hs0' as <-.
  assert (Hlevel : measure_level s = 2 \/ measure_level s = 3).
  { destruct (play_spec _ _ _ _ _ Hrun Hplay Hover)
      as (log0 & r & b & s1 & _ & Hr1 & Hcr & _ & _ & Hlev).
    destruct Hr1 as (_ & Hr & _). rewrite Hcr in Hr.
    destruct Hlev as [(_ & Hl) | (_ & _ & Hl)]; lia. }
  split; [exact Hlevel|].
  destruct (play_last _ _ _ _ _ Hrun Hplay Hover)
    as (log1 & c & s1 & _ & Hrun1 & _ & Hic1 & Hc).
  destruct (click_ends_by_end_game _ _ _ _ _ Hrun1 Hc Hover)
    as (s2 & Hend & Hic2 & _).
  destruct (end_game_spec _ _ _ Hend) as (_ & Hctl & _).
  apply control_of_eq in Hctl. destruct Hctl as (Hic & _ & _ & _ & Hml).
  destruct (end_game_hands _ _ _ Hend)
    as (i1 & i2 & h1 & h2 & hd & Hi1 & Hi2 & Hh1 & Hh2 & Hhd & Hv1 & Hv2
        & Hl1 & Hl2 & Hs1 & Hs2 & Hsd).
  rewrite <- Hml in Hl1, Hl2. rewrite <- Hic in Hi1, Hi2.
  assert (Hi1v : MIN_CARD_VALUE <= i1 <= MAX_CARD_VALUE /\
                 MIN_CARD_VALUE <= i2 <= MAX_CARD_VALUE).
  { destruct Hdealt as (j1 & j2 & jd & Hj1 & Hj2 & _ & Hcv).
    rewrite Hic, Hic2, Hic1 in Hi1, Hi2.
    rewrite Hi1 in Hj1. rewrite Hi2 in Hj2.
    injection Hj1 as <-. injection Hj2 as <-.
    unfold card_values in Hcv. split.
    - apply Forall_inv in Hcv. exact Hcv.
    - apply Forall_inv_tail, Forall_inv in Hcv. exact Hcv. }
  destruct Hi1v as (Hi1v & Hi2v).
  assert (Hc1 : card_values (i1 :: h1)) by (constructor; assumption).
  assert (Hc2 : card_values (i2 :: h2)) by (constructor; assumption).
  assert (Hn1 : Z.of_nat (List.length (i1 :: h1)) = measure_level s).
  { cbn [List.length]. rewrite Hl1.
    destruct Hlevel as [-> | ->]; reflexivity. }
  assert (Hn2 : Z.of_nat (List.length (i2 :: h2)) = measure_level s).
  { cbn [List.length]. rewrite Hl2.
    destruct Hlevel as [-> | ->]; reflexivity. }
  pose proof (card_values_sum _ Hc1) as Hsum1.
  pose proof (card_values_sum _ Hc2) as Hsum2.
  rewrite Hn1 in Hsum1. rewrite Hn2 in Hsum2.
  exists i1, i2, h1, h2, hd. repeat (split; [assumption|]).
  intros Hlev2. unfold TARGET_SCORE. lia.
Qed.

Lemma final_hands_and_scores_witness :
  (measure_level demo_final = 2 \/ measure_level demo_final = 3) /\
  exists (i1 i2 : Z) (h1 h2 hd : list Z),
    Py.get (initial_cards demo_final) "Player 1" = Done i1 /\
    Py.get (initial_cards demo_final) "Player 2" = Done i2 /\
    Py.get (player_hands demo_final) "Player 1" = Done (i1 :: h1) /\
    Py.get (player_hands demo_final) "Player 2" = Done (i2 :: h2) /\
    Py.get (player_hands demo_final) "Dealer" = Done hd /\
    card_values (i1 :: h1) /\ card_values (i2 :: h2) /\
    Z.of_nat (List.length (i1 :: h1)) = measure_level demo_final /\
    Z.of_nat (List.length (i2 :: h2)) = measure_level demo_final /\
    Py.get (player_scores demo_final) "Player 1" = Done (Py.sum (i1 :: h1)) /\
    Py.get (player_scores demo_final) "Player 2" = Done (Py.sum (i2 :: h2)) /\
    Py.get (player_scores demo_final) "Dealer" = Done (Py.sum hd) /\
    measure_level demo_final <= Py.sum (i1 :: h1) <= 8 * measure_level demo_final /\
    measure_level demo_final <= Py.sum (i2 :: h2) <= 8 * measure_level demo_final /\
    (measure_level demo_final = 2 ->
     Py.sum (i1 :: h1) <= TARGET_SCORE /\ Py.sum (i2 :: h2) <= TARGET_SCORE).
Proof.
  apply (final_hands_and_scores demo_angles demo_env init demo_start
           demo_final demo_clicks demo_log); vm_compute; reflexivity.
Defined.

(** ** Measuring happens once, at the end *)

Lemma measurements_qubits (level : Z) :
  measurements level = map (fun q => IMeasure q q) (measured_qubits level).
Proof.
  unfold measurements, measured, measured_qubits,
    _add_measurements_to_circuit.
  cbn [measure_level _set_round_message set_round_label set_qc
       set_measure_level _set_message set_message_label qc init].
  destruct (level =? 2); reflexivity.
Qed.

Lemma measured_qubits_nodup (level : Z) : NoDup (measured_qubits level).
Proof.
  unfold measured_qubits. destruct (level =? 2); vm_compute;
    repeat (constructor; [cbn [In]; intuition discriminate|]); constructor.
Qed.

(** X6.  While a session runs its circuit holds gates only (H, RY, CX on the
    eighteen qubits, and barriers): nothing is measured before the end.  The
    circuit of a finished game is that circuit of gates followed by one
    measurement of each qubit measured at the level reached, into the
    classical bit of the same index: the qubits 3..5 of every register at
    level 2, all eighteen qubits at level 3. *)
Theorem measured_once_at_the_end (angles : nat -> R) (e0 : env)
    (s_prev s0 s : game) (clicks : list click) (log : list (Z * string)) :
  start_game angles e0 s_prev = Done s0 ->
  play clicks s0 [] = Done (s, log) ->
  exists gates : circuit,
    gates_on all_qubits gates = true /\
    NoDup (measured_qubits (measure_level s)) /\
    qc s = if game_over s
           then gates ++ map (fun q => IMeasure q q)
                           (measured_qubits (measure_level s))
           else gates.
Proof.
  intros Hstart Hplay.
  destruct (session_circuit _ _ _ _ _ _ _ Hstart Hplay) as (hist & _ & Hq).
  exists (reshuffles hist (prepared angles)).
  split; [apply gates_on_reshuffles|].
  split; [apply measured_qubits_nodup|].
  rewrite Hq. destruct (game_over s); [|reflexivity].
  rewrite measured_shape, measurements_qubits. reflexivity.
Qed.

Lemma measured_once_at_the_end_witness :
  exists gates : circuit,
    gates_on all_qubits gates = true /\
    NoDup (measured_qubits (measure_level demo_ended)) /\
    qc demo_ended
    = if game_over demo_ended
      then gates ++ map (fun q => IMeasure q q)
                      (measured_qubits (measure_level demo_ended))
      else gates.
Proof.
  apply (measured_once_at_the_end demo_angles demo_env init demo_start
           demo_ended [mkClick "Measure" "1" demo_env]
           [(1, "Measure"%string)]); vm_compute; reflexivity.
Defined.

(** ** Card values and bit strings *)

Lemma int2_acc_done (s : string) :
  forall acc, binary s = true -> exists n, Py.int2_acc acc s = Done n.
Proof.
  induction s as [|c s IH]; intros acc Hb.
  - eexists. reflexivity.
  - unfold binary in Hb. cbn [list_ascii_of_string forallb] in Hb.
    apply andb_true_iff in Hb. destruct Hb as [Hc Hs].
    cbn [Py.int2_acc]. destruct (Ascii.eqb c "0"); [apply IH; exact Hs|].
    cbn [orb] in Hc. rewrite Hc. apply IH. exact Hs.
Qed.

Lemma int2_acc_injective (s : string) :
  forall (s' : string) (acc acc' v : Z),
    String.length s = String.length s' ->
    Py.int2_acc acc s = Done v -> Py.int2_acc acc' s' = Done v ->
    acc = acc' /\ s = s'.
Proof.
  induction s as [|c s IH]; intros [|c' s'] acc acc' v Hlen H H';
    try discriminate.
  - simpl in H, H'. split; congruence.
  - cbn [Py.int2_acc] in H, H'. cbn [String.length] in Hlen.
    injection Hlen as Hlen.
    destruct (Ascii.eqb c "0") eqn:C0; destruct (Ascii.eqb c' "0") eqn:C0';
      [| destruct (Ascii.eqb c' "1") eqn:C1'; [|discriminate]
       | destruct (Ascii.eqb c "1") eqn:C1; [|discriminate]
       | destruct (Ascii.eqb c "1") eqn:C1; [|discriminate];
         destruct (Ascii.eqb c' "1") eqn:C1'; [|discriminate]];
      destruct (IH _ _ _ _ Hlen H H') as [Ha ->];
      repeat match goal with
             | E : Ascii.eqb _ _ = true |- _ => apply Ascii.eqb_eq in E
             end; subst; split; try reflexivity; lia.
Qed.

Lemma int2_acc_onto (n : nat) :
  forall acc v : Z,
    acc * 2 ^ Z.of_nat n <= v < (acc + 1) * 2 ^ Z.of_nat n ->
    exists s, String.length s = n /\ binary s = true /\
              Py.int2_acc acc s = Done v.
Proof.
  induction n as [|n IH]; intros acc v Hv.
  - exists ""%string. simpl in Hv. repeat split. simpl. f_equal. lia.
  - rewrite Nat2Z.inj_succ, Z.pow_succ_r in Hv by lia.
    destruct (Z_lt_ge_dec v ((2 * acc + 1) * 2 ^ Z.of_nat n)) as [Hlt|Hge].
    + destruct (IH (2 * acc) v) as (s & Hl & Hb & Hs); [lia|].
      exists (String "0" s). cbn [String.length]. split; [congruence|].
      split; [exact Hb | exact Hs].
    + destruct (IH (2 * acc + 1) v) as (s & Hl & Hb & Hs); [lia|].
      exists (String "1" s). cbn [String.length]. split; [congruence|].
      split; [exact Hb | exact Hs].
Qed.

(** X7.  [_get_card_value_from_binary] on strings of binary digits.  A
    non-empty string of binary digits of length [n] yields a value between 1
    and 2^n, and the empty string raises [ValueError].  On the strings of
    binary digits of one length [n] the method is a one-to-one
    correspondence with the values 1..2^n: for the three-character groups of
    the game, with the cards 1..8. *)
Theorem card_value_from_binary_bijective :
  (forall s : string,
     s <> ""%string -> binary s = true ->
     exists v, _get_card_value_from_binary s = Done v /\
               1 <= v <= 2 ^ Z.of_nat (String.length s)) /\
  _get_card_value_from_binary "" = Raise ValueError /\
  (forall (s s' : string) (v : Z),
     binary s = true -> binary s' = true ->
     String.length s = String.length s' ->
     _get_card_value_from_binary s = Done v ->
     _get_card_value_from_binary s' = Done v -> s = s') /\
  (forall (n : nat) (v : Z),
     (1 <= n)%nat -> 1 <= v <= 2 ^ Z.of_nat n ->
     exists s, String.length s = n /\ binary s = true /\
               _get_card_value_from_binary s = Done v).
Proof.
  split; [|split; [reflexivity | split]].
  - intros s Hne Hb. unfold _get_card_value_from_binary, Py.int2.
    destruct s as [|c s]; [contradiction|].
    destruct (int2_acc_done (String c s) 0 Hb) as [n Hn].
    rewrite Hn. cbn [bind]. exists (n + 1). split; [reflexivity|].
    apply int2_acc_bound in Hn; lia.
  - intros s s' v _ _ Hlen H H'.
    unfold _get_card_value_from_binary, Py.int2 in H, H'.
    destruct s as [|c s]; [discriminate|].
    destruct s' as [|c' s']; [discriminate|].
    destruct (Py.int2_acc 0 (String c s)) as [n| |] eqn:E; try discriminate.
    destruct (Py.int2_acc 0 (String c' s')) as [n'| |] eqn:E';
      try discriminate.
    cbn [bind] in H, H'. injection H as H. injection H' as H'.
    assert (n' = n) by lia. subst n'.
    apply (int2_acc_injective _ _ _ _ _ Hlen E E').
  - intros n v Hn Hv.
    destruct (int2_acc_onto n 0 (v - 1)) as (s & Hl & Hb & Hs); [lia|].
    exists s. split; [exact Hl|]. split; [exact Hb|].
    unfold _get_card_value_from_binary, Py.int2.
    destruct s as [|c s]; [simpl in Hl; lia|].
    rewrite Hs. cbn [bind]. f_equal. lia.
Qed.

Lemma card_value_from_binary_bijective_witness :
  (exists v, _get_card_value_from_binary "101" = Done v /\
             1 <= v <= 2 ^ Z.of_nat (String.length "101")) /\
  (exists s, String.length s = 3%nat /\ binary s = true /\
             _get_card_value_from_binary s = Done 8).
Proof.
  destruct card_value_from_binary_bijective as (H1 & _ & _ & H3).
  split.
  - apply (H1 "101"%string); [discriminate | reflexivity].
  - apply (H3 3%nat 8); [lia | vm_compute; split; discriminate].
Defined.

(** ** The colour of the final message *)

Lemma free_of_app (c : ascii) (a b : string) :
  free_of c (a ++ b) = free_of c a && free_of c b.
Proof.
  unfold free_of. induction a as [|x a IH]; [reflexivity|].
  cbn [append list_ascii_of_string forallb]. rewrite IH.
  apply andb_assoc.
Qed.

Lemma contains_free (c : ascii) (needle hay : string) :
  free_of c hay = true -> Py.contains (String c needle) hay = false.
Proof.
  unfold free_of. induction hay as [|x hay IH]; intros H; [reflexivity|].
  cbn [list_ascii_of_string forallb] in H. apply andb_true_iff in H.
  destruct H as [Hx Hh]. cbn [Py.contains prefix].
  destruct (ascii_dec c x) as [->|_].
  - rewrite Ascii.eqb_refl in Hx. discriminate.
  - cbn [orb]. apply IH. exact Hh.
Qed.

Lemma prefix_app (n b : string) : prefix n (n ++ b) = true.
Proof.
  induction n as [|x n IH]; [destruct b; reflexivity|].
  cbn [append prefix]. destruct (ascii_dec x x); [exact IH | contradiction].
Qed.

Lemma contains_here (n b : string) : Py.contains n (n ++ b) = true.
Proof.
  destruct (n ++ b)%string eqn:E; unfold Py.contains; fold Py.contains;
    rewrite <- E, prefix_app; reflexivity.
Qed.

Lemma contains_skip (n a h : string) :
  Py.contains n h = true -> Py.contains n (a ++ h) = true.
Proof.
  intros H. induction a as [|x a IH]; [exact H|].
  cbn [append Py.contains]. rewrite IH. apply orb_true_r.
Qed.

Lemma free_of_uint (d : Decimal.uint) :
  free_of "C" (DecimalString.NilEmpty.string_of_uint d) = true.
Proof. induction d; cbn; auto. Qed.

Lemma free_of_str (n : Z) : free_of "C" (Py.str n) = true.
Proof.
  unfold Py.str, DecimalString.NilZero.string_of_int.
  destruct (Z.to_int n) as [d|d];
    [|change (String "-" ?s) with ("-" ++ s)%string; rewrite free_of_app];
    unfold DecimalString.NilZero.string_of_uint;
    destruct d; try reflexivity; apply free_of_uint.
Qed.

Lemma free_of_participant (p : string) :
  In p participants -> free_of "C" p = true.
Proof. intros [<-|[<-|[<-|[]]]]; reflexivity. Qed.

Lemma free_of_bust_text (scores : Py.dict Z) :
  (forall p, In p (Py.keys scores) -> In p participants) ->
  free_of "C" (bust_text scores) = true.
Proof.
  unfold bust_text. induction scores as [|[p sc] l IH]; intros Hk;
    [reflexivity|].
  assert (Hl : forall q, In q (Py.keys l) -> In q participants)
    by (intros q Hq; apply Hk; right; exact Hq).
  cbn [filter snd]. destruct (sc >? TARGET_SCORE); [|apply IH; exact Hl].
  cbn [map fst snd]. rewrite concat_empty_cons, !free_of_app.
  rewrite (IH Hl), free_of_str, free_of_participant
    by (apply Hk; left; reflexivity).
  reflexivity.
Qed.

Lemma free_of_concat (l : list string) :
  (forall p, In p l -> In p participants) ->
  free_of "C" (String.concat ", " l) = true.
Proof.
  induction l as [|p l IH]; intros Hk; [reflexivity|].
  assert (Hp : free_of "C" p = true)
    by (apply free_of_participant, Hk; left; reflexivity).
  destruct l as [|q l]; [exact Hp|].
  cbn [String.concat]. rewrite !free_of_app, Hp.
  cbn [String.concat] in IH. rewrite IH; [reflexivity|].
  intros r Hr. apply Hk. right. exact Hr.
Qed.

Lemma nodup_all_equal (l : list string) (p : string) :
  NoDup l -> l <> [] -> (forall q, In q l -> q = p) -> l = [p].
Proof.
  intros Hnd Hne Hall. destruct l as [|a [|b l]]; [contradiction| |].
  - f_equal. apply Hall. left. reflexivity.
  - exfalso. inversion Hnd as [|? ? Hna _]; subst. apply Hna. left.
    rewrite (Hall a), (Hall b); simpl; auto.
Qed.

Lemma summary_colour (s s' : game) :
  NoDup (Py.keys (player_scores s)) ->
  (forall p, In p (Py.keys (player_scores s)) -> In p participants) ->
  _generate_final_summary s = Done s' ->
  exists msg col : string,
    winner_message_of (player_scores s) = Done msg /\
    message_label s'
    = ("<p style='color:" ++ col ++ ";'>" ++ msg ++ "</p>")%string /\
    (sole_leader (player_scores s) -> col = "green"%string) /\
    (~ sole_leader (player_scores s) -> col = "red"%string).
Proof.
  intros Hnd Hkeys H.
  destruct (final_summary_done _ _ H) as (msg0 & html & Hm0 & _ & ->).
  set (scores := player_scores s) in *.
  destruct (winner_message_of_spec scores Hnd) as (v & Hv & Hmsg).
  rewrite Hmsg in Hm0. injection Hm0 as <-.
  exists (bust_text scores ++ v)%string.
  assert (Hnb : forall p sc, In (p, sc) (not_busted scores)
                             <-> In (p, sc) scores /\ sc <= TARGET_SCORE).
  { intros p sc. unfold not_busted. rewrite filter_In. simpl.
    rewrite Z.leb_le. tauto. }
  assert (Hfree := free_of_bust_text scores Hkeys).
  destruct (not_busted scores) as [|x l] eqn:E.
  - (* everyone busted *)
    simpl in Hv. injection Hv as <-.
    exists "red"%string. split; [exact Hmsg|]. split.
    + cbn [message_label _set_message set_message_label].
      rewrite contains_free; [reflexivity|].
      rewrite free_of_app, Hfree. reflexivity.
    + split; [|reflexivity].
      intros (p & sc & Hin & Hle & _).
      destruct (proj2 (Hnb p sc) (conj Hin Hle)).
  - rewrite <- E in *.
    assert (Hne : not_busted scores <> []) by (rewrite E; discriminate).
    destruct (verdict_spec _ Hne)
      as (mx & winners & msg & Hmsg' & Hmx & Hmax & Hw & Hwne & Htie & Hone).
    rewrite Hmsg' in Hv. injection Hv as <-.
    assert (Hwin : forall p, In p winners <-> In (p, mx) (not_busted scores)).
    { intros p. rewrite Hw. unfold winners_of. rewrite in_map_iff. split.
      - intros ([p0 s0] & Hp0 & Hf). simpl in Hp0. subst p0.
        apply filter_In in Hf. destruct Hf as [Hf Heq]. simpl in Heq.
        apply Z.eqb_eq in Heq. subst s0. exact Hf.
      - intros Hin. exists (p, mx). split; [reflexivity|].
        apply filter_In. split; [exact Hin | simpl; apply Z.eqb_refl]. }
    assert (Hwnd : NoDup winners).
    { rewrite Hw. unfold winners_of.
      apply (nodup_filter_keys (fun ps => snd ps =? mx)).
      apply nodup_filter_keys. exact Hnd. }
    assert (Hwk : forall p, In p winners -> In p participants).
    { intros p Hp. apply Hwin, Hnb in Hp. destruct Hp as [Hp _].
      apply Hkeys. unfold Py.keys. apply in_map_iff. exists (p, mx). auto. }
    assert (Hsole : sole_leader scores <-> exists w, winners = [w]).
    { split.
      - intros (p & sc & Hin & Hle & Hlead). exists p.
        assert (Hpv : In (p, sc) (not_busted scores)) by (apply Hnb; auto).
        assert (Hsc : sc <= mx).
        { apply Hmax. unfold Py.values. apply in_map_iff.
          exists (p, sc). auto. }
        apply nodup_all_equal; [exact Hwnd | exact Hwne|].
        intros q Hq. apply Hwin, Hnb in Hq. destruct Hq as [Hq Hqle].
        destruct (string_dec q p) as [->|Hqp]; [reflexivity|].
        specialize (Hlead q mx Hq Hqle Hqp). lia.
      - intros (w & Hw1).
        assert (Hwv : In (w, mx) (not_busted scores))
          by (apply Hwin; rewrite Hw1; left; reflexivity).
        apply Hnb in Hwv. destruct Hwv as [Hwin' Hwle].
        exists w, mx. split; [exact Hwin'|]. split; [exact Hwle|].
        intros p' sc' Hin' Hle' Hne'.
        assert (Hsc' : sc' <= mx).
        { apply Hmax. unfold Py.values. apply in_map_iff.
          exists (p', sc'). split; [reflexivity|]. apply Hnb. auto. }
        destruct (Z.eq_dec sc' mx) as [->|]; [|lia].
        exfalso. apply Hne'.
        assert (Hp' : In p' winners) by (apply Hwin, Hnb; auto).
        rewrite Hw1 in Hp'. destruct Hp' as [<-|[]]. reflexivity. }
    destruct winners as [|w [|w' ws]]; [contradiction| |].
    + (* a sole winner *)
      exists "green"%string. split; [exact Hmsg|]. split.
      * cbn [message_label _set_message set_message_label].
        rewrite (Hone w eq_refl).
        rewrite contains_skip; [reflexivity|].
        change ("CONGRATULATIONS! " ++ w ++ " wins with a score of "
                ++ Py.str mx ++ "!")%string
          with ("CONGRATULATIONS"
                ++ ("! " ++ w ++ " wins with a score of "
                    ++ Py.str mx ++ "!"))%string.
        apply contains_here.
      * split; [reflexivity|]. intros Hn. exfalso. apply Hn, Hsole.
        exists w. reflexivity.
    + (* a tie *)
      exists "red"%string. split; [exact Hmsg|]. split.
      * cbn [message_label _set_message set_message_label].
        rewrite (Htie ltac:(simpl; lia)).
        rewrite contains_free; [reflexivity|].
        rewrite !free_of_app, Hfree, free_of_str, free_of_concat by exact Hwk.
        reflexivity.
      * split; [|reflexivity]. intros Hs. apply Hsole in Hs.
        destruct Hs as (w0 & Hw0). discriminate Hw0.
Qed.

(** X8.  The final message is shown in green exactly when there is a sole
    winner, and in red otherwise (a tie, or everyone busted): the colour is
    chosen by looking for "CONGRATULATIONS" in the message, which neither
    the names of the participants, nor the scores, nor the other texts
    contain. *)
Theorem final_message_colour (s s' : game) :
  NoDup (Py.keys (player_scores s)) ->
  (forall p, In p (Py.keys (player_scores s)) -> In p participants) ->
  _generate_final_summary s = Done s' ->
  exists msg col : string,
    winner_message_of (player_scores s) = Done msg /\
    message_label s'
    = ("<p style='color:" ++ col ++ ";'>" ++ msg ++ "</p>")%string /\
    (sole_leader (player_scores s) -> col = "green"%string) /\
    (~ sole_leader (player_scores s) -> col = "red"%string).
Proof. exact (summary_colour s s'). Qed.

Lemma final_message_colour_witness :
  exists msg col : string,
    winner_message_of (player_scores demo_final) = Done msg /\
    message_label demo_summary
    = ("<p style='color:" ++ col ++ ";'>" ++ msg ++ "</p>")%string /\
    (sole_leader (player_scores demo_final) -> col = "green"%string) /\
    (~ sole_leader (player_scores demo_final) -> col = "red"%string).
Proof.
  apply (final_message_colour demo_final demo_summary).
  - vm_compute. repeat (constructor; [cbn [In]; intuition discriminate|]).
    constructor.
  - vm_compute. tauto.
  - vm_compute. reflexivity.
Defined.

(** ** The summary of a session *)

Lemma dealer_loop_dicts (fuel : nat) :
  forall (draws : nat -> Z) (k : nat) (total : Z) (s s' : game)
         (h1 h2 hd : list Z) (a b c : Z),
    player_hands s = [("Player 1", h1); ("Player 2", h2); ("Dealer", hd)] ->
    player_scores s = [("Player 1", a); ("Player 2", b); ("Dealer", c)] ->
    dealer_loop fuel draws k total s = Done s' ->
    round_label s' = round_label s /\
    exists (hd' : list Z) (c' : Z),
      player_hands s'
      = [("Player 1", h1); ("Player 2", h2); ("Dealer", hd')] /\
      player_scores s'
      = [("Player 1", a); ("Player 2", b); ("Dealer", c')].
Proof.
  induction fuel as [|fuel IH];
    intros draws k total s s' h1 h2 hd a b c Hh Hs Hrun;
    cbn [dealer_loop] in Hrun;
    destruct (total <? DEALER_STANDS_THRESHOLD);
    try discriminate;
    try (injection Hrun as <-; split; [reflexivity|]; eauto).
  unfold hand_append in Hrun.
  cbn [player_hands _set_message set_message_label] in Hrun.
  rewrite Hh in Hrun.
  cbn [Py.get Py.set String.eqb Ascii.eqb Bool.eqb bind] in Hrun.
  cbn [player_scores set_player_hands _set_message set_message_label]
    in Hrun.
  rewrite Hs in Hrun.
  cbn [Py.set String.eqb Ascii.eqb Bool.eqb] in Hrun.
  apply IH with (h1 := h1) (h2 := h2) (a := a) (b := b)
                (hd := (hd ++ [_generate_random_card (draws k)]))
                (c := total + _generate_random_card (draws k)) in Hrun;
    [|reflexivity | reflexivity].
  destruct Hrun as (Hr & Hd). split; [|exact Hd]. rewrite Hr. reflexivity.
Qed.

Lemma rescore_known (h1 h2 hd : list Z) (scores : Py.dict Z) :
  scores = [] \/
  (exists a b c, scores = [("Player 1", a); ("Player 2", b); ("Dealer", c)]) ->
  rescore [("Player 1", h1); ("Player 2", h2); ("Dealer", hd)] scores
  = [("Player 1", Py.sum h1); ("Player 2", Py.sum h2); ("Dealer", Py.sum hd)].
Proof. intros [-> | (a & b & c & ->)]; reflexivity. Qed.

Lemma end_game_summary (e : env) (s s' : game) :
  scores_known s ->
  _end_game e s = Done s' ->
  exists (h1 h2 hd : list Z) (msg col : string),
    player_hands s'
    = [("Player 1", h1); ("Player 2", h2); ("Dealer", hd)] /\
    player_scores s'
    = [("Player 1", Py.sum h1); ("Player 2", Py.sum h2);
       ("Dealer", Py.sum hd)] /\
    winner_message_of (player_scores s') = Done msg /\
    message_label s'
    = ("<p style='color:" ++ col ++ ";'>" ++ msg ++ "</p>")%string /\
    (sole_leader (player_scores s') -> col = "green"%string) /\
    (~ sole_leader (player_scores s') -> col = "red"%string) /\
    round_label s'
    = "<p style='color:darkblue; font-style:italic;'>--- GAME OUTCOME ---</p>"%string.
Proof.
  unfold _end_game. intros Hknown H.
  rewrite update_turn_highlight_over in H by reflexivity. cbn [bind] in H.
  set (s1 := set_action_boxes false false (set_game_over true s)) in H.
  pose proof (add_measurements_frame s1) as Hm. cbv zeta in Hm.
  set (s2 := _add_measurements_to_circuit s1) in *.
  destruct Hm as (_ & _ & _ & Hsc2 & _).
  destruct (_process_quantum_results (memory e) s2) as [s3| |] eqn:E3;
    try discriminate.
  cbn [bind] in H.
  destruct (process_all _ _ _ E3)
    as (i1 & i2 & id & h1 & h2 & hd & _ & _ & _ & Hs3 & _).
  cbv zeta in Hs3.
  rewrite rescore_known in Hs3 by (rewrite Hsc2; exact Hknown).
  assert (Hh3 : player_hands s3
                = [("Player 1", i1 :: h1); ("Player 2", i2 :: h2);
                   ("Dealer", id :: hd)]) by (rewrite Hs3; reflexivity).
  assert (Hsc3 : player_scores s3
                 = [("Player 1", Py.sum (i1 :: h1));
                    ("Player 2", Py.sum (i2 :: h2));
                    ("Dealer", Py.sum (id :: hd))])
    by (rewrite Hs3; reflexivity).
  unfold _dealer_final_turn in H. rewrite Hsc3 in H.
  cbn [Py.get String.eqb Ascii.eqb Bool.eqb bind] in H.
  destruct (dealer_loop (fuel e) (draws e) 0 (Py.sum (id :: hd)) s3)
    as [s4| |] eqn:E4; try discriminate.
  cbn [bind] in H.
  destruct (dealer_loop_dicts _ _ _ _ _ _ _ _ _ _ _ _ Hh3 Hsc3 E4)
    as (_ & hd' & c' & Hh4 & Hsc4).
  assert (Hc' : c' = Py.sum hd').
  { assert (G1 : Py.get (player_hands s3) "Dealer" = Done (id :: hd))
      by (rewrite Hh3; reflexivity).
    assert (G2 : Py.get (player_scores s3) "Dealer"
                 = Done (Py.sum (id :: hd))) by (rewrite Hsc3; reflexivity).
    destruct (dealer_loop_spec _ _ _ _ _ _ _ G1 G2 E4)
      as (n & _ & Hhand & Hscore & _).
    rewrite Hh4 in Hhand. rewrite Hsc4 in Hscore.
    cbn [Py.get String.eqb Ascii.eqb Bool.eqb] in Hhand, Hscore.
    injection Hhand as Hhand. injection Hscore as Hscore.
    rewrite Hhand, Hscore.
    change (id :: hd ++ cards (draws e) 0 n)
      with ((id :: hd) ++ cards (draws e) 0 n).
    rewrite sum_app. reflexivity. }
  subst c'.
  destruct (final_summary_frame _ _ H) as (_ & _ & _ & Hh5 & Hsc5 & _).
  destruct (summary_colour s4 s') as (msg & col & Hmsg & Hlabel & Hg & Hr);
    [ rewrite Hsc4; repeat (constructor; [cbn [In]; intuition discriminate|]);
        constructor
    | rewrite Hsc4; cbn [Py.keys map fst]; unfold participants; tauto
    | exact H |].
  exists (i1 :: h1), (i2 :: h2), hd', msg, col.
  rewrite Hh5, Hsc5.
  split; [exact Hh4|]. split; [exact Hsc4|].
  split; [exact Hmsg|]. split; [exact Hlabel|].
  split; [exact Hg|]. split; [exact Hr|].
  destruct (final_summary_done _ _ H) as (? & ? & _ & _ & ->). reflexivity.
Qed.

Lemma start_game_scores (angles : nat -> R) (e : env) (s s0 : game) :
  start_game angles e s = Done s0 -> player_scores s0 = player_scores s.
Proof.
  unfold start_game.
  match goal with |- context [_determine_turn_order ?c ?s1] =>
    destruct (determine_turn_order_spec c s1)
      as (Hord & _ & _ & _ & Hsc & _ & Hgo & _ & Hci);
    destruct (_determine_turn_order c s1) as [s2 order] eqn:Ed
  end.
  cbn [fst snd] in *. subst order. intros H.
  destruct (highlight_running
              (set_player_turn_order (order_of_coin (coin e)) s2))
    as (s3 & Hs3 & _ & _ & _ & _ & Hsc3).
  { cbn. rewrite Hgo. reflexivity. }
  { cbn. rewrite Hci. cbn. lia. }
  { cbn. apply order_of_coin_cases. }
  rewrite Hs3 in H. injection H as <-. rewrite Hsc3. cbn. exact Hsc.
Qed.

Lemma click_keeps_scores (b ch : string) (e : env) (s s' : game) :
  running s ->
  _on_action_button_clicked b ch e s = Done s' ->
  game_over s' = false ->
  player_scores s' = player_scores s.
Proof.
  intros Hrun H Hover. unfold _on_action_button_clicked in H.
  destruct (running_index s Hrun) as (p & Hp & _). rewrite Hp in H.
  cbn [bind] in H.
  assert (Hnext : forall s1, running s1 ->
                    player_scores s1 = player_scores s ->
                    _next_turn e s1 = Done s' ->
                    player_scores s' = player_scores s).
  { intros s1 Hr1 Hsc Hn.
    destruct (next_turn_running e s1 s' Hr1 Hn)
      as [(_ & _ & _ & _ & Hsc' & _) | (_ & _ & Hend & _)].
    - congruence.
    - destruct Hend as (Hg & _). congruence. }
  destruct (String.eqb b "Measure").
  - apply end_game_spec in H. destruct H as (Hg & _). congruence.
  - destruct (String.eqb b "Pass");
      [eapply Hnext; [| |exact H]; [exact Hrun | reflexivity]|].
    destruct (String.eqb b "Re-Shuffle");
      [eapply Hnext; [| |exact H]; [exact Hrun | reflexivity]|].
    injection H as <-. reflexivity.
Qed.

(** A play that ends, with what its clicks keep while it runs. *)
Lemma play_last_with (P : game -> Prop) :
  (forall b ch e s s',
     running s -> P s -> _on_action_button_clicked b ch e s = Done s' ->
     game_over s' = false -> P s') ->
  forall (clicks : list click) (s s' : game) (log log' : list (Z * string)),
    running s -> P s ->
    play clicks s log = Done (s', log') ->
    game_over s' = true ->
    exists (c : click) (s1 : game),
      running s1 /\ P s1 /\
      _on_action_button_clicked (button c) (choice c) (world c) s1 = Done s'.
Proof.
  intros Hstep.
  induction clicks as [|c clicks IH]; intros s s' log log' Hrun HP Hplay Hover.
  - simpl in Hplay. injection Hplay as <- <-.
    destruct Hrun as (Hg & _). congruence.
  - cbn [play] in Hplay. pose proof Hrun as (Hg & _). rewrite Hg in Hplay.
    destruct (_on_action_button_clicked (button c) (choice c) (world c) s)
      as [s1| |] eqn:Ec; try discriminate.
    cbn [bind] in Hplay.
    destruct (click_step _ _ _ _ _ Hrun Ec) as [(Hr1 & _) | (Hend & _)].
    + apply (IH _ _ _ _ Hr1) in Hplay; [exact Hplay | | exact Hover].
      apply (Hstep _ _ _ _ _ Hrun HP Ec). apply Hr1.
    + assert (Hg1 : game_over s1 = true) by apply Hend.
      rewrite play_over in Hplay by exact Hg1.
      injection Hplay as <- <-. exists c, s. auto.
Qed.

(** X9.  The summary of a finished game reports this game and nothing else.
    For a session started on a new object, or on one that has finished a
    game before ("Play Again"), the hands and the scores at the end list
    exactly Player 1, Player 2 and the dealer, in this order, each score
    being the sum of the hand; the round label announces the outcome; and
    the message is the winner message of these scores, green when there is a
    sole winner and red otherwise.  The dictionary of scores has the shape
    again that the next game relies on. *)
Theorem session_summary (angles : nat -> R) (e0 : env)
    (s_prev s0 s : game) (clicks : list click) (log : list (Z * string)) :
  scores_known s_prev ->
  start_game angles e0 s_prev = Done s0 ->
  play clicks s0 [] = Done (s, log) ->
  game_over s = true ->
  scores_known s /\
  exists (h1 h2 hd : list Z) (msg col : string),
    player_hands s
    = [("Player 1", h1); ("Player 2", h2); ("Dealer", hd)] /\
    player_scores s
    = [("Player 1", Py.sum h1); ("Player 2", Py.sum h2);
       ("Dealer", Py.sum hd)] /\
    winner_message_of (player_scores s) = Done msg /\
    message_label s
    = ("<p style='color:" ++ col ++ ";'>" ++ msg ++ "</p>")%string /\
    (sole_leader (player_scores s) -> col = "green"%string) /\
    (~ sole_leader (player_scores s) -> col = "red"%string) /\
    round_label s
    = "<p style='color:darkblue; font-style:italic;'>--- GAME OUTCOME ---</p>"%string.
Proof.
  intros Hknown Hstart Hplay Hover.
  destruct (start_game_spec _ _ _ _ Hstart) as (Hrun & _).
  pose proof (start_game_scores _ _ _ _ Hstart) as Hsc0.
  destruct (play_last_with (fun t => player_scores t = player_scores s0))
    with (2 := Hrun) (4 := Hplay) as (c & s1 & Hrun1 & Hsc1 & Hc);
    [|reflexivity | exact Hover|].
  { intros b ch e t t' Hr Ht Hclick Hg.
    rewrite (click_keeps_scores _ _ _ _ _ Hr Hclick Hg). exact Ht. }
  destruct (click_ends_by_end_game _ _ _ _ _ Hrun1 Hc Hover)
    as (s2 & Hend & _ & Hsc2).
  assert (Hk2 : scores_known s2).
  { unfold scores_known. rewrite Hsc2, Hsc1, Hsc0. exact Hknown. }
  destruct (end_game_summary _ _ _ Hk2 Hend)
    as (h1 & h2 & hd & msg & col & Hh & Hs & Hrest).
  split.
  - right. do 3 eexists. exact Hs.
  - exists h1, h2, hd, msg, col. split; [exact Hh|]. split; [exact Hs|].
    exact Hrest.
Qed.

Lemma session_summary_witness :
  scores_known demo_final /\
  exists (h1 h2 hd : list Z) (msg col : string),
    player_hands demo_final
    = [("Player 1", h1); ("Player 2", h2); ("Dealer", hd)] /\
    player_scores demo_final
    = [("Player 1", Py.sum h1); ("Player 2", Py.sum h2);
       ("Dealer", Py.sum hd)] /\
    winner_message_of (player_scores demo_final) = Done msg /\
    message_label demo_final
    = ("<p style='color:" ++ col ++ ";'>" ++ msg ++ "</p>")%string /\
    (sole_leader (player_scores demo_final) -> col = "green"%string) /\
    (~ sole_leader (player_scores demo_final) -> col = "red"%string) /\
    round_label demo_final
    = "<p style='color:darkblue; font-style:italic;'>--- GAME OUTCOME ---</p>"%string.
Proof.
  apply (session_summary demo_angles demo_env init demo_start demo_final
           demo_clicks demo_log).
  - left. reflexivity.
  - vm_compute. reflexivity.
  - vm_compute. reflexivity.
  - vm_compute. reflexivity.
Defined.

(** ** The summary needs every participant *)

Lemma get_done_or_key_error {A : Type} (d : Py.dict A) (k : string) :
  (exists v, Py.get d k = Done v) \/ Py.get d k = Raise KeyError.
Proof.
  induction d as [|[k' v] d IHd]; cbn [Py.get]; [right; reflexivity|].
  destruct (String.eqb k' k); [left; eexists; reflexivity | exact IHd].
Qed.

Lemma revealed_hands_cases (players : list string)
    (hands : Py.dict (list Z)) (scores : Py.dict Z) :
  forall html,
    (exists out, revealed_hands players hands scores html = Done out) \/
    revealed_hands players hands scores html = Raise KeyError.
Proof.
  induction players as [|p players IHp]; intros html;
    [left; eexists; reflexivity|].
  cbn [revealed_hands].
  destruct (get_done_or_key_error hands p) as [[h ->] | ->];
    [|right; reflexivity].
  destruct (get_done_or_key_error scores p) as [[sc ->] | ->];
    [|right; reflexivity].
  cbn [bind]. apply IHp.
Qed.

(** X19.  [_generate_final_summary] completes exactly when each of Player
    1, Player 2 and Dealer has a hand and a score; when one of them is
    missing it raises [KeyError] (from the loop over the revealed hands),
    whatever the scores are.  When it completes it changes the labels
    only: hands, scores, circuit, round, turn and measure level are kept
    and the round label announces the outcome. *)
Theorem final_summary_needs_every_participant (s : game) :
  ((exists s', _generate_final_summary s = Done s') <->
   (forall p, In p participants ->
      (exists h, Py.get (player_hands s) p = Done h) /\
      (exists sc, Py.get (player_scores s) p = Done sc))) /\
  ((exists s', _generate_final_summary s = Done s') \/
   _generate_final_summary s = Raise KeyError) /\
  (forall s', _generate_final_summary s = Done s' ->
     player_hands s' = player_hands s /\
     player_scores s' = player_scores s /\
     qc s' = qc s /\ control_of s' = control_of s /\
     game_over s' = game_over s /\
     round_label s'
     = "<p style='color:darkblue; font-style:italic;'>--- GAME OUTCOME ---</p>"%string).
Proof.
  split; [split|split].
  - intros [s' H].
    destruct (final_summary_done _ _ H) as (msg & html & _ & Hrev & _).
    exact (revealed_hands_keys _ _ _ _ _ Hrev).
  - intros Hall. apply final_summary_total; intros p Hp; apply Hall, Hp.
  - unfold _generate_final_summary.
    cbn [player_scores player_hands _set_round_message set_round_label
         _set_message set_message_label].
    destruct (winner_message_total (player_scores s)) as [msg ->].
    cbn [bind].
    destruct (revealed_hands_cases ["Player 1"; "Player 2"; "Dealer"]%string
                (player_hands s) (player_scores s)
                "<h4 style='color:black; margin-top:15px;'>--- Revealed Hands ---</h4>")
      as [[out ->] | ->]; cbn [bind];
      [left; eexists; reflexivity | right; reflexivity].
  - intros s' H.
    destruct (final_summary_frame _ _ H) as (Hc & Hg & Hq & Hh & Hsc & _).
    destruct (final_summary_done _ _ H) as (msg & html & _ & _ & ->).
    repeat split.
Qed.

(** The revealed hands of the worked session. *)
Example revealed_hands_of_session :
  revealed_hands ["Player 1"; "Player 2"; "Dealer"]%string
    (player_hands demo_final) (player_scores demo_final)
    "<h4 style='color:black; margin-top:15px;'>--- Revealed Hands ---</h4>"
  = Done ("<h4 style='color:black; margin-top:15px;'>--- Revealed Hands ---</h4>"
          ++ "<p style='color:black;'><b>Player 1:</b> 5 + 1 + 1 = 7</p>"
          ++ "<p style='color:black;'><b>Player 2:</b> 5 + 1 + 1 = 7</p>"
          ++ "<p style='color:black;'><b>Dealer:</b> 5 + 5 + 5 = 15</p>")%string.
Proof. vm_compute. reflexivity. Qed.

(* ------------------------------------------------------------------ *)
(** * Further properties of the circuit *)

Local Open Scope R_scope.

(** ** Expectations *)

Lemma slot_prob_expect (c : circuit) (player : string) (k : nat) (v : Z) :
  slot_prob c player k v = expect (slot_is player k v) (run 0 c ket0).
Proof.
  unfold slot_prob, expect, slot_is, sq. apply sum_over_ext. intros x.
  destruct (slot_card player k x) as [v'| |]; try ring.
  destruct (v' =? v)%Z; ring.
Qed.

Lemma expect_ext (W W' : N -> R) (psi : statevec) :
  (forall x, W x = W' x) -> expect W psi = expect W' psi.
Proof.
  intros H. unfold expect. apply sum_over_ext. intros x. rewrite H.
  reflexivity.
Qed.

(** Only the outcomes the state can give matter. *)
Lemma expect_ext_supported (P : N -> Prop) (W W' : N -> R) (psi : statevec) :
  supported P psi ->
  (forall x, P x -> W x = W' x) -> expect W psi = expect W' psi.
Proof.
  intros Hs H. unfold expect. apply sum_over_ext. intros x.
  destruct (Req_dec (psi x) 0) as [Hz|Hnz].
  - unfold sq. rewrite Hz. ring.
  - rewrite (H x (Hs x Hnz)). reflexivity.
Qed.

Lemma expect_const (k : R) (psi : statevec) :
  expect (fun _ => k) psi = k * norm2 psi.
Proof. unfold expect, norm2. apply sum_over_scal. Qed.

(** A gate does not change the expectation of what is blind to the qubit
    it changes. *)
Lemma expect_instr (W : N -> R) (m : N) (i : instr) (psi : statevec) :
  gate_on all_qubits i = true ->
  (forall q, touches i q = true -> blind q W) ->
  expect W (apply_instr m i psi) = expect W psi.
Proof.
  intros Hg Hb. unfold expect.
  assert (Hpair : forall (q : N) (phi : statevec),
            In q all_qubits -> blind q W ->
            (forall y, sq phi (upd y q false) + sq phi (upd y q true)
                       = sq psi (upd y q false) + sq psi (upd y q true)) ->
            sum_over all_qubits (fun x => W x * sq phi x) 0
            = sum_over all_qubits (fun x => W x * sq psi x) 0).
  { intros q phi Hin HW Hp.
    destruct (sum_over_inner all_qubits q Hin) as (qs' & Hs).
    rewrite !Hs. apply sum_over_ext. intros y. rewrite !HW.
    rewrite <- !Rmult_plus_distr_l, Hp. reflexivity. }
  destruct i as [|q|theta q|c t|q c]; cbn [gate_on] in Hg.
  - reflexivity.
  - apply existsb_exists in Hg. destruct Hg as (q' & Hin & E).
    apply N.eqb_eq in E. subst q'.
    apply (Hpair q); [exact Hin | apply Hb; simpl; apply N.eqb_refl|].
    intros y. apply sq_h_pair.
  - apply existsb_exists in Hg. destruct Hg as (q' & Hin & E).
    apply N.eqb_eq in E. subst q'.
    apply (Hpair q); [exact Hin | apply Hb; simpl; apply N.eqb_refl|].
    intros y. apply sq_ry_pair.
  - apply andb_true_iff in Hg. destruct Hg as [Hg Hct].
    apply negb_true_iff, N.eqb_neq in Hct.
    apply existsb_exists in Hg. destruct Hg as (q' & Hin & E).
    apply N.eqb_eq in E. subst q'.
    apply (Hpair t); [exact Hin | apply Hb; simpl; apply N.eqb_refl|].
    intros y. apply sq_cx_pair. exact Hct.
  - discriminate.
Qed.

Lemma expect_run (W : N -> R) (m : N) (c : circuit) :
  gates_on all_qubits c = true ->
  (forall q, touched c q = true -> blind q W) ->
  forall psi, expect W (run m c psi) = expect W psi.
Proof.
  induction c as [|i c IH]; intros Hg Hb psi; [reflexivity|].
  cbn [gates_on forallb] in Hg. apply andb_true_iff in Hg.
  destruct Hg as [Hi Hc]. rewrite run_cons, IH.
  - apply expect_instr; [exact Hi|].
    intros q Hq. apply Hb. simpl. rewrite Hq. reflexivity.
  - exact Hc.
  - intros q Hq. apply Hb. simpl. rewrite Hq. apply orb_true_r.
Qed.

(** ** The card behind each group of qubits *)

Lemma slot_card_dealer (x : N) :
  slot_card "Dealer" 1 x
    = Done (card3 (N.testbit x 5) (N.testbit x 4) (N.testbit x 3)) /\
  slot_card "Dealer" 2 x
    = Done (card3 (N.testbit x 2) (N.testbit x 1) (N.testbit x 0)).
Proof.
  unfold slot_card. rewrite memory_string_bits.
  rewrite (process_hands probe 0 0 0) by reflexivity.
  cbn [bind player_hands set_player_hands set_player_scores Py.get
       String.eqb Ascii.eqb Bool.eqb].
  split; [reflexivity|].
  change (measure_level probe =? 3)%Z with true. cbn [andb].
  pose proof (card3_range (N.testbit x 5) (N.testbit x 4) (N.testbit x 3))
    as Hr.
  replace (0 + card3 (N.testbit x 5) (N.testbit x 4) (N.testbit x 3)
           <? DEALER_STANDS_THRESHOLD)%Z with true
    by (symmetry; apply Z.ltb_lt; unfold DEALER_STANDS_THRESHOLD; lia).
  reflexivity.
Qed.

Lemma slot_is_spec (player : string) (k : nat) :
  In player participants -> (k = 1 \/ k = 2)%nat ->
  exists q1 q2 q3 : N,
    slot_qubits player k = [q1; q2; q3] /\
    forall (v : Z) (x : N),
      slot_is player k v x
      = if (card3 (N.testbit x q3) (N.testbit x q2) (N.testbit x q1) =? v)%Z
        then 1 else 0.
Proof.
  intros Hp Hk. unfold slot_is.
  destruct Hp as [<-|[<-|[<-|[]]]]; destruct Hk as [-> | ->].
  - exists 9%N, 10%N, 11%N. split; [reflexivity|]. intros v x.
    destruct (slot_card_spec x) as (-> & _). reflexivity.
  - exists 6%N, 7%N, 8%N. split; [reflexivity|]. intros v x.
    destruct (slot_card_spec x) as (_ & -> & _). reflexivity.
  - exists 15%N, 16%N, 17%N. split; [reflexivity|]. intros v x.
    destruct (slot_card_spec x) as (_ & _ & -> & _). reflexivity.
  - exists 12%N, 13%N, 14%N. split; [reflexivity|]. intros v x.
    destruct (slot_card_spec x) as (_ & _ & _ & ->). reflexivity.
  - exists 3%N, 4%N, 5%N. split; [reflexivity|]. intros v x.
    destruct (slot_card_dealer x) as (-> & _). reflexivity.
  - exists 0%N, 1%N, 2%N. split; [reflexivity|]. intros v x.
    destruct (slot_card_dealer x) as (_ & ->). reflexivity.
Qed.

(** A card only depends on its own three qubits. *)
Lemma slot_is_blind (player : string) (k : nat) (v : Z) (q : N) :
  In player participants -> (k = 1 \/ k = 2)%nat ->
  ~ In q (slot_qubits player k) -> blind q (slot_is player k v).
Proof.
  intros Hp Hk Hq.
  destruct (slot_is_spec player k Hp Hk) as (q1 & q2 & q3 & Hqs & Hspec).
  rewrite Hqs in Hq. cbn [In] in Hq.
  intros x b. rewrite !Hspec.
  rewrite !testbit_upd_other by (intros ->; tauto). reflexivity.
Qed.

(** ** A Re-Shuffle changes one card only *)

Lemma qubits_to_affect_slot (p : Z) (ch : string) :
  qubits_to_affect p ch = slot_qubits (player_name p) (card_number ch).
Proof.
  unfold qubits_to_affect, slot_qubits, player_name, card_number.
  destruct (p =? 1)%Z, (String.eqb ch "1"); reflexivity.
Qed.

Lemma slot_qubits_disjoint (player player' : string) (k k' : nat) (q : N) :
  In player participants -> In player' participants ->
  (k = 1 \/ k = 2)%nat -> (k' = 1 \/ k' = 2)%nat ->
  (player, k) <> (player', k') ->
  In q (slot_qubits player' k') -> ~ In q (slot_qubits player k).
Proof.
  intros Hp Hp' Hk Hk' Hne.
  destruct Hp as [<-|[<-|[<-|[]]]]; destruct Hp' as [<-|[<-|[<-|[]]]];
    destruct Hk as [-> | ->]; destruct Hk' as [-> | ->];
    try (exfalso; apply Hne; reflexivity);
    vm_compute; intuition congruence.
Qed.

Lemma player_name_participant (p : Z) : In (player_name p) participants.
Proof. unfold player_name. destruct (p =? 1)%Z; simpl; auto. Qed.

Lemma card_number_cases (ch : string) :
  (card_number ch = 1 \/ card_number ch = 2)%nat.
Proof. unfold card_number. destruct (String.eqb ch "1"); auto. Qed.

Lemma reshuffle_gates_h (p : Z) (ch : string) :
  reshuffle_gates p ch = map IH (qubits_to_affect p ch) ++ [IBarrier].
Proof.
  rewrite reshuffle_gates_cases. unfold qubits_to_affect.
  destruct (String.eqb ch "1"), (p =? 1)%Z; reflexivity.
Qed.

Lemma gates_on_reshuffle_gates (p : Z) (ch : string) :
  gates_on all_qubits (reshuffle_gates p ch) = true.
Proof.
  rewrite reshuffle_gates_cases.
  destruct (String.eqb ch "1"), (p =? 1)%Z; reflexivity.
Qed.

Lemma touched_reshuffle_gates (p : Z) (ch : string) (q : N) :
  touched (reshuffle_gates p ch) q = true -> In q (qubits_to_affect p ch).
Proof.
  rewrite reshuffle_gates_h. unfold touched.
  rewrite existsb_app. cbn [existsb touches orb].
  rewrite orb_false_r. intros H. apply existsb_exists in H.
  destruct H as (i & Hi & Ht). apply in_map_iff in Hi.
  destruct Hi as (q' & <- & Hq'). cbn [touches] in Ht.
  apply N.eqb_eq in Ht. subst q'. exact Hq'.
Qed.

(** X10.  A Re-Shuffle is local: it changes the distribution of no card but
    the one it is applied to.  The other card of the player who clicks, both
    cards of the other player (the entangled partner of the re-shuffled card
    included) and the dealer's cards keep the probability of each of their
    values, whatever the circuit was before. *)
Theorem reshuffle_leaves_other_cards (c : circuit) (p : Z) (ch : string)
    (player : string) (k : nat) (v : Z) :
  In player participants ->
  (k = 1 \/ k = 2)%nat ->
  (player, k) <> (player_name p, card_number ch) ->
  slot_prob (reshuffle p ch c) player k v = slot_prob c player k v.
Proof.
  intros Hp Hk Hne. rewrite !slot_prob_expect.
  rewrite reshuffle_shape, run_app.
  apply expect_run; [apply gates_on_reshuffle_gates|].
  intros q Hq. apply touched_reshuffle_gates in Hq.
  rewrite qubits_to_affect_slot in Hq.
  apply slot_is_blind; [exact Hp | exact Hk|].
  apply (slot_qubits_disjoint player (player_name p) k (card_number ch));
    auto using player_name_participant, card_number_cases.
Qed.

Lemma reshuffle_leaves_other_cards_witness :
  slot_prob (reshuffle 1 "1" (prepared quarter_angles)) "Player 2" 1 1
  = slot_prob (prepared quarter_angles) "Player 2" 1 1.
Proof.
  apply (reshuffle_leaves_other_cards (prepared quarter_angles) 1 "1"
           "Player 2" 1 1).
  - vm_compute. tauto.
  - left. reflexivity.
  - vm_compute. discriminate.
Defined.

(** ** Card numbers mean the same everywhere *)



(** ** Re-Shuffles compose by parity *)

Lemma h_each_swap (qs qs' : list N) :
  forall psi, h_each qs (h_each qs' psi) = h_each qs' (h_each qs psi).
Proof.
  induction qs as [|q qs IH]; intros psi; [reflexivity|].
  rewrite !h_each_cons, <- IH, h_each_comm. reflexivity.
Qed.

Lemma h_power_succ (n : nat) (qs : list N) (psi : statevec) :
  h_each qs (h_power n qs psi) = h_power (n + 1) qs psi.
Proof.
  unfold h_power. rewrite Nat.add_1_r, Nat.even_succ, <- Nat.negb_even.
  destruct (Nat.even n); cbn [negb]; [reflexivity|].
  apply h_each_involutive.
Qed.

Lemma h_power_swap (n : nat) (qs qs' : list N) (psi : statevec) :
  h_each qs' (h_power n qs psi) = h_power n qs (h_each qs' psi).
Proof.
  unfold h_power. destruct (Nat.even n); [reflexivity|]. apply h_each_swap.
Qed.

Lemma own_reshuffles_snoc (history : list (Z * string)) (pc : Z * string)
    (player : string) (k : nat) :
  own_reshuffles (history ++ [pc]) player k
  = (own_reshuffles history player k
     + (if String.eqb (player_name (fst pc)) player
           && (card_number (snd pc) =? k)%nat then 1 else 0))%nat.
Proof.
  unfold own_reshuffles. rewrite filter_app, length_app. cbn [filter].
  destruct (String.eqb (player_name (fst pc)) player
            && (card_number (snd pc) =? k)%nat); reflexivity.
Qed.

(** The state after a history of Re-Shuffles: for each player and card,
    Hadamards on the card's qubits if the card was re-shuffled an odd
    number of times. *)
Lemma run_reshuffles_normal (history : list (Z * string)) (c : circuit)
    (m : N) (psi : statevec) :
  run m (reshuffles history c) psi
  = h_power (own_reshuffles history "Player 1" 1) (slot_qubits "Player 1" 1)
      (h_power (own_reshuffles history "Player 1" 2)
         (slot_qubits "Player 1" 2)
         (h_power (own_reshuffles history "Player 2" 1)
            (slot_qubits "Player 2" 1)
            (h_power (own_reshuffles history "Player 2" 2)
               (slot_qubits "Player 2" 2) (run m c psi)))).
Proof.
  induction history as [|[p ch] history IH] using rev_ind; [reflexivity|].
  rewrite reshuffles_snoc, run_app, reshuffle_gates_h, run_h_each, IH.
  rewrite !own_reshuffles_snoc, qubits_to_affect_slot.
  unfold player_name, card_number. cbn [fst snd].
  destruct (p =? 1)%Z, (String.eqb ch "1");
    cbn [String.eqb Ascii.eqb Bool.eqb Nat.eqb andb]; rewrite ?Nat.add_0_r.
  - apply h_power_succ.
  - rewrite h_power_swap. f_equal. apply h_power_succ.
  - do 2 rewrite h_power_swap. do 2 f_equal. apply h_power_succ.
  - do 3 rewrite h_power_swap. do 3 f_equal. apply h_power_succ.
Qed.

(** X11.  Re-Shuffles compose by parity.  The state of the circuit after any
    sequence of Re-Shuffles depends, for each player and each card, only on
    whether that player re-shuffled that card an odd or an even number of
    times: neither the order of the Re-Shuffles matters nor how often a
    card was re-shuffled beyond the parity.  In particular two Re-Shuffles
    commute, and a sequence that re-shuffles every card an even number of
    times leaves the state as it was. *)
Theorem reshuffles_compose_by_parity (c : circuit)
    (history history' : list (Z * string)) :
  (forall (player : string) (k : nat),
     In player ["Player 1"; "Player 2"]%string -> (k = 1 \/ k = 2)%nat ->
     Nat.even (own_reshuffles history player k)
     = Nat.even (own_reshuffles history' player k)) ->
  (forall (m : N) (psi : statevec),
     run m (reshuffles history c) psi = run m (reshuffles history' c) psi) /\
  (forall (player : string) (k : nat) (v : Z),
     slot_prob (reshuffles history c) player k v
     = slot_prob (reshuffles history' c) player k v).
Proof.
  intros Hpar.
  assert (H : forall (m : N) (psi : statevec),
            run m (reshuffles history c) psi
            = run m (reshuffles history' c) psi).
  { intros m psi. rewrite !run_reshuffles_normal. unfold h_power.
    rewrite !(Hpar "Player 1"%string), !(Hpar "Player 2"%string)
      by (simpl; auto).
    reflexivity. }
  split; [exact H|].
  intros player k v. unfold slot_prob. rewrite H. reflexivity.
Qed.

Lemma reshuffles_compose_by_parity_witness :
  (forall (m : N) (psi : statevec),
     run m (reshuffles [(1, "1"); (2, "2"); (1, "1")]%Z
              (prepared quarter_angles)) psi
     = run m (reshuffles [(2, "2")]%Z (prepared quarter_angles)) psi) /\
  (forall (player : string) (k : nat) (v : Z),
     slot_prob (reshuffles [(1, "1"); (2, "2"); (1, "1")]%Z
                  (prepared quarter_angles)) player k v
     = slot_prob (reshuffles [(2, "2")]%Z (prepared quarter_angles))
         player k v).
Proof.
  apply (reshuffles_compose_by_parity (prepared quarter_angles)
           [(1, "1"); (2, "2"); (1, "1")]%Z [(2, "2")]%Z).
  intros player k [<- | [<- | []]] [-> | ->]; reflexivity.
Defined.

(** ** Summing out a freshly prepared qubit *)

Lemma expect_fresh (q : N) (g : bool -> R) (W : N -> R)
    (phi psi : statevec) :
  In q all_qubits ->
  supported (fun y => N.testbit y q = false) psi ->
  (forall x, sq phi x = g (N.testbit x q) * sq psi (upd x q false)) ->
  expect W phi
  = expect (fun x => g false * W (upd x q false) + g true * W (upd x q true))
      psi.
Proof.
  intros Hin Hs Hphi. unfold expect.
  destruct (sum_over_inner all_qubits q Hin) as (qs' & Hinner).
  rewrite !Hinner. apply sum_over_ext. intros y.
  rewrite !Hphi, !testbit_upd_same, !upd_upd.
  assert (Hz : sq psi (upd y q true) = 0).
  { unfold sq. rewrite (unsupported_zero _ _ _ Hs); [ring|].
    rewrite testbit_upd_same. discriminate. }
  rewrite Hz. ring.
Qed.

Lemma sq_h_fresh (q : N) (psi : statevec) (x : N) :
  supported (fun y => N.testbit y q = false) psi ->
  sq (apply_h q psi) x = / 2 * sq psi (upd x q false).
Proof.
  intros Hs. unfold sq, apply_h.
  assert (Hz : psi (upd x q true) = 0).
  { apply (unsupported_zero _ _ _ Hs). rewrite testbit_upd_same.
    discriminate. }
  rewrite Hz, <- sqrt2_inv_sq. ring.
Qed.

Lemma expect_h_fresh (q : N) (W : N -> R) (psi : statevec) :
  In q all_qubits ->
  supported (fun y => N.testbit y q = false) psi ->
  expect W (apply_h q psi)
  = expect (fun x => / 2 * W (upd x q false) + / 2 * W (upd x q true)) psi.
Proof.
  intros Hin Hs. apply (expect_fresh q (fun _ => / 2)); [exact Hin | exact Hs|].
  intros x. apply sq_h_fresh. exact Hs.
Qed.

Lemma sq_ry_balanced (theta : R) (q : N) (chi : statevec) (x : N) :
  balanced q chi ->
  sq (apply_ry theta q chi) x
  = 2 * bit_prob theta (N.testbit x q) * sq chi (upd x q false).
Proof.
  intros Hb. unfold sq, apply_ry, bit_prob. rewrite (Hb x).
  set (u := chi (upd x q false)).
  replace (sin theta) with (2 * sin (theta / 2) * cos (theta / 2))
    by (rewrite <- sin_2a; f_equal; field).
  pose proof (sin2_cos2 (theta / 2)) as H. unfold Rsqr in H.
  set (s := sin (theta / 2)) in *. set (c := cos (theta / 2)) in *.
  destruct (N.testbit x q).
  - transitivity ((s * s + c * c + 2 * s * c) * (u * u)); [ring|].
    rewrite H. field.
  - transitivity ((s * s + c * c - 2 * s * c) * (u * u)); [ring|].
    rewrite H. field.
Qed.

Lemma expect_ry_balanced (theta : R) (q : N) (W : N -> R) (chi : statevec) :
  In q all_qubits ->
  balanced q chi ->
  expect W (apply_ry theta q chi)
  = expect (fun x => bit_prob theta false * W (upd x q false)
                     + bit_prob theta true * W (upd x q true)) chi.
Proof.
  intros Hin Hb. unfold expect.
  destruct (sum_over_inner all_qubits q Hin) as (qs' & Hinner).
  rewrite !Hinner. apply sum_over_ext. intros y.
  rewrite !(sq_ry_balanced theta q chi) by exact Hb.
  rewrite !testbit_upd_same, !upd_upd.
  assert (Hsq : sq chi (upd y q true) = sq chi (upd y q false))
    by (unfold sq; rewrite (Hb y); reflexivity).
  rewrite Hsq. ring.
Qed.

(** The same along a circuit given last instruction first. *)
Lemma expect_back_skip (W : N -> R) (m : N) (i : instr) (rest : circuit) :
  gate_on all_qubits i = true ->
  (forall q, touches i q = true -> blind q W) ->
  expect W (back m (i :: rest)) = expect W (back m rest).
Proof. intros Hg Hb. cbn [back]. apply expect_instr; assumption. Qed.

Lemma expect_back_h (W : N -> R) (m q : N) (rest : circuit) :
  In q all_qubits ->
  untouched [q] (rev rest) = true ->
  expect W (back m (IH q :: rest))
  = expect (fun x => / 2 * W (upd x q false) + / 2 * W (upd x q true))
      (back m rest).
Proof.
  intros Hin Hu. cbn [back apply_instr].
  apply expect_h_fresh; [exact Hin | apply fresh_back; exact Hu].
Qed.

Lemma expect_back_ry (W : N -> R) (m : N) (theta : R) (q : N)
    (rest : circuit) :
  In q all_qubits ->
  balanced q (back m rest) ->
  expect W (back m (IRy theta q :: rest))
  = expect (fun x => bit_prob theta false * W (upd x q false)
                     + bit_prob theta true * W (upd x q true))
      (back m rest).
Proof.
  intros Hin Hb. cbn [back apply_instr].
  apply expect_ry_balanced; assumption.
Qed.

Lemma expect_back_const (k : R) (rest : circuit) :
  gates_on all_qubits (rev rest) = true ->
  expect (fun _ => k) (back 0 rest) = k.
Proof.
  intros Hg. rewrite expect_const, back_run, norm2_run by exact Hg. ring.
Qed.

(** Three qubits summed out of a weight that reads them. *)
Lemma absorbed3 (F : bool -> bool -> bool -> R) (g1 g2 g3 : bool -> R)
    (q1 q2 q3 : N) (x : N) :
  q1 <> q2 -> q1 <> q3 -> q2 <> q3 ->
  let W := fun y => F (N.testbit y q1) (N.testbit y q2) (N.testbit y q3) in
  let W1 := fun y => g3 false * W (upd y q3 false)
                     + g3 true * W (upd y q3 true) in
  let W2 := fun y => g2 false * W1 (upd y q2 false)
                     + g2 true * W1 (upd y q2 true) in
  g1 false * W2 (upd x q1 false) + g1 true * W2 (upd x q1 true)
  = g1 false * g2 false * g3 false * F false false false
    + g1 false * g2 false * g3 true * F false false true
    + g1 false * g2 true * g3 false * F false true false
    + g1 false * g2 true * g3 true * F false true true
    + g1 true * g2 false * g3 false * F true false false
    + g1 true * g2 false * g3 true * F true false true
    + g1 true * g2 true * g3 false * F true true false
    + g1 true * g2 true * g3 true * F true true true.
Proof.
  intros D12 D13 D23. cbv beta zeta.
  rewrite !testbit_upd_same.
  rewrite !(testbit_upd_other _ q3 _ q2) by congruence.
  rewrite !(testbit_upd_other _ q3 _ q1) by congruence.
  rewrite !testbit_upd_same.
  rewrite !(testbit_upd_other _ q2 _ q1) by congruence.
  rewrite !testbit_upd_same.
  ring.
Qed.

(** Of the eight codes, one is that of the value [v]. *)
Lemma sum_codes (g1 g2 g3 : bool -> R) (v : Z) :
  (1 <= v <= 8)%Z ->
  let F := fun b1 b2 b3 : bool =>
             if (card3 b3 b2 b1 =? v)%Z then 1 else 0 in
  g1 false * g2 false * g3 false * F false false false
  + g1 false * g2 false * g3 true * F false false true
  + g1 false * g2 true * g3 false * F false true false
  + g1 false * g2 true * g3 true * F false true true
  + g1 true * g2 false * g3 false * F true false false
  + g1 true * g2 false * g3 true * F true false true
  + g1 true * g2 true * g3 false * F true true false
  + g1 true * g2 true * g3 true * F true true true
  = g1 (code_bit v 2) * g2 (code_bit v 1) * g3 (code_bit v 0).
Proof.
  intros Hv. cbv beta zeta.
  assert (Hc : In v [1; 2; 3; 4; 5; 6; 7; 8]%Z) by (simpl; lia).
  simpl in Hc.
  repeat (destruct Hc as [<-|Hc]; [vm_compute (card3 _ _ _ =? _)%Z;
                                   unfold code_bit; simpl; ring|]).
  contradiction.
Qed.

(** ** The circuit of a running session *)

Lemma prepared_eq (angles : nat -> R) :
  prepared angles
  = [IBarrier; IH 0; IH 1; IH 2; IH 3; IH 4; IH 5; IBarrier;
     IH 9; IH 10; IH 11;
     IRy (angles 0%nat) 9; IRy (angles 1%nat) 10; IRy (angles 2%nat) 11;
     IBarrier;
     IH 6; IH 7; IH 8;
     IRy (angles 3%nat) 6; IRy (angles 4%nat) 7; IRy (angles 5%nat) 8;
     IBarrier;
     ICx 9 17; ICx 10 16; ICx 11 15; IBarrier;
     ICx 6 14; ICx 7 13; ICx 8 12; IBarrier].
Proof. reflexivity. Qed.

Lemma reshuffles_split (history : list (Z * string)) (c : circuit) :
  reshuffles history c = c ++ reshuffles history [].
Proof.
  induction history as [|pc history IH] using rev_ind.
  - simpl. rewrite app_nil_r. reflexivity.
  - rewrite !reshuffles_snoc, IH, app_assoc. reflexivity.
Qed.

Lemma touched_app (c c' : circuit) (q : N) :
  touched (c ++ c') q = touched c q || touched c' q.
Proof. unfold touched. apply existsb_app. Qed.

(** The gates of the Re-Shuffles act on the players' qubits only. *)
Lemma reshuffles_gates (history : list (Z * string)) :
  gates_on all_qubits (reshuffles history []) = true /\
  forall q, touched (reshuffles history []) q = true -> (6 <= q <= 17)%N.
Proof.
  induction history as [|pc history IH] using rev_ind.
  - split; [reflexivity|]. intros q Hq. discriminate Hq.
  - destruct IH as [Hg Ht]. rewrite reshuffles_snoc. split.
    + rewrite gates_on_app, Hg, gates_on_reshuffle_gates. reflexivity.
    + intros q Hq. rewrite touched_app in Hq.
      apply orb_true_iff in Hq. destruct Hq as [Hq|Hq]; [apply Ht; exact Hq|].
      apply touched_reshuffle_gates in Hq. unfold qubits_to_affect in Hq.
      destruct (fst pc =? 1)%Z, (String.eqb (snd pc) "1");
        vm_compute in Hq; intuition (subst q; lia).
Qed.

(** ** The dealer's cards are uniform *)

Ltac blind_to_gate :=
  let q := fresh "q" in
  let Hq := fresh "Hq" in
  let x := fresh "x" in
  let b := fresh "b" in
  intros q Hq; cbn [touches] in Hq;
  first [ discriminate Hq
        | apply N.eqb_eq in Hq; subst q; intros x b;
          rewrite !testbit_upd_other by discriminate; reflexivity ].

Ltac skip_gates :=
  repeat (rewrite expect_back_skip by (first [reflexivity | blind_to_gate])).

Lemma dealer_card1_prepared (angles : nat -> R) (v : Z) :
  (1 <= v <= 8)%Z ->
  expect (fun x => if (card3 (N.testbit x 5) (N.testbit x 4) (N.testbit x 3)
                       =? v)%Z then 1 else 0)
    (run 0 (prepared angles) ket0) = 1 / 8.
Proof.
  intros Hv. rewrite run_back, prepared_eq. cbn [rev app].
  skip_gates.
  rewrite (expect_back_h _ 0 5) by (vm_compute; tauto).
  rewrite (expect_back_h _ 0 4) by (vm_compute; tauto).
  rewrite (expect_back_h _ 0 3) by (vm_compute; tauto).
  rewrite (expect_ext _ (fun _ => 1 / 8)).
  - apply expect_back_const. reflexivity.
  - intros x.
    etransitivity;
      [apply (absorbed3 (fun b1 b2 b3 : bool =>
                           if (card3 b3 b2 b1 =? v)%Z then 1 else 0)
                (fun _ => / 2) (fun _ => / 2) (fun _ => / 2) 3 4 5 x);
       discriminate|].
    etransitivity;
      [apply (sum_codes (fun _ => / 2) (fun _ => / 2) (fun _ => / 2) v Hv)|].
    field.
Qed.

Lemma dealer_card2_prepared (angles : nat -> R) (v : Z) :
  (1 <= v <= 8)%Z ->
  expect (fun x => if (card3 (N.testbit x 2) (N.testbit x 1) (N.testbit x 0)
                       =? v)%Z then 1 else 0)
    (run 0 (prepared angles) ket0) = 1 / 8.
Proof.
  intros Hv. rewrite run_back, prepared_eq. cbn [rev app].
  skip_gates.
  rewrite (expect_back_h _ 0 2) by (vm_compute; tauto).
  rewrite (expect_back_h _ 0 1) by (vm_compute; tauto).
  rewrite (expect_back_h _ 0 0) by (vm_compute; tauto).
  rewrite (expect_ext _ (fun _ => 1 / 8)).
  - apply expect_back_const. reflexivity.
  - intros x.
    etransitivity;
      [apply (absorbed3 (fun b1 b2 b3 : bool =>
                           if (card3 b3 b2 b1 =? v)%Z then 1 else 0)
                (fun _ => / 2) (fun _ => / 2) (fun _ => / 2) 0 1 2 x);
       discriminate|].
    etransitivity;
      [apply (sum_codes (fun _ => / 2) (fun _ => / 2) (fun _ => / 2) v Hv)|].
    field.
Qed.

(** X12.  Whatever the players do, each of the dealer's two quantum cards
    is uniformly distributed: in every running session each value 1..8 has
    probability 1/8, for the first card and for the card the dealer's
    second group of qubits encodes (which the dealer takes only below the
    threshold).  The dealer's qubits only ever get their one Hadamard; no
    Re-Shuffle reaches them. *)
Theorem dealer_cards_uniform (angles : nat -> R) (e0 : env)
    (s_prev s0 s : game) (clicks : list click) (log : list (Z * string))
    (k : nat) (v : Z) :
  start_game angles e0 s_prev = Done s0 ->
  play clicks s0 [] = Done (s, log) ->
  game_over s = false ->
  (k = 1 \/ k = 2)%nat ->
  (1 <= v <= 8)%Z ->
  slot_prob (qc s) "Dealer" k v = 1 / 8.
Proof.
  intros Hstart Hplay Hrun Hk Hv.
  destruct (session_circuit _ _ _ _ _ _ _ Hstart Hplay) as (hist & _ & Hq).
  rewrite Hrun in Hq. rewrite Hq, reshuffles_split.
  destruct (reshuffles_gates hist) as [Hg Ht].
  rewrite slot_prob_expect, run_app.
  rewrite expect_run; [|exact Hg|].
  - destruct Hk as [-> | ->].
    + rewrite (expect_ext _ (fun x => if (card3 (N.testbit x 5)
                                            (N.testbit x 4) (N.testbit x 3)
                                          =? v)%Z then 1 else 0)).
      * apply dealer_card1_prepared. exact Hv.
      * intros x. unfold slot_is.
        destruct (slot_card_dealer x) as (-> & _). reflexivity.
    + rewrite (expect_ext _ (fun x => if (card3 (N.testbit x 2)
                                            (N.testbit x 1) (N.testbit x 0)
                                          =? v)%Z then 1 else 0)).
      * apply dealer_card2_prepared. exact Hv.
      * intros x. unfold slot_is.
        destruct (slot_card_dealer x) as (_ & ->). reflexivity.
  - intros q Hq'. apply Ht in Hq'.
    apply slot_is_blind; [simpl; auto | exact Hk|].
    destruct Hk as [-> | ->]; vm_compute; intuition (subst q; lia).
Qed.

Lemma dealer_cards_uniform_witness :
  slot_prob (qc demo_double_state) "Dealer" 1 8 = 1 / 8.
Proof.
  apply (dealer_cards_uniform quarter_angles demo_env init
           demo_quarter_start demo_double_state demo_double_clicks
           [(1, "Re-Shuffle"%string); (1, "Pass"%string);
            (2, "Re-Shuffle"%string)]%Z 1 8).
  - vm_compute. reflexivity.
  - vm_compute. reflexivity.
  - vm_compute. reflexivity.
  - left. reflexivity.
  - lia.
Defined.

(** ** The distributions the game displays *)

Ltac balanced_back :=
  repeat (apply back_balanced; [reflexivity|]);
  apply back_balanced_h; reflexivity.

Ltac ry_side :=
  match goal with
  | |- In _ _ => vm_compute; tauto
  | |- balanced _ _ => balanced_back
  end.

(** The eight codes, read lowest bit first. *)
Lemma sum_codes_rev (g1 g2 g3 : bool -> R) (v : Z) :
  (1 <= v <= 8)%Z ->
  let F := fun b1 b2 b3 : bool =>
             if (card3 b1 b2 b3 =? v)%Z then 1 else 0 in
  g1 false * g2 false * g3 false * F false false false
  + g1 false * g2 false * g3 true * F false false true
  + g1 false * g2 true * g3 false * F false true false
  + g1 false * g2 true * g3 true * F false true true
  + g1 true * g2 false * g3 false * F true false false
  + g1 true * g2 false * g3 true * F true false true
  + g1 true * g2 true * g3 false * F true true false
  + g1 true * g2 true * g3 true * F true true true
  = g1 (code_bit v 0) * g2 (code_bit v 1) * g3 (code_bit v 2).
Proof.
  intros Hv. cbv beta zeta.
  assert (Hc : In v [1; 2; 3; 4; 5; 6; 7; 8]%Z) by (simpl; lia).
  simpl in Hc.
  repeat (destruct Hc as [<-|Hc]; [vm_compute (card3 _ _ _ =? _)%Z;
                                   unfold code_bit; simpl; ring|]).
  contradiction.
Qed.

(** In the prepared circuit the qubits 3..5 of Player 1's register are
    independent, each with the bias of its own rotation. *)
Lemma player1_card1_bits (angles : nat -> R)
    (F : bool -> bool -> bool -> R) :
  let g1 := bit_prob (angles 0%nat) in
  let g2 := bit_prob (angles 1%nat) in
  let g3 := bit_prob (angles 2%nat) in
  expect (fun x => F (N.testbit x 9) (N.testbit x 10) (N.testbit x 11))
    (run 0 (prepared angles) ket0)
  = g1 false * g2 false * g3 false * F false false false
    + g1 false * g2 false * g3 true * F false false true
    + g1 false * g2 true * g3 false * F false true false
    + g1 false * g2 true * g3 true * F false true true
    + g1 true * g2 false * g3 false * F true false false
    + g1 true * g2 false * g3 true * F true false true
    + g1 true * g2 true * g3 false * F true true false
    + g1 true * g2 true * g3 true * F true true true.
Proof.
  intros g1 g2 g3. rewrite run_back, prepared_eq. cbn [rev app].
  skip_gates.
  rewrite (expect_back_ry _ 0 _ 11) by ry_side.
  rewrite (expect_back_ry _ 0 _ 10) by ry_side.
  rewrite (expect_back_ry _ 0 _ 9) by ry_side.
  match goal with |- _ = ?K => rewrite (expect_ext _ (fun _ => K)) end.
  - apply expect_back_const. reflexivity.
  - intros x. apply (absorbed3 F g1 g2 g3 9 10 11 x); discriminate.
Qed.

Lemma player1_card2_bits (angles : nat -> R)
    (F : bool -> bool -> bool -> R) :
  let g1 := bit_prob (angles 3%nat) in
  let g2 := bit_prob (angles 4%nat) in
  let g3 := bit_prob (angles 5%nat) in
  expect (fun x => F (N.testbit x 6) (N.testbit x 7) (N.testbit x 8))
    (run 0 (prepared angles) ket0)
  = g1 false * g2 false * g3 false * F false false false
    + g1 false * g2 false * g3 true * F false false true
    + g1 false * g2 true * g3 false * F false true false
    + g1 false * g2 true * g3 true * F false true true
    + g1 true * g2 false * g3 false * F true false false
    + g1 true * g2 false * g3 true * F true false true
    + g1 true * g2 true * g3 false * F true true false
    + g1 true * g2 true * g3 true * F true true true.
Proof.
  intros g1 g2 g3. rewrite run_back, prepared_eq. cbn [rev app].
  skip_gates.
  rewrite (expect_back_ry _ 0 _ 8) by ry_side.
  rewrite (expect_back_ry _ 0 _ 7) by ry_side.
  rewrite (expect_back_ry _ 0 _ 6) by ry_side.
  match goal with |- _ = ?K => rewrite (expect_ext _ (fun _ => K)) end.
  - apply expect_back_const. reflexivity.
  - intros x. apply (absorbed3 F g1 g2 g3 6 7 8 x); discriminate.
Qed.

Lemma sq_back_ry (m : N) (theta : R) (q : N) (rest : circuit) (x : N) :
  balanced q (back m rest) ->
  sq (back m (IRy theta q :: rest)) x
  = 2 * bit_prob theta (N.testbit x q) * sq (back m rest) (upd x q false).
Proof. intros Hb. cbn [back apply_instr]. apply sq_ry_balanced. exact Hb. Qed.

Lemma sq_back_h (m q : N) (rest : circuit) (x : N) :
  untouched [q] (rev rest) = true ->
  sq (back m (IH q :: rest)) x = / 2 * sq (back m rest) (upd x q false).
Proof.
  intros Hu. cbn [back apply_instr]. apply sq_h_fresh, fresh_back. exact Hu.
Qed.

Lemma temp_qc_eq (angles : nat -> R) (k : nat) :
  temp_qc angles k
  = [IH 0; IH 1; IH 2; IRy (angles k) 0; IRy (angles (S k)) 1;
     IRy (angles (S (S k))) 2].
Proof. reflexivity. Qed.

Ltac compute_bits :=
  repeat match goal with
         | |- context [N.testbit ?a ?b] =>
             let r := eval vm_compute in (N.testbit a b) in
             change (N.testbit a b) with r
         end;
  repeat match goal with
         | |- context [upd ?a ?b ?c] =>
             let r := eval vm_compute in (upd a b c) in
             change (upd a b c) with r
         end.

(** The probabilities the temporary circuit gives: the product of the
    biases of its three qubits. *)
Lemma temp_probability (angles : nat -> R) (k : nat) (b0 b1 b2 : bool) :
  sq (run 0 (temp_qc angles k) ket0)
    (N.b2n b0 + 2 * N.b2n b1 + 4 * N.b2n b2)%N
  = bit_prob (angles k) b0 * bit_prob (angles (S k)) b1
    * bit_prob (angles (S (S k))) b2.
Proof.
  rewrite run_back, temp_qc_eq. cbn [rev app].
  rewrite sq_back_ry by balanced_back.
  rewrite sq_back_ry by balanced_back.
  rewrite sq_back_ry by balanced_back.
  rewrite !sq_back_h by reflexivity.
  cbn [back].
  destruct b0, b1, b2; cbn [N.b2n]; compute_bits;
    unfold sq, ket0; cbn [N.eqb]; field.
Qed.

Lemma displayed_prob_code (angles : nat -> R) (card : nat) (v : Z) :
  (1 <= v <= 8)%Z ->
  displayed_prob angles card v
  = sq (run 0 (temp_qc angles (if (card =? 1)%nat then 0%nat else 3%nat))
          ket0)
      (N.b2n (code_bit v 0) + 2 * N.b2n (code_bit v 1)
       + 4 * N.b2n (code_bit v 2))%N.
Proof.
  intros Hv. unfold displayed_prob, card_probabilities, probabilities.
  assert (Hc : In v [1; 2; 3; 4; 5; 6; 7; 8]%Z) by (simpl; lia).
  simpl in Hc.
  repeat (destruct Hc as [<-|Hc]; [reflexivity|]).
  contradiction.
Qed.

Lemma code_bit_bitrev3 (v : Z) :
  (1 <= v <= 8)%Z ->
  (1 <= bitrev3 (v - 1) + 1 <= 8)%Z /\
  code_bit (bitrev3 (v - 1) + 1) 0 = code_bit v 2 /\
  code_bit (bitrev3 (v - 1) + 1) 1 = code_bit v 1 /\
  code_bit (bitrev3 (v - 1) + 1) 2 = code_bit v 0.
Proof.
  intros Hv.
  assert (Hc : In v [1; 2; 3; 4; 5; 6; 7; 8]%Z) by (simpl; lia).
  simpl in Hc.
  repeat (destruct Hc as [<-|Hc]; [vm_compute; intuition discriminate|]).
  contradiction.
Qed.

Lemma prepared_linked (angles : nat -> R) :
  supported (fun x => N.testbit x 9 = N.testbit x 17 /\
                      N.testbit x 10 = N.testbit x 16 /\
                      N.testbit x 11 = N.testbit x 15 /\
                      N.testbit x 6 = N.testbit x 14 /\
                      N.testbit x 7 = N.testbit x 13 /\
                      N.testbit x 8 = N.testbit x 12)
    (run 0 (prepared angles) ket0).
Proof.
  destruct (prepared_links angles) as (L1 & L2 & L3 & L4 & L5 & L6).
  intros x Hx.
  repeat split;
    [ apply (linked_run 9 17 0 _ ltac:(discriminate) L1 x Hx)
    | apply (linked_run 10 16 0 _ ltac:(discriminate) L2 x Hx)
    | apply (linked_run 11 15 0 _ ltac:(discriminate) L3 x Hx)
    | apply (linked_run 6 14 0 _ ltac:(discriminate) L4 x Hx)
    | apply (linked_run 7 13 0 _ ltac:(discriminate) L5 x Hx)
    | apply (linked_run 8 12 0 _ ltac:(discriminate) L6 x Hx) ].
Qed.

(** The distributions in the prepared circuit, against the list the game
    displays. *)
Lemma prepared_marginals (angles : nat -> R) (card : nat) (v : Z) :
  (card = 1 \/ card = 2)%nat ->
  (1 <= v <= 8)%Z ->
  let k := if (card =? 1)%nat then 0%nat else 3%nat in
  displayed_prob angles card v
  = bit_prob (angles k) (code_bit v 0)
    * bit_prob (angles (S k)) (code_bit v 1)
    * bit_prob (angles (S (S k))) (code_bit v 2) /\
  slot_prob (prepared angles) "Player 2" card v = displayed_prob angles card v /\
  slot_prob (prepared angles) "Player 1" card (bitrev3 (v - 1) + 1)
  = displayed_prob angles card v.
Proof.
  intros Hcard Hv k.
  assert (Hd : displayed_prob angles card v
               = bit_prob (angles k) (code_bit v 0)
                 * bit_prob (angles (S k)) (code_bit v 1)
                 * bit_prob (angles (S (S k))) (code_bit v 2)).
  { rewrite displayed_prob_code by exact Hv. apply temp_probability. }
  split; [exact Hd|]. rewrite Hd, !slot_prob_expect.
  destruct (code_bit_bitrev3 v Hv) as (Hw & C0 & C1 & C2).
  pose proof (prepared_linked angles) as Hl.
  destruct Hcard as [-> | ->]; subst k; cbn [Nat.eqb]; split.
  - rewrite (expect_ext_supported _ _
               (fun x => (fun b1 b2 b3 : bool =>
                            if (card3 b1 b2 b3 =? v)%Z then 1 else 0)
                           (N.testbit x 9) (N.testbit x 10) (N.testbit x 11))
               _ Hl).
    + etransitivity;
        [exact (player1_card1_bits angles
                  (fun b1 b2 b3 : bool =>
                     if (card3 b1 b2 b3 =? v)%Z then 1 else 0))|].
      apply sum_codes_rev. exact Hv.
    + intros x (E1 & E2 & E3 & _). unfold slot_is.
      destruct (slot_card_spec x) as (_ & _ & -> & _).
      rewrite E1, E2, E3. reflexivity.
  - rewrite (expect_ext _
               (fun x => (fun b1 b2 b3 : bool =>
                            if (card3 b3 b2 b1 =? bitrev3 (v - 1) + 1)%Z
                            then 1 else 0)
                           (N.testbit x 9) (N.testbit x 10) (N.testbit x 11))).
    + etransitivity;
        [exact (player1_card1_bits angles
                  (fun b1 b2 b3 : bool =>
                     if (card3 b3 b2 b1 =? bitrev3 (v - 1) + 1)%Z
                     then 1 else 0))|].
      etransitivity; [apply sum_codes; exact Hw|].
      rewrite C0, C1, C2. ring.
    + intros x. unfold slot_is.
      destruct (slot_card_spec x) as (-> & _). reflexivity.
  - rewrite (expect_ext_supported _ _
               (fun x => (fun b1 b2 b3 : bool =>
                            if (card3 b1 b2 b3 =? v)%Z then 1 else 0)
                           (N.testbit x 6) (N.testbit x 7) (N.testbit x 8))
               _ Hl).
    + etransitivity;
        [exact (player1_card2_bits angles
                  (fun b1 b2 b3 : bool =>
                     if (card3 b1 b2 b3 =? v)%Z then 1 else 0))|].
      apply sum_codes_rev. exact Hv.
    + intros x (_ & _ & _ & E1 & E2 & E3). unfold slot_is.
      destruct (slot_card_spec x) as (_ & _ & _ & ->).
      rewrite E1, E2, E3. reflexivity.
  - rewrite (expect_ext _
               (fun x => (fun b1 b2 b3 : bool =>
                            if (card3 b3 b2 b1 =? bitrev3 (v - 1) + 1)%Z
                            then 1 else 0)
                           (N.testbit x 6) (N.testbit x 7) (N.testbit x 8))).
    + etransitivity;
        [exact (player1_card2_bits angles
                  (fun b1 b2 b3 : bool =>
                     if (card3 b3 b2 b1 =? bitrev3 (v - 1) + 1)%Z
                     then 1 else 0))|].
      etransitivity; [apply sum_codes; exact Hw|].
      rewrite C0, C1, C2. ring.
    + intros x. unfold slot_is.
      destruct (slot_card_spec x) as (_ & -> & _). reflexivity.
Qed.

(** X13.  When a game starts, [_prepare_quantum_circuit] lists for each
    quantum card the probability of each value 1..8.  The listed probability
    of value [v] is the product of the biases of the card's three rotated
    qubits, read off the bits of [v - 1], lowest bit first.  It is the
    probability that Player 2's card has the value [v]; for Player 1 it is
    the probability of the bit-reversed value [bitrev3 (v - 1) + 1], so the
    list shows Player 1's distribution with the values 2 and 5, and 4 and 7,
    exchanged. *)
Theorem displayed_probabilities (angles : nat -> R) (e : env)
    (s_prev s0 : game) (card : nat) (v : Z) :
  start_game angles e s_prev = Done s0 ->
  (card = 1 \/ card = 2)%nat ->
  (1 <= v <= 8)%Z ->
  let k := if (card =? 1)%nat then 0%nat else 3%nat in
  displayed_prob angles card v
  = bit_prob (angles k) (code_bit v 0)
    * bit_prob (angles (S k)) (code_bit v 1)
    * bit_prob (angles (S (S k))) (code_bit v 2) /\
  slot_prob (qc s0) "Player 2" card v = displayed_prob angles card v /\
  slot_prob (qc s0) "Player 1" card (bitrev3 (v - 1) + 1)
  = displayed_prob angles card v.
Proof.
  intros Hstart Hcard Hv.
  destruct (start_game_spec _ _ _ _ Hstart) as (_ & Hq & _).
  rewrite Hq. apply prepared_marginals; assumption.
Qed.

Lemma displayed_probabilities_witness :
  slot_prob (qc demo_quarter_start) "Player 2" 1 2
  = displayed_prob quarter_angles 1 2 /\
  slot_prob (qc demo_quarter_start) "Player 1" 1 (bitrev3 (2 - 1) + 1)
  = displayed_prob quarter_angles 1 2.
Proof.
  apply (displayed_probabilities quarter_angles demo_env init
           demo_quarter_start 1 2).
  - vm_compute. reflexivity.
  - left. reflexivity.
  - lia.
Defined.

(** ** The coin is fair *)

Lemma norm2_collapse (q : N) (b : bool) (psi : statevec) :
  norm2 (collapse q b psi)
  = expect (fun x => if Bool.eqb (N.testbit x q) b then 1 else 0) psi.
Proof.
  unfold norm2, expect, collapse, sq. apply sum_over_ext. intros x.
  destruct (Bool.eqb (N.testbit x q) b); ring.
Qed.

Lemma norm2_ket0 : norm2 ket0 = 1.
Proof. apply (norm2_run []). reflexivity. Qed.

Lemma coin_shot (m : N) : shot_prob coin_qc m = 1 / 2.
Proof.
  unfold shot_prob, coin_qc, qc_measure, qc_h.
  cbn [app map combine fst snd run fold_left apply_instr].
  rewrite norm2_collapse, expect_h_fresh;
    [|vm_compute; tauto | apply supported_ket0; reflexivity].
  rewrite (expect_ext _ (fun _ => / 2)).
  - rewrite expect_const, norm2_ket0. field.
  - intros x. rewrite !testbit_upd_same.
    destruct (N.testbit m 0); cbn [Bool.eqb]; ring.
Qed.

Lemma one_bit (m : N) :
  (forall k, N.testbit m k = true -> k = 0%N) -> m = 0%N \/ m = 1%N.
Proof.
  intros H.
  assert (E : m = N.b2n (N.testbit m 0)).
  { apply N.bits_inj. intros k. destruct (N.eq_dec k 0) as [->|Hk].
    - rewrite N.b2n_bit0. reflexivity.
    - destruct (N.testbit m k) eqn:Ek; [apply H in Ek; contradiction|].
      destruct (N.testbit m 0); simpl.
      + destruct k; [contradiction | reflexivity].
      + reflexivity. }
  rewrite E. destruct (N.testbit m 0); auto.
Qed.

(** X14.  The coin that decides the turn order of a round is fair.  A shot
    of the coin circuit ends with the memory 0 or 1, each with probability
    1/2; on 0 the turn order is Player 1, Player 2, on 1 it is Player 2,
    Player 1. *)
Theorem turn_order_coin_is_fair (s : game) :
  (forall m : N, possible coin_qc m <-> m = 0%N \/ m = 1%N) /\
  shot_prob coin_qc 0 = 1 / 2 /\
  shot_prob coin_qc 1 = 1 / 2 /\
  snd (_determine_turn_order (creg_string 0 [0%N]) s) = [1; 2]%Z /\
  snd (_determine_turn_order (creg_string 1 [0%N]) s) = [2; 1]%Z.
Proof.
  split; [|split; [apply coin_shot | split; [apply coin_shot|]]].
  - intros m. split.
    + intros (Hbits & _). apply one_bit. intros k Hk.
      apply Hbits in Hk. simpl in Hk. intuition.
    + assert (Hnz : / sqrt 2 <> 0) by apply sqrt2_inv_neq_0.
      intros [-> | ->]; (split; [intros k Hk|]).
      * rewrite N.bits_0 in Hk. discriminate.
      * exists 0%N. unfold coin_qc, qc_measure, qc_h.
        cbn [app map combine fst snd run fold_left apply_instr].
        unfold collapse, apply_h, ket0. simpl.
        intros H. apply Hnz. lra.
      * destruct k; [left; reflexivity | destruct p; discriminate].
      * exists 1%N. unfold coin_qc, qc_measure, qc_h.
        cbn [app map combine fst snd run fold_left apply_instr].
        unfold collapse, apply_h, ket0. simpl.
        intros H. apply Hnz. lra.
  - split; reflexivity.
Qed.

(** ** Every card has a distribution *)

Lemma sum_over_plus (qs : list N) (f g : N -> R) :
  forall x, sum_over qs (fun y => f y + g y) x
            = sum_over qs f x + sum_over qs g x.
Proof.
  induction qs as [|q qs IH]; intros x; cbn [sum_over]; [reflexivity|].
  rewrite !IH. ring.
Qed.

Lemma sum_over_nonneg (qs : list N) (f : N -> R) :
  (forall y, 0 <= f y) -> forall x, 0 <= sum_over qs f x.
Proof.
  intros H. induction qs as [|q qs IH]; intros x; cbn [sum_over]; [apply H|].
  pose proof (IH (upd x q false)). pose proof (IH (upd x q true)). lra.
Qed.

Lemma expect_plus (W W' : N -> R) (psi : statevec) :
  expect (fun x => W x + W' x) psi = expect W psi + expect W' psi.
Proof.
  unfold expect. rewrite <- sum_over_plus. apply sum_over_ext.
  intros x. ring.
Qed.

Lemma slot_is_values (player : string) (k : nat) (x : N) :
  In player participants -> (k = 1 \/ k = 2)%nat ->
  slot_is player k 1 x + slot_is player k 2 x + slot_is player k 3 x
  + slot_is player k 4 x + slot_is player k 5 x + slot_is player k 6 x
  + slot_is player k 7 x + slot_is player k 8 x = 1 /\
  forall v, 0 <= slot_is player k v x /\
            ((v < 1 \/ 8 < v)%Z -> slot_is player k v x = 0).
Proof.
  intros Hp Hk.
  destruct (slot_is_spec player k Hp Hk) as (q1 & q2 & q3 & _ & Hspec).
  rewrite !Hspec. split.
  - destruct (N.testbit x q3), (N.testbit x q2), (N.testbit x q1);
      vm_compute (card3 _ _ _); cbn [Z.eqb Pos.eqb]; ring.
  - intros v. rewrite Hspec.
    pose proof (card3_range (N.testbit x q3) (N.testbit x q2)
                  (N.testbit x q1)) as Hr.
    destruct (card3 (N.testbit x q3) (N.testbit x q2) (N.testbit x q1) =? v)%Z
      eqn:E.
    + apply Z.eqb_eq in E. split; [lra | intros Hv; lia].
    + split; [lra | reflexivity].
Qed.

(** X15.  In a running session every quantum card, of either player and of
    the dealer, has a probability distribution over the values 1..8: no
    value has a negative probability, no other value has a positive one, and
    the eight probabilities add up to 1. *)
Theorem card_values_are_distributed (angles : nat -> R) (e0 : env)
    (s_prev s0 s : game) (clicks : list click) (log : list (Z * string))
    (player : string) (k : nat) :
  start_game angles e0 s_prev = Done s0 ->
  play clicks s0 [] = Done (s, log) ->
  game_over s = false ->
  In player participants ->
  (k = 1 \/ k = 2)%nat ->
  slot_prob (qc s) player k 1 + slot_prob (qc s) player k 2
  + slot_prob (qc s) player k 3 + slot_prob (qc s) player k 4
  + slot_prob (qc s) player k 5 + slot_prob (qc s) player k 6
  + slot_prob (qc s) player k 7 + slot_prob (qc s) player k 8 = 1 /\
  forall v : Z,
    0 <= slot_prob (qc s) player k v /\
    ((v < 1 \/ 8 < v)%Z -> slot_prob (qc s) player k v = 0).
Proof.
  intros Hstart Hplay Hrun Hp Hk.
  destruct (session_circuit _ _ _ _ _ _ _ Hstart Hplay) as (hist & _ & Hq).
  rewrite Hrun in Hq. rewrite Hq.
  pose proof (norm2_run _ (gates_on_reshuffles angles hist)) as Hnorm.
  set (psi := run 0 (reshuffles hist (prepared angles)) ket0) in *.
  split.
  - rewrite !slot_prob_expect. fold psi. rewrite <- !expect_plus.
    rewrite (expect_ext _ (fun _ => 1)).
    + rewrite expect_const, Hnorm. ring.
    + intros x. apply (slot_is_values player k x Hp Hk).
  - intros v. rewrite slot_prob_expect. fold psi. split.
    + unfold expect. apply sum_over_nonneg. intros y.
      destruct (slot_is_values player k y Hp Hk) as (_ & Hv).
      destruct (Hv v) as (Hnn & _). unfold sq.
      pose proof (Rle_0_sqr (psi y)) as Hsq. unfold Rsqr in Hsq.
      apply Rmult_le_pos; assumption.
    + intros Hv. rewrite (expect_ext _ (fun _ => 0)).
      * rewrite expect_const. ring.
      * intros x. destruct (slot_is_values player k x Hp Hk) as (_ & H).
        apply H. exact Hv.
Qed.

Lemma card_values_are_distributed_witness :
  slot_prob (qc demo_double_state) "Player 1" 1 1
  + slot_prob (qc demo_double_state) "Player 1" 1 2
  + slot_prob (qc demo_double_state) "Player 1" 1 3
  + slot_prob (qc demo_double_state) "Player 1" 1 4
  + slot_prob (qc demo_double_state) "Player 1" 1 5
  + slot_prob (qc demo_double_state) "Player 1" 1 6
  + slot_prob (qc demo_double_state) "Player 1" 1 7
  + slot_prob (qc demo_double_state) "Player 1" 1 8 = 1 /\
  forall v : Z,
    0 <= slot_prob (qc demo_double_state) "Player 1" 1 v /\
    ((v < 1 \/ 8 < v)%Z -> slot_prob (qc demo_double_state) "Player 1" 1 v = 0).
Proof.
  apply (card_values_are_distributed quarter_angles demo_env init
           demo_quarter_start demo_double_state demo_double_clicks
           [(1, "Re-Shuffle"%string); (1, "Pass"%string);
            (2, "Re-Shuffle"%string)]%Z "Player 1" 1).
  - vm_compute. reflexivity.
  - vm_compute. reflexivity.
  - vm_compute. reflexivity.
  - vm_compute. tauto.
  - left. reflexivity.
Defined.

(** ** The distribution of a card in a running session *)

Lemma click_history (b ch : string) (e : env) (s s' : game) (p : Z) :
  running s ->
  Py.index (player_turn_order s) (current_player_index s) = Done p ->
  _on_action_button_clicked b ch e s = Done s' ->
  let hist := if String.eqb b "Re-Shuffle" then [(p, ch)] else [] in
  qc s' = if game_over s'
          then measured (measure_level s') (reshuffles hist (qc s))
          else reshuffles hist (qc s).
Proof.
  intros Hrun Hp H. unfold _on_action_button_clicked in H.
  rewrite Hp in H. cbn [bind] in H.
  destruct (String.eqb b "Measure") eqn:Eb.
  - apply String.eqb_eq in Eb. subst b. cbn.
    apply end_game_ended in H. destruct H as (Hend & Hml & Hq).
    destruct Hend as (-> & _). rewrite Hml. exact Hq.
  - destruct (String.eqb b "Pass") eqn:Ep;
      [|destruct (String.eqb b "Re-Shuffle") eqn:Er].
    + apply String.eqb_eq in Ep. subst b. cbn.
      apply next_turn_running in H; [|exact Hrun].
      destruct H as [(Hr' & Hq & _) | (_ & _ & Hend & Hml & Hq)].
      * destruct Hr' as (-> & _). exact Hq.
      * destruct Hend as (-> & _). rewrite Hml. exact Hq.
    + cbv zeta. apply next_turn_running in H; [|exact Hrun].
      destruct H as [(Hr' & Hq & _) | (_ & _ & Hend & Hml & Hq)].
      * destruct Hr' as (-> & _). exact Hq.
      * destruct Hend as (-> & _). rewrite Hml. exact Hq.
    + injection H as <-. cbv zeta.
      destruct Hrun as (-> & _). reflexivity.
Qed.

Lemma play_history (clicks : list click) :
  forall (s s' : game) (log log' : list (Z * string)),
    running s ->
    play clicks s log = Done (s', log') ->
    qc s' = if game_over s'
            then measured (measure_level s')
                   (reshuffles (reshuffle_history clicks s) (qc s))
            else reshuffles (reshuffle_history clicks s) (qc s).
Proof.
  induction clicks as [|c clicks IH]; intros s s' log log' Hrun Hplay.
  - simpl in Hplay. injection Hplay as <- <-.
    destruct Hrun as (-> & _). reflexivity.
  - cbn [play reshuffle_history] in *. pose proof Hrun as (Hg & _).
    rewrite Hg in *.
    destruct (_on_action_button_clicked (button c) (choice c) (world c) s)
      as [s1| |] eqn:Ec; try discriminate.
    cbn [bind] in Hplay.
    destruct (running_index s Hrun) as (p & Hp & _). rewrite Hp.
    pose proof (click_history _ _ _ _ _ _ Hrun Hp Ec) as Hq1.
    cbv zeta in Hq1.
    destruct (click_step _ _ _ _ _ Hrun Ec) as [(Hr1 & _) | (Hend & _)].
    + pose proof Hr1 as (Hg1 & _). rewrite Hg1 in Hq1.
      rewrite reshuffles_app, <- Hq1. apply (IH _ _ _ _ Hr1 Hplay).
    + assert (Hg1 : game_over s1 = true) by apply Hend.
      rewrite play_over in Hplay by exact Hg1. injection Hplay as <- <-.
      rewrite Hg1 in Hq1 |- *.
      destruct clicks; cbn [reshuffle_history]; rewrite ?Hg1, app_nil_r;
        exact Hq1.
Qed.

Lemma run_reshuffle_gates (m : N) (p : Z) (ch : string) (psi : statevec) :
  run m (reshuffle_gates p ch) psi = h_each (qubits_to_affect p ch) psi.
Proof. rewrite reshuffle_gates_h. apply run_h_each. Qed.

(** Hadamards outside a card's qubits do not change its distribution. *)
Lemma expect_h_each_other (W : N -> R) (p : Z) (ch : string)
    (psi : statevec) :
  (forall q, In q (qubits_to_affect p ch) -> blind q W) ->
  expect W (h_each (qubits_to_affect p ch) psi) = expect W psi.
Proof.
  intros Hb. rewrite <- (run_reshuffle_gates 0).
  apply expect_run; [apply gates_on_reshuffle_gates|].
  intros q Hq. apply Hb, touched_reshuffle_gates. exact Hq.
Qed.

(** What a history of Re-Shuffles does to the distribution of one card
    depends on the parity of the Re-Shuffles of that very card. *)
Lemma parity_marginal (W : N -> R) (player : string) (k : nat)
    (c : circuit) (history : list (Z * string)) :
  In player participants -> (k = 1 \/ k = 2)%nat ->
  (forall q, ~ In q (slot_qubits player k) -> blind q W) ->
  let Q := slot_qubits player k in
  let n := own_reshuffles history player k in
  expect W (run 0 (reshuffles history c) ket0)
  = (if Nat.even n then expect W (run 0 c ket0)
     else expect W (h_each Q (run 0 c ket0))) /\
  expect W (h_each Q (run 0 (reshuffles history c) ket0))
  = (if Nat.even n then expect W (h_each Q (run 0 c ket0))
     else expect W (run 0 c ket0)).
Proof.
  intros Hp Hk Hblind Q.
  induction history as [|pc history IH] using rev_ind; [split; reflexivity|].
  cbv zeta in *. destruct IH as (IH0 & IH1).
  rewrite reshuffles_snoc, run_app, run_reshuffle_gates.
  unfold own_reshuffles in *. rewrite filter_app, length_app.
  cbn [filter].
  destruct (String.eqb (player_name (fst pc)) player
            && (card_number (snd pc) =? k)%nat) eqn:Ehit.
  - (* a Re-Shuffle of this card *)
    apply andb_true_iff in Ehit. destruct Ehit as (E1 & E2).
    apply String.eqb_eq in E1. apply Nat.eqb_eq in E2.
    assert (HQ : qubits_to_affect (fst pc) (snd pc) = Q)
      by (rewrite qubits_to_affect_slot, E1, E2; reflexivity).
    rewrite HQ, h_each_involutive. cbn [List.length].
    rewrite Nat.add_1_r, Nat.even_succ, <- Nat.negb_even.
    destruct (Nat.even _); cbn [negb]; split; assumption.
  - (* a Re-Shuffle of another card *)
    assert (Hother : forall q, In q (qubits_to_affect (fst pc) (snd pc)) ->
                               blind q W).
    { intros q Hq. apply Hblind. rewrite qubits_to_affect_slot in Hq.
      apply (slot_qubits_disjoint player (player_name (fst pc)) k
               (card_number (snd pc)));
        auto using player_name_participant, card_number_cases.
      intros Heq. injection Heq as H1 H2.
      rewrite <- H1, <- H2, String.eqb_refl, Nat.eqb_refl in Ehit.
      discriminate. }
    cbn [List.length]. rewrite Nat.add_0_r.
    rewrite h_each_swap, !expect_h_each_other by exact Hother.
    split; assumption.
Qed.

(** X16.  The distribution of a player's quantum card in a running session
    is decided by how often that player has re-shuffled that card.  After
    an odd number of Re-Shuffles it is uniform, each value 1..8 having
    probability 1/8; after an even number (none included) it is the
    distribution prepared at the start: for Player 2 the list the game
    displayed, for Player 1 that list with the values bit-reversed.  The
    Re-Shuffles of other cards and of the other player have no influence. *)
Theorem card_distribution_by_parity (angles : nat -> R) (e0 : env)
    (s_prev s0 s : game) (clicks : list click) (log : list (Z * string))
    (k : nat) (v : Z) :
  start_game angles e0 s_prev = Done s0 ->
  play clicks s0 [] = Done (s, log) ->
  game_over s = false ->
  (k = 1 \/ k = 2)%nat ->
  (1 <= v <= 8)%Z ->
  let history := reshuffle_history clicks s0 in
  slot_prob (qc s) "Player 1" k v
  = (if Nat.even (own_reshuffles history "Player 1" k)
     then displayed_prob angles k (bitrev3 (v - 1) + 1) else 1 / 8) /\
  slot_prob (qc s) "Player 2" k v
  = (if Nat.even (own_reshuffles history "Player 2" k)
     then displayed_prob angles k v else 1 / 8).
Proof.
  intros Hstart Hplay Hrun Hk Hv history.
  destruct (start_game_spec _ _ _ _ Hstart) as (Hrun0 & Hq0 & _).
  pose proof (play_history _ _ _ _ _ Hrun0 Hplay) as Hq.
  rewrite Hrun, Hq0 in Hq. fold history in Hq. rewrite Hq.
  assert (Huni : forall p : Z, (p = 1 \/ p = 2)%Z ->
            expect (slot_is (player_name p) k v)
              (h_each (slot_qubits (player_name p) k)
                 (run 0 (prepared angles) ket0)) = 1 / 8).
  { intros p Hp.
    destruct (reshuffle_circuit angles [] p (if (k =? 1)%nat then "1" else "2")
                v Hp) as (Hu & _).
    - destruct (k =? 1)%nat; auto.
    - constructor.
    - exact Hv.
    - cbn [reshuffles fold_left] in Hu.
      rewrite slot_prob_expect, run_reshuffle, qubits_to_affect_slot in Hu.
      replace (card_number (if (k =? 1)%nat then "1" else "2")) with k in Hu
        by (destruct Hk as [-> | ->]; reflexivity).
      exact Hu. }
  assert (Hpar : forall player, In player participants ->
            expect (slot_is player k v)
              (run 0 (reshuffles history (prepared angles)) ket0)
            = if Nat.even (own_reshuffles history player k)
              then expect (slot_is player k v) (run 0 (prepared angles) ket0)
              else expect (slot_is player k v)
                     (h_each (slot_qubits player k)
                        (run 0 (prepared angles) ket0))).
  { intros player Hp.
    apply (parity_marginal (slot_is player k v) player k (prepared angles)
             history Hp Hk).
    intros q Hq'. apply slot_is_blind; assumption. }
  destruct (code_bit_bitrev3 v Hv) as (Hw & _).
  assert (Hinv : (bitrev3 (bitrev3 (v - 1) + 1 - 1) + 1 = v)%Z).
  { assert (Hc : In v [1; 2; 3; 4; 5; 6; 7; 8]%Z) by (simpl; lia).
    simpl in Hc.
    repeat (destruct Hc as [<-|Hc]; [reflexivity|]). contradiction. }
  destruct (prepared_marginals angles k v Hk Hv) as (_ & H2 & _).
  destruct (prepared_marginals angles k (bitrev3 (v - 1) + 1) Hk Hw)
    as (_ & _ & H1).
  rewrite Hinv in H1.
  pose proof (Huni 1%Z (or_introl eq_refl)) as U1.
  pose proof (Huni 2%Z (or_intror eq_refl)) as U2.
  change (player_name 1) with "Player 1"%string in U1.
  change (player_name 2) with "Player 2"%string in U2.
  rewrite !slot_prob_expect in *. split.
  - rewrite (Hpar "Player 1"%string) by (simpl; auto).
    rewrite H1, U1. reflexivity.
  - rewrite (Hpar "Player 2"%string) by (simpl; auto).
    rewrite H2, U2. reflexivity.
Qed.

Lemma card_distribution_by_parity_witness :
  slot_prob (qc demo_double_state) "Player 1" 1 8
  = (if Nat.even (own_reshuffles
                    (reshuffle_history demo_double_clicks demo_quarter_start)
                    "Player 1" 1)
     then displayed_prob quarter_angles 1 (bitrev3 (8 - 1) + 1) else 1 / 8) /\
  slot_prob (qc demo_double_state) "Player 2" 1 8
  = (if Nat.even (own_reshuffles
                    (reshuffle_history demo_double_clicks demo_quarter_start)
                    "Player 2" 1)
     then displayed_prob quarter_angles 1 8 else 1 / 8).
Proof.
  apply (card_distribution_by_parity quarter_angles demo_env init
           demo_quarter_start demo_double_state demo_double_clicks
           [(1, "Re-Shuffle"%string); (1, "Pass"%string);
            (2, "Re-Shuffle"%string)]%Z 1 8).
  - vm_compute. reflexivity.
  - vm_compute. reflexivity.
  - vm_compute. reflexivity.
  - left. reflexivity.
  - lia.
Defined.

(** ** The link of a card that was re-shuffled an even number of times *)

Lemma supported_h_each (P : N -> Prop) (qs : list N) :
  (forall q, In q qs -> ignores q P) ->
  forall psi, supported P psi -> supported P (h_each qs psi).
Proof.
  induction qs as [|q qs IHqs]; intros Hig psi Hs; [exact Hs|].
  rewrite h_each_cons. apply IHqs; [intros q' Hq'; apply Hig; right; exact Hq'|].
  apply (supported_instr P 0%N (IH q)); [|exact Hs].
  intros q' Hq'. simpl in Hq'. apply N.eqb_eq in Hq'. subst q'.
  apply Hig. left. reflexivity.
Qed.

Lemma supported_h_power (P : N -> Prop) (n : nat) (qs : list N) :
  (forall q, In q qs -> ignores q P) ->
  forall psi, supported P psi -> supported P (h_power n qs psi).
Proof.
  intros Hig psi Hs. unfold h_power.
  destruct (Nat.even n); [exact Hs | apply supported_h_each; assumption].
Qed.

Lemma even_reshuffles_keep_link (angles : nat -> R)
    (history : list (Z * string)) (m : N) (k : nat) (a t : N) :
  Nat.even (own_reshuffles history "Player 1" k) = true ->
  Nat.even (own_reshuffles history "Player 2" k) = true ->
  (k = 1%nat /\ In (a, t) [(9, 17); (10, 16); (11, 15)]%N) \/
  (k = 2%nat /\ In (a, t) [(6, 14); (7, 13); (8, 12)]%N) ->
  supported (fun x => N.testbit x a = N.testbit x t)
    (run m (reshuffles history (prepared angles)) ket0).
Proof.
  intros H1 H2 Hk. rewrite run_reshuffles_normal.
  destruct (prepared_links angles) as (L1 & L2 & L3 & L4 & L5 & L6).
  destruct Hk as [[-> Hin] | [-> Hin]].
  - unfold h_power at 1 3. rewrite H1, H2.
    destruct Hin as [E|[E|[E|[]]]]; injection E as <- <-;
      (apply supported_h_power;
       [intros q Hq; vm_compute in Hq;
        apply ignores_pair; intros ->; intuition discriminate|]);
      (apply supported_h_power;
       [intros q Hq; vm_compute in Hq;
        apply ignores_pair; intros ->; intuition discriminate|]);
      (apply linked_run; [discriminate | assumption]).
  - unfold h_power at 2 4. rewrite H1, H2.
    destruct Hin as [E|[E|[E|[]]]]; injection E as <- <-;
      (apply supported_h_power;
       [intros q Hq; vm_compute in Hq;
        apply ignores_pair; intros ->; intuition discriminate|]);
      (apply supported_h_power;
       [intros q Hq; vm_compute in Hq;
        apply ignores_pair; intros ->; intuition discriminate|]);
      (apply linked_run; [discriminate | assumption]).
Qed.

(** X18.  The link between the players' cards survives an even number of
    Re-Shuffles.  Take a session that has ended, any memory a shot of its
    final circuit can return, and the hands [_process_quantum_results]
    derives from that memory at the session's measure level.  If each
    player re-shuffled quantum card [k] an even number of times (not at
    all, or in both rounds), Player 2's quantum card [k] is exactly the bit
    reversal of Player 1's, whatever was done to the other card ([k = 2]
    needs a game ended at level 3, where the second cards are read). *)
Theorem correlation_after_even_reshuffles (angles : nat -> R) (e0 : env)
    (s_prev s0 s_end : game) (clicks : list click) (log : list (Z * string))
    (m : N) (s s' : game) (h1 h2 : list Z) (k : nat) :
  start_game angles e0 s_prev = Done s0 ->
  play clicks s0 [] = Done (s_end, log) ->
  game_over s_end = true ->
  possible (qc s_end) m ->
  measure_level s = measure_level s_end ->
  _process_quantum_results (memory_string m) s = Done s' ->
  Py.get (player_hands s') "Player 1" = Done h1 ->
  Py.get (player_hands s') "Player 2" = Done h2 ->
  k = 1%nat \/ (k = 2%nat /\ measure_level s_end = 3%Z) ->
  Nat.even (own_reshuffles (reshuffle_history clicks s0) "Player 1" k)
  = true ->
  Nat.even (own_reshuffles (reshuffle_history clicks s0) "Player 2" k)
  = true ->
  exists v1 v2 : Z,
    nth_error h1 k = Some v1 /\ nth_error h2 k = Some v2 /\
    (v2 = bitrev3 (v1 - 1) + 1)%Z.
Proof.
  intros Hstart Hplay Hover Hpos Hlevel Hproc Hh1 Hh2 Hk He1 He2.
  destruct (start_game_spec _ _ _ _ Hstart) as (Hrun0 & Hq0 & _).
  pose proof (play_history _ _ _ _ _ Hrun0 Hplay) as Hq.
  rewrite Hover, Hq0 in Hq. rewrite Hq, <- Hlevel in Hpos.
  destruct (process_memory _ _ _ Hproc)
    as (i1 & i2 & t1 & t2 & E1 & E2 & _ & H3).
  rewrite E1 in Hh1. rewrite E2 in Hh2.
  injection Hh1 as <-. injection Hh2 as <-.
  destruct (possible_measured _ _ _ Hpos) as (x & Hx & Hagree).
  pose proof (fun a t Hin =>
                even_reshuffles_keep_link angles _ m k a t He1 He2 Hin x Hx)
    as Hlink.
  cbv beta in Hlink.
  destruct Hk as [-> | [-> Hl]].
  - destruct (measurements_slot1 (measure_level s))
      as (M9 & M10 & M11 & M15 & M16 & M17).
    assert (L1 := Hlink 9%N 17%N ltac:(left; simpl; auto)).
    assert (L2 := Hlink 10%N 16%N ltac:(left; simpl; auto)).
    assert (L3 := Hlink 11%N 15%N ltac:(left; simpl; auto)).
    rewrite (Hagree _ _ M9), (Hagree _ _ M17) in L1.
    rewrite (Hagree _ _ M10), (Hagree _ _ M16) in L2.
    rewrite (Hagree _ _ M11), (Hagree _ _ M15) in L3.
    do 2 eexists. split; [reflexivity|]. split; [reflexivity|].
    rewrite <- L1, <- L2, <- L3. apply bitrev3_card3.
  - rewrite <- Hlevel in Hl. destruct (H3 Hl) as [-> ->].
    rewrite Hl in Hagree.
    destruct measurements_slot2 as (M6 & M7 & M8 & M12 & M13 & M14).
    assert (L1 := Hlink 6%N 14%N ltac:(right; simpl; auto)).
    assert (L2 := Hlink 7%N 13%N ltac:(right; simpl; auto)).
    assert (L3 := Hlink 8%N 12%N ltac:(right; simpl; auto)).
    rewrite (Hagree _ _ M6), (Hagree _ _ M14) in L1.
    rewrite (Hagree _ _ M7), (Hagree _ _ M13) in L2.
    rewrite (Hagree _ _ M8), (Hagree _ _ M12) in L3.
    do 2 eexists. split; [reflexivity|]. split; [reflexivity|].
    rewrite <- L1, <- L2, <- L3. apply bitrev3_card3.
Qed.

Lemma even_memory_possible :
  possible (qc (fst demo_even_play)) demo_linked_memory.
Proof.
  destruct linked_memory_possible as [Hbits [x Hx]].
  assert (Hq0 : qc demo_final = measured 3 (prepared demo_angles))
    by (vm_compute; reflexivity).
  assert (Hq : qc (fst demo_even_play)
               = measured 3 (reshuffles [(1%Z, "1"%string); (1%Z, "1"%string)]
                               (prepared demo_angles)))
    by (vm_compute; reflexivity).
  assert (Hcl : clbits_written (qc (fst demo_even_play))
                = clbits_written (qc demo_final))
    by (vm_compute; reflexivity).
  split; [rewrite Hcl; exact Hbits|].
  exists x. rewrite Hq, measured_shape, run_app, run_reshuffles_normal.
  repeat match goal with
         | |- context [h_power ?n ?qs ?psi] =>
             let b := eval vm_compute in (Nat.even n) in
             change (h_power n qs psi) with (if b then psi else h_each qs psi);
             cbv iota
         end.
  rewrite <- run_app, <- measured_shape, <- Hq0. exact Hx.
Qed.

Lemma correlation_after_even_reshuffles_witness :
  exists v1 v2 : Z,
    nth_error [5; 5; 1]%Z 1 = Some v1 /\
    nth_error [5; 2; 1]%Z 1 = Some v2 /\
    (v2 = bitrev3 (v1 - 1) + 1)%Z.
Proof.
  apply (correlation_after_even_reshuffles demo_angles demo_env init
           demo_start (fst demo_even_play) demo_even_clicks
           (snd demo_even_play) demo_linked_memory demo_final
           demo_linked_done [5; 5; 1]%Z [5; 2; 1]%Z 1).
  - vm_compute. reflexivity.
  - vm_compute. reflexivity.
  - vm_compute. reflexivity.
  - exact even_memory_possible.
  - vm_compute. reflexivity.
  - vm_compute. reflexivity.
  - vm_compute. reflexivity.
  - vm_compute. reflexivity.
  - left. reflexivity.
  - vm_compute. reflexivity.
  - vm_compute. reflexivity.
Defined.

